(** * Safrochain faucet: the send-transaction edge function

    A shallow embedding of the request handler ([serve]), the token
    dispatcher ([sendTokens]) with its two sequence pollers
    ([waitForSequenceStable], [waitForSequenceUpdate]), the audit-log
    helpers ([insertUserRequest], [getRequestCountByIp],
    [getRequestCountByAddress]) and the BigInt-aware JSON serializer
    ([JSONStringifyWithBigInt]).

    Asynchronous JavaScript is sequential between awaits, so the handler is
    modelled in a state-and-exception monad over a [World] (wall clock,
    number of external calls made so far, trace of external calls, audit
    table).  Everything outside the process (Supabase, the chain RPC node,
    ipinfo.io, the wallet library) answers through an [Env] of oracles, indexed
    by the number of external calls already made. *)

From Stdlib Require Import ZArith NArith Bool List String Ascii Lia.
From Stdlib Require Import DecimalString DecimalZ DecimalPos.
Import ListNotations.

Local Open Scope string_scope.
Local Open Scope Z_scope.

(** ** JavaScript strings and numbers *)

Module Js.

(** [Boolean(s)] for a string: only the empty string is falsy. *)
Definition truthy (s : string) : bool :=
  match s with
  | EmptyString => false
  | String _ _ => true
  end.

(** [s.startsWith(p)] *)
Definition startsWith (s p : string) : bool := String.prefix p s.

(** [s.includes(sub)] *)
Fixpoint includes (s sub : string) : bool :=
  String.prefix sub s ||
  match s with
  | EmptyString => false
  | String _ rest => includes rest sub
  end.

(** [s.split(sep)[0]] for a one-character separator. *)
Fixpoint split_head (sep : ascii) (s : string) : string :=
  match s with
  | EmptyString => EmptyString
  | String c rest =>
      if Ascii.eqb c sep then EmptyString else String c (split_head sep rest)
  end.

(** [s.split(sep).length] for a one-character separator. *)
Fixpoint split_length (sep : ascii) (s : string) : Z :=
  match s with
  | EmptyString => 1
  | String c rest =>
      (if Ascii.eqb c sep then 1 else 0) + split_length sep rest
  end.

(** White space stripped by [trim] (the ASCII part of it). *)
Definition is_space (c : ascii) : bool :=
  let n := nat_of_ascii c in
  Nat.eqb n 32 || (Nat.leb 9 n && Nat.leb n 13).

Fixpoint trimStart (s : string) : string :=
  match s with
  | EmptyString => EmptyString
  | String c rest => if is_space c then trimStart rest else s
  end.

Definition reverse (s : string) : string :=
  string_of_list_ascii (List.rev (list_ascii_of_string s)).

Definition trim (s : string) : string :=
  reverse (trimStart (reverse (trimStart s))).

(** [a || b] on strings. *)
Definition or_else (a b : string) : string := if truthy a then a else b.

(** Decimal rendering of an integer: [BigInt.prototype.toString()], and
    [String(n)] for an integer-valued number. *)
Definition toString (n : Z) : string := NilZero.string_of_int (Z.to_int n).

(** The inverse reading, used to state that nothing is lost. *)
Definition parseInteger (s : string) : option Z :=
  option_map Z.of_int (NilZero.int_of_string s).

(** [parts.join(sep)] *)
Fixpoint join (sep : string) (parts : list string) : string :=
  match parts with
  | [] => EmptyString
  | [p] => p
  | p :: rest => p ++ sep ++ join sep rest
  end.

End Js.

(** ** Errors and the handler monad *)

(** A thrown [Error]; only its message is ever inspected. *)
Record JsError : Type := Error { message : string }.

(** How an awaited computation ends.  [Diverge] marks a polling loop that
    used up its iteration budget; the totality lemmas show it is never
    reached. *)
Inductive Outcome (A : Type) : Type :=
| Done (a : A)
| Raise (e : JsError)
| Diverge.

Arguments Done {A} a.
Arguments Raise {A} e.
Arguments Diverge {A}.

(** The argument of [insertUserRequest]. *)
Record UserRequest : Type := mkUserRequest {
  ip_address : string;
  region : option string;
  user_agent : option string;
  receiver_address : option string;   (* [None]: [undefined] *)
  success : bool;
  transaction_hash : option string
}.

(** A row of the [user_requests] table; the database stamps it. *)
Record AuditRow : Type := mkAuditRow {
  row : UserRequest;
  request_timestamp : Z
}.

Record Coin : Type := mkCoin { denom : string; amount : string }.

(** Calls that leave the process. *)
Inductive Event : Type :=
| EvFetchConfig
| EvCountByIp (ip : string) (since : Z)
| EvCountByAddress (address : string) (since : Z)
| EvInsert (r : UserRequest)
| EvRegion (ip : string)
| EvConnect (endpoint : string)
| EvGetAccount (address : string)
| EvBroadcast (fromAddress toAddress : string) (coins : list Coin) (memo : string)
| EvChainId
| EvBalances (address : string)
| EvConsoleError (label detail : string).

Record World : Type := mkWorld {
  now : Z;                   (* [Date.now()], milliseconds *)
  calls : nat;               (* external calls made so far *)
  trace : list Event;        (* oldest first *)
  store : list AuditRow      (* the [user_requests] table *)
}.

Definition M (A : Type) : Type := World -> Outcome A * World.

Definition ret {A : Type} (a : A) : M A := fun w => (Done a, w).

Definition raise {A : Type} (e : JsError) : M A := fun w => (Raise e, w).

Definition diverge {A : Type} : M A := fun w => (Diverge, w).

Definition bind {A B : Type} (m : M A) (k : A -> M B) : M B :=
  fun w =>
    match m w with
    | (Done a, w') => k a w'
    | (Raise e, w') => (Raise e, w')
    | (Diverge, w') => (Diverge, w')
    end.

(** [try { m } catch (error) { h error }] *)
Definition try_catch {A : Type} (m : M A) (h : JsError -> M A) : M A :=
  fun w =>
    match m w with
    | (Done a, w') => (Done a, w')
    | (Raise e, w') => h e w'
    | (Diverge, w') => (Diverge, w')
    end.

(** A statement of a [try] block followed by the rest of the block: the
    handler [h] is the [catch] clause with the variables as they stand. *)
Definition guarded {A B : Type} (m : M A) (h : JsError -> M B) (k : A -> M B)
  : M B :=
  fun w =>
    match m w with
    | (Done a, w') => k a w'
    | (Raise e, w') => h e w'
    | (Diverge, w') => (Diverge, w')
    end.

(** A pure computation that may throw, awaited. *)
Definition lift {A : Type} (o : Outcome A) : M A := fun w => (o, w).

Declare Scope monad_scope.
Delimit Scope monad_scope with monad.
Notation "x <- m ;; k" := (bind m (fun x => k))
  (at level 61, m at next level, right associativity) : monad_scope.
Notation "m ;;; k" := (bind m (fun _ => k))
  (at level 61, right associativity) : monad_scope.
Local Open Scope monad_scope.

Definition Date_now : M Z := fun w => (Done (now w), w).

(** The world [ms] milliseconds later. *)
Definition later (w : World) (ms : Z) : World :=
  mkWorld (now w + ms) (calls w) (trace w) (store w).

(** [await new Promise(resolve => setTimeout(resolve, ms))] *)
Definition setTimeout (ms : Z) : M unit := fun w => (Done tt, later w ms).

(** [console.error(label, detail)] *)
Definition console_error (label detail : string) : M unit :=
  fun w => (Done tt,
            mkWorld (now w) (calls w) (trace w ++ [EvConsoleError label detail])
                    (store w)).

(** ** The outside world *)

Inductive Rpc (A : Type) : Type :=
| RpcError (e : JsError)
| RpcOk (a : A).

Arguments RpcError {A} e.
Arguments RpcOk {A} a.

Record FaucetConfig : Type := mkFaucetConfig {
  mnemonic : string;
  rpc_endpoint : string;
  cfg_denom : string;
  cfg_amount : string;
  prefix : string;
  cfg_memo : string;
  explorer_url_prefix : option string;   (* [None]: [undefined] *)
  requests_limit_per_day : Z
}.

(** The three ways a [fetch] of the config table ends. *)
Inductive ConfigReply : Type :=
| ConfigUnreachable (e : JsError)
| ConfigNotOk (statusText : string)
| ConfigRows (rows : list FaucetConfig).

(** The ways a count query ends: [fetch] or [resp.json()] throws, the
    response is not OK, the body is not an array, or the table answers. *)
Inductive CountReply : Type :=
| CountThrows (e : JsError)
| CountNotOk
| CountNotArray
| CountRows.

Inductive InsertReply : Type :=
| InsertThrows (e : JsError)
| InsertNotOk (text : string)
| InsertOk.

Inductive RegionReply : Type :=
| RegionFail
| RegionJson (country region city : string).

(** [signAndBroadcast]'s result, as far as the handler reads it. *)
Record TxResult : Type := mkTxResult {
  transactionHash : string;
  height : Z;
  gasUsed : Z;       (* bigint *)
  gasWanted : Z      (* bigint *)
}.

Record Env : Type := mkEnv {
  latency : nat -> N;                          (* of the k-th external call *)
  service_role_key : string;                   (* empty: not set *)
  config_reply : nat -> ConfigReply;
  count_reply : nat -> CountReply;
  insert_reply : nat -> InsertReply;
  region_reply : nat -> RegionReply;
  validateMnemonic : string -> bool;
  fromMnemonic : string -> string -> Rpc string;   (* sender address *)
  connect_reply : nat -> Rpc unit;
  account_reply : nat -> Rpc (option Z);       (* [None]: no such account *)
  broadcast_reply : nat -> Rpc TxResult;
  chainId_reply : nat -> Rpc string;
  balances_reply : nat -> Rpc (list Coin)
}.

(** The world once the external call [ev] has come back. *)
Definition after_call (env : Env) (w : World) (ev : Event) : World :=
  mkWorld (now w + Z.of_N (latency env (calls w)))
          (S (calls w)) (trace w ++ [ev]) (store w).

(** The k-th external call: takes its latency, is recorded, and yields the
    oracle's k-th answer. *)
Definition external {A : Type} (env : Env) (ev : Event) (reply : nat -> A)
  : M A :=
  fun w => (Done (reply (calls w)), after_call env w ev).

Definition of_rpc {A : Type} (r : Rpc A) : Outcome A :=
  match r with
  | RpcError e => Raise e
  | RpcOk a => Done a
  end.

Definition rpc_call {A : Type} (env : Env) (ev : Event) (reply : nat -> Rpc A)
  : M A :=
  r <- external env ev reply ;; lift (of_rpc r).

(** ** JSON serialization *)

#[local] Set Warnings "-register-all".

Inductive JsValue : Type :=
| JsUndefined
| JsNull
| JsBool (b : bool)
| JsNumber (n : Z)          (* integer-valued numbers only *)
| JsBigInt (n : Z)
| JsString (s : string)
| JsArray (items : list JsValue)
| JsObject (fields : list (string * JsValue)).

Module Json.

Definition dquote : string := String "034"%char EmptyString.

Definition hex_digit (n : nat) : ascii :=
  List.nth n (list_ascii_of_string "0123456789abcdef") "0"%char.

(** One code unit inside a JSON string literal. *)
Definition quote_char (c : ascii) : string :=
  let n := nat_of_ascii c in
  if Nat.eqb n 8 then "\b"
  else if Nat.eqb n 9 then "\t"
  else if Nat.eqb n 10 then "\n"
  else if Nat.eqb n 12 then "\f"
  else if Nat.eqb n 13 then "\r"
  else if Nat.eqb n 34 then "\" ++ dquote
  else if Nat.eqb n 92 then "\\"
  else if Nat.ltb n 32 then
    "\u00" ++ String (hex_digit (Nat.div n 16))
                (String (hex_digit (Nat.modulo n 16)) EmptyString)
  else String c EmptyString.

Fixpoint quote_chars (s : string) : string :=
  match s with
  | EmptyString => EmptyString
  | String c rest => quote_char c ++ quote_chars rest
  end.

Definition QuoteJSONString (s : string) : string :=
  dquote ++ quote_chars s ++ dquote.

(** Left-to-right evaluation of element serializations; the first one that
    throws decides. *)
Fixpoint elements (l : list (Outcome (option string)))
  : Outcome (list string) :=
  match l with
  | [] => Done []
  | o :: rest =>
      match o with
      | Done s =>
          match elements rest with
          | Done ss =>
              Done (match s with Some t => t | None => "null" end :: ss)
          | Raise e => Raise e
          | Diverge => Diverge
          end
      | Raise e => Raise e
      | Diverge => Diverge
      end
  end.

(** The same for the properties of an object; a property whose value
    serializes to [undefined] is left out. *)
Fixpoint members (l : list (string * Outcome (option string)))
  : Outcome (list string) :=
  match l with
  | [] => Done []
  | (key, o) :: rest =>
      match o with
      | Done s =>
          match members rest with
          | Done ss =>
              Done (match s with
                    | Some t => (QuoteJSONString key ++ ":" ++ t) :: ss
                    | None => ss
                    end)
          | Raise e => Raise e
          | Diverge => Diverge
          end
      | Raise e => Raise e
      | Diverge => Diverge
      end
  end.

(** [SerializeJSONProperty] of ECMA-262 with an optional replacer function
    and no indentation.  [None] is the result [undefined]. *)
Fixpoint SerializeJSONProperty (fuel : nat)
    (replacer : option (JsValue -> JsValue)) (value : JsValue)
  : Outcome (option string) :=
  match fuel with
  | O => Diverge
  | S fuel' =>
      let value :=
        match replacer with
        | Some f => f value
        | None => value
        end in
      match value with
      | JsUndefined => Done None
      | JsNull => Done (Some "null")
      | JsBool true => Done (Some "true")
      | JsBool false => Done (Some "false")
      | JsNumber n => Done (Some (Js.toString n))
      | JsBigInt _ => Raise (Error "Do not know how to serialize a BigInt")
      | JsString s => Done (Some (QuoteJSONString s))
      | JsArray items =>
          match elements
                  (List.map (SerializeJSONProperty fuel' replacer) items)
          with
          | Done ss => Done (Some ("[" ++ Js.join "," ss ++ "]"))
          | Raise e => Raise e
          | Diverge => Diverge
          end
      | JsObject fields =>
          match members
                  (List.map
                     (fun kv =>
                        (fst kv, SerializeJSONProperty fuel' replacer (snd kv)))
                     fields)
          with
          | Done ss => Done (Some ("{" ++ Js.join "," ss ++ "}"))
          | Raise e => Raise e
          | Diverge => Diverge
          end
      end
  end.

Fixpoint depth (v : JsValue) : nat :=
  match v with
  | JsArray items => S (list_max (List.map depth items))
  | JsObject fields =>
      S (list_max (List.map (fun kv => depth (snd kv)) fields))
  | _ => 0%nat
  end.

(** [JSON.stringify(obj, replacer)]; the iteration budget covers every
    replacer that does not deepen the value it is given. *)
Definition stringify (obj : JsValue) (replacer : option (JsValue -> JsValue))
  : Outcome (option string) :=
  SerializeJSONProperty (S (depth obj)) replacer obj.

(** Every bigint below [v] replaced by its decimal string. *)
Fixpoint bigints_as_strings (v : JsValue) : JsValue :=
  match v with
  | JsBigInt n => JsString (Js.toString n)
  | JsArray items => JsArray (List.map bigints_as_strings items)
  | JsObject fields =>
      JsObject
        (List.map (fun kv => (fst kv, bigints_as_strings (snd kv))) fields)
  | _ => v
  end.

Fixpoint has_bigint (v : JsValue) : bool :=
  match v with
  | JsBigInt _ => true
  | JsArray items => List.existsb has_bigint items
  | JsObject fields => List.existsb (fun kv => has_bigint (snd kv)) fields
  | _ => false
  end.

End Json.

(** [(_, value) => typeof value === "bigint" ? value.toString() : value] *)
Definition bigint_replacer (value : JsValue) : JsValue :=
  match value with
  | JsBigInt n => JsString (Js.toString n)
  | _ => value
  end.

Definition JSONStringifyWithBigInt (obj : JsValue) : Outcome (option string) :=
  Json.stringify obj (Some bigint_replacer).

Definition JSON_stringify (obj : JsValue) : Outcome (option string) :=
  Json.stringify obj None.

(** ** Requests, responses and the dispatcher's result *)

(** What [await req.json()] followed by [.receiver] can meet: a body that is
    not JSON, the JSON value [null], or a value whose [receiver] is a string
    or missing. *)
Inductive RequestBody : Type :=
| BodyInvalid (e : JsError)
| BodyNull
| BodyJson (receiver : option string).

Record Request : Type := mkRequest {
  method : string;
  x_forwarded_for : option string;
  x_real_ip : option string;
  header_user_agent : option string;
  body : RequestBody
}.

Record Response : Type := mkResponse {
  status : Z;
  response_body : option string
}.

(** [processedResult] of [sendTokens]. *)
Record ProcessedResult : Type := mkProcessedResult {
  pr_success : bool;
  pr_transactionHash : string;
  pr_chainId : string;
  pr_height : Z;
  pr_amount : Coin;
  pr_senderAddress : string;
  pr_receiverAddress : string;
  pr_memo : string;
  pr_senderBalance : list Coin;
  pr_receiverBalance : list Coin;
  pr_gasUsed : option string;      (* [None]: [undefined] *)
  pr_gasWanted : option string;
  pr_explorerTxUrl : string
}.

Definition js_of_coin (c : Coin) : JsValue :=
  JsObject [("denom", JsString (denom c)); ("amount", JsString (amount c))].

Definition js_of_optional (s : option string) : JsValue :=
  match s with
  | Some t => JsString t
  | None => JsUndefined
  end.

Definition js_of_result (r : ProcessedResult) : JsValue :=
  JsObject
    [("success", JsBool (pr_success r));
     ("transactionHash", JsString (pr_transactionHash r));
     ("chainId", JsString (pr_chainId r));
     ("height", JsNumber (pr_height r));
     ("amount", js_of_coin (pr_amount r));
     ("senderAddress", JsString (pr_senderAddress r));
     ("receiverAddress", JsString (pr_receiverAddress r));
     ("memo", JsString (pr_memo r));
     ("senderBalance", JsArray (List.map js_of_coin (pr_senderBalance r)));
     ("receiverBalance", JsArray (List.map js_of_coin (pr_receiverBalance r)));
     ("gasUsed", js_of_optional (pr_gasUsed r));
     ("gasWanted", js_of_optional (pr_gasWanted r));
     ("explorerTxUrl", JsString (pr_explorerTxUrl r))].

(** [x ? x.toString() : undefined] for a bigint [x]: [0n] is falsy. *)
Definition bigint_field (x : Z) : option string :=
  if x =? 0 then None else Some (Js.toString x).

(** The requester's address:
    [xff?.split(",")[0]?.trim() || x-real-ip || ""]. *)
Definition requester_ip (req : Request) : string :=
  Js.or_else
    (match x_forwarded_for req with
     | Some h => Js.trim (Js.split_head "," h)
     | None => EmptyString
     end)
    (Js.or_else
       (match x_real_ip req with
        | Some h => h
        | None => EmptyString
        end)
       EmptyString).

(** [req.headers.get("user-agent") || null] *)
Definition requester_agent (req : Request) : option string :=
  match header_user_agent req with
  | Some h => if Js.truthy h then Some h else None
  | None => None
  end.

(** [(await req.json()).receiver] *)
Definition read_receiver (b : RequestBody) : Outcome (option string) :=
  match b with
  | BodyInvalid e => Raise e
  | BodyNull =>
      Raise (Error "Cannot read properties of null (reading 'receiver')")
  | BodyJson receiver => Done receiver
  end.

(** A string or [undefined] inside a template literal. *)
Definition template (s : option string) : string :=
  match s with
  | Some t => t
  | None => "undefined"
  end.

(** [txError?.message] inside a template literal. *)
Definition txError_message (txError : option JsError) : string :=
  match txError with
  | Some e => message e
  | None => "undefined"
  end.

(** [errorMessage.includes('sequence') || ...] *)
Definition isSequenceError (errorMessage : string) : bool :=
  Js.includes errorMessage "sequence"
  || Js.includes errorMessage "account sequence mismatch"
  || Js.includes errorMessage "incorrect account sequence".

(** ** The edge function *)

Section Faucet.

Variable env : Env.

(** *** Supabase helpers *)

Definition fetchFaucetConfig : M FaucetConfig :=
  if negb (Js.truthy (service_role_key env)) then
    raise (Error "SUPABASE_SERVICE_ROLE_KEY secret is not set")
  else
    resp <- external env EvFetchConfig (config_reply env) ;;
    match resp with
    | ConfigUnreachable e => raise e
    | ConfigNotOk statusText =>
        raise (Error ("Failed to fetch faucet config from Supabase: "
                      ++ statusText))
    | ConfigRows [] => raise (Error "No faucet config found in Supabase table")
    | ConfigRows (first :: _) => ret first
    end.

(** The database's part of an insert: the row is appended with the
    current time as its [request_timestamp]. *)
Definition append_row (r : UserRequest) : M unit :=
  fun w =>
    (Done tt,
     mkWorld (now w) (calls w) (trace w) (store w ++ [mkAuditRow r (now w)])).

Definition insertUserRequest (r : UserRequest) : M unit :=
  resp <- external env (EvInsert r) (insert_reply env) ;;
  match resp with
  | InsertThrows e => raise e
  | InsertNotOk text =>
      (* do not throw on insert errors; just log *)
      console_error "Failed to log user request:" text
  | InsertOk => append_row r
  end.

(** What the table answers to
    [ip_address=eq.IP&success=eq.true&request_timestamp=gte.SINCE]. *)
Definition matches_ip (ip : string) (since : Z) (a : AuditRow) : bool :=
  String.eqb (ip_address (row a)) ip
  && Bool.eqb (success (row a)) true
  && (since <=? request_timestamp a).

(** [receiver_address=eq.ADDRESS&success=eq.true&request_timestamp=gte.SINCE] *)
Definition matches_address (address : string) (since : Z) (a : AuditRow)
  : bool :=
  match receiver_address (row a) with
  | Some r => String.eqb r address
  | None => false
  end
  && Bool.eqb (success (row a)) true
  && (since <=? request_timestamp a).

Definition rows_matching (f : AuditRow -> bool) : M (list AuditRow) :=
  fun w => (Done (List.filter f (store w)), w).

Definition getRequestCountByIp (ip : string) (sinceISO : Z) : M Z :=
  resp <- external env (EvCountByIp ip sinceISO) (count_reply env) ;;
  match resp with
  | CountThrows e => raise e
  | CountNotOk => ret 0
  | CountNotArray => ret 0
  | CountRows =>
      arr <- rows_matching (matches_ip ip sinceISO) ;;
      ret (Z.of_nat (List.length arr))
  end.

Definition getRequestCountByAddress (address : string) (sinceISO : Z) : M Z :=
  resp <- external env (EvCountByAddress address sinceISO) (count_reply env) ;;
  match resp with
  | CountThrows e => raise e
  | CountNotOk => ret 0
  | CountNotArray => ret 0
  | CountRows =>
      arr <- rows_matching (matches_address address sinceISO) ;;
      ret (Z.of_nat (List.length arr))
  end.

Definition fetchRegion (ip : string) : M (option string) :=
  if negb (Js.truthy ip) || String.eqb ip "127.0.0.1" || String.eqb ip "::1"
  then ret None
  else
    resp <- external env (EvRegion ip) (region_reply env) ;;
    match resp with
    | RegionFail => ret None
    | RegionJson country region city =>
        if Js.truthy country then
          ret (Some (Js.join ", "
                       (List.filter Js.truthy [country; region; city])))
        else ret None
    end.

(** *** Chain client *)

Definition connectWithSigner (endpoint : string) : M unit :=
  rpc_call env (EvConnect endpoint) (connect_reply env).

Definition getAccount (address : string) : M (option Z) :=
  rpc_call env (EvGetAccount address) (account_reply env).

Definition signAndBroadcast (fromAddress toAddress : string)
    (coins : list Coin) (memo : string) : M TxResult :=
  rpc_call env (EvBroadcast fromAddress toAddress coins memo)
           (broadcast_reply env).

Definition getChainId : M string :=
  rpc_call env EvChainId (chainId_reply env).

Definition getAllBalances (address : string) : M (list Coin) :=
  rpc_call env (EvBalances address) (balances_reply env).

(** [account ? account.sequence : 0] *)
Definition sequence_of (account : option Z) : Z :=
  match account with
  | Some s => s
  | None => 0
  end.

(** *** Sequence pollers *)

Definition requiredStableChecks : Z := 5.

(** The [while] loop of [waitForSequenceStable], entered at its test. *)
Fixpoint waitForSequenceStable_loop (fuel : nat) (address : string)
    (startTime maxWaitMs lastSequence stableCount : Z) : M Z :=
  match fuel with
  | O => diverge
  | S fuel' =>
      t <- Date_now ;;
      if t - startTime <? maxWaitMs then
        account <- getAccount address ;;
        let currentSequence := sequence_of account in
        if currentSequence =? lastSequence then
          let stableCount := stableCount + 1 in
          if stableCount >=? requiredStableChecks then
            setTimeout 1000 ;;;
            finalAccount <- getAccount address ;;
            let finalSequence := sequence_of finalAccount in
            if negb (finalSequence =? currentSequence) then
              waitForSequenceStable_loop fuel' address startTime maxWaitMs
                                         finalSequence 1
            else ret finalSequence
          else
            setTimeout 800 ;;;
            waitForSequenceStable_loop fuel' address startTime maxWaitMs
                                       lastSequence stableCount
        else
          setTimeout 800 ;;;
          waitForSequenceStable_loop fuel' address startTime maxWaitMs
                                     currentSequence 1
      else ret lastSequence
  end.

(** Every pass through the loop that does not return lets at least [step]
    milliseconds go by, so this many passes are never used up. *)
Definition passes (maxWaitMs step : Z) : nat :=
  Z.to_nat (maxWaitMs / step) + 2.

Definition waitForSequenceStable (address : string)
    (expectedSequence maxWaitMs : Z) : M Z :=
  startTime <- Date_now ;;
  waitForSequenceStable_loop (passes maxWaitMs 800) address startTime
                             maxWaitMs expectedSequence 0.

Fixpoint waitForSequenceUpdate_loop (fuel : nat) (address : string)
    (startTime maxWaitMs targetSequence : Z) : M Z :=
  match fuel with
  | O => diverge
  | S fuel' =>
      t <- Date_now ;;
      if t - startTime <? maxWaitMs then
        account <- getAccount address ;;
        let currentSequence := sequence_of account in
        if currentSequence >=? targetSequence then ret currentSequence
        else
          setTimeout 1000 ;;;
          waitForSequenceUpdate_loop fuel' address startTime maxWaitMs
                                     targetSequence
      else
        (* Final check *)
        account <- getAccount address ;;
        ret (sequence_of account)
  end.

Definition waitForSequenceUpdate (address : string)
    (previousSequence maxWaitMs : Z) : M Z :=
  startTime <- Date_now ;;
  let targetSequence := previousSequence + 1 in
  waitForSequenceUpdate_loop (passes maxWaitMs 1000) address startTime
                             maxWaitMs targetSequence.

(** *** The dispatcher *)

(** The statements of the [try] that follow a successful
    [signAndBroadcast]. *)
Definition sendTokens_report (senderAddress receiverAddress : string)
    (coins : list Coin) (MEMO EXPLORER_TX_URL_PREFIX : string)
    (result : TxResult) (finalSequence : Z) : M ProcessedResult :=
  (* Wait for the transaction to be included and sequence to update *)
  waitForSequenceUpdate senderAddress finalSequence 15000 ;;;
  chainId <- getChainId ;;
  senderBalance <- getAllBalances senderAddress ;;
  receiverBalance <- getAllBalances receiverAddress ;;
  ret (mkProcessedResult
         true
         (transactionHash result)
         chainId
         (height result)
         (List.hd (mkCoin EmptyString EmptyString) coins)
         senderAddress
         receiverAddress
         MEMO
         senderBalance
         receiverBalance
         (bigint_field (gasUsed result))
         (bigint_field (gasWanted result))
         (EXPLORER_TX_URL_PREFIX ++ transactionHash result)).

(** The body of the [try] inside the retry loop. *)
Definition sendTokens_attempt (senderAddress receiverAddress : string)
    (coins : list Coin) (MEMO EXPLORER_TX_URL_PREFIX : string)
  : M ProcessedResult :=
  stableSequence <- waitForSequenceStable senderAddress 0 10000 ;;
  (* Final sequence check right before signing *)
  setTimeout 1000 ;;;
  finalCheck <- getAccount senderAddress ;;
  let finalSequence := sequence_of finalCheck in
  if negb (finalSequence =? stableSequence) then
    raise (Error ("Sequence changed right before signing: expected "
                  ++ Js.toString stableSequence ++ ", got "
                  ++ Js.toString finalSequence ++ ". Retrying..."))
  else
    result <- signAndBroadcast senderAddress receiverAddress coins MEMO ;;
    sendTokens_report senderAddress receiverAddress coins MEMO
                      EXPLORER_TX_URL_PREFIX result finalSequence.

(** [while (retries > 0) { ... }] followed by the [throw] after it; every
    pass opens a fresh client, outside the [try]. *)
Fixpoint sendTokens_retry (retries : nat) (txError : option JsError)
    (endpoint : string) (attempt : M ProcessedResult) : M ProcessedResult :=
  match retries with
  | O =>
      raise (Error ("Transaction failed after multiple retries: "
                    ++ txError_message txError))
  | S retries' =>
      connectWithSigner endpoint ;;;
      try_catch attempt
        (fun error =>
           let errorMessage := Js.or_else (message error) "Error" in
           console_error "Transaction error:" errorMessage ;;;
           console_error "Raw transaction error response:" (message error) ;;;
           (if isSequenceError errorMessage
            then setTimeout 5000
            else setTimeout 1000) ;;;
           sendTokens_retry retries' (Some error) endpoint attempt)
  end.

Definition sendTokens (receiverAddress : string) : M ProcessedResult :=
  config <- fetchFaucetConfig ;;
  let MNEMONIC := mnemonic config in
  let RPC_ENDPOINT := rpc_endpoint config in
  let DENOM := cfg_denom config in
  let AMOUNT_VALUE := cfg_amount config in
  let PREFIX := prefix config in
  let MEMO := cfg_memo config in
  let EXPLORER_TX_URL_PREFIX :=
    match explorer_url_prefix config with
    | Some u => u
    | None => "https://rpcsafro.cardanotask.com/tx?hash=0x"
    end in
  try_catch
    (if negb (Js.truthy MNEMONIC)
        || (Js.split_length " " MNEMONIC <? 12)
        || negb (validateMnemonic env MNEMONIC)
     then raise (Error "Invalid or missing MNEMONIC configuration")
     else if negb (Js.truthy RPC_ENDPOINT) || negb (Js.truthy DENOM)
             || negb (Js.truthy AMOUNT_VALUE) || negb (Js.truthy PREFIX)
     then raise (Error "Missing required configuration (rpc_endpoint, denom, amount, or prefix)")
     else
       let coins := [mkCoin DENOM AMOUNT_VALUE] in
       let rpcEndpointWithProtocol :=
         if negb (Js.startsWith RPC_ENDPOINT "http://")
            && negb (Js.startsWith RPC_ENDPOINT "https://")
         then "https://" ++ RPC_ENDPOINT
         else RPC_ENDPOINT in
       senderAddress <- lift (of_rpc (fromMnemonic env MNEMONIC PREFIX)) ;;
       sendTokens_retry 5 None rpcEndpointWithProtocol
         (sendTokens_attempt senderAddress receiverAddress coins MEMO
                             EXPLORER_TX_URL_PREFIX))
    (fun error =>
       console_error "Error sending tokens:" (message error) ;;;
       raise error).

(** *** The request handler *)

(** The [catch] clause of [serve], with the handler's variables as they
    stand where the exception arrives. *)
Definition serve_catch (ip : string) (region user_agent : option string)
    (receiver_address : option string) (error : JsError) : M Response :=
  try_catch
    (insertUserRequest
       (mkUserRequest ip region user_agent receiver_address false None))
    (fun _ => ret tt) ;;;
  console_error "Error in request handler:" (message error) ;;;
  text <- lift (JSON_stringify
                  (JsObject [("error", JsString (message error));
                             ("success", JsBool false)])) ;;
  ret (mkResponse 500 text).

(** [new Response(JSON.stringify(payload), { status })] inside the [try]. *)
Definition respond (code : Z) (payload : JsValue)
    (catch : JsError -> M Response) : M Response :=
  guarded (lift (JSON_stringify payload)) catch
          (fun text => ret (mkResponse code text)).

Definition rate_limit_body (text : string) (REQUESTS_LIMIT : Z)
    (rateLimitType : string) : JsValue :=
  JsObject
    [("error",
      JsString ("Rate limit exceeded. " ++ text ++ Js.toString REQUESTS_LIMIT
                ++ " faucet requests per 24 hours."));
     ("success", JsBool false);
     ("rateLimitType", JsString rateLimitType)].

(** The record written for a request that is turned away. *)
Definition failed_request (ip : string) (user_agent : option string)
    (receiver_address : option string) : UserRequest :=
  mkUserRequest ip None user_agent receiver_address false None.

(** A rate-limit branch: log the attempt, answer 429. *)
Definition serve_rate_limited (ip : string) (user_agent : option string)
    (receiver_address : option string) (text : string) (REQUESTS_LIMIT : Z)
    (rateLimitType : string) : M Response :=
  let catch := serve_catch ip None user_agent receiver_address in
  guarded (insertUserRequest (failed_request ip user_agent receiver_address))
          catch
          (fun _ =>
             respond 429 (rate_limit_body text REQUESTS_LIMIT rateLimitType)
                     catch).

(** [!receiver_address || !receiver_address.startsWith(PREFIX)] *)
Definition invalid_receiver (receiver_address : option string)
    (PREFIX : string) : bool :=
  match receiver_address with
  | Some receiver =>
      negb (Js.truthy receiver) || negb (Js.startsWith receiver PREFIX)
  | None => true
  end.

(** The prefix-validation branch: log as failed, answer 400. *)
Definition serve_invalid_address (ip : string) (user_agent : option string)
    (receiver_address : option string) (PREFIX : string) : M Response :=
  let catch := serve_catch ip None user_agent receiver_address in
  guarded (insertUserRequest (failed_request ip user_agent receiver_address))
          catch
          (fun _ =>
             respond 400
               (JsObject
                  [("error",
                    JsString ("Invalid receiver address. Must start with: "
                              ++ PREFIX))])
               catch).

(** From the region lookup to the 200 response. *)
Definition serve_dispatch (ip : string) (user_agent : option string)
    (receiver_address : option string) : M Response :=
  guarded (fetchRegion ip)
          (serve_catch ip None user_agent receiver_address)
  (fun region =>
  let catch := serve_catch ip region user_agent receiver_address in
  (* here [receiver_address] is a non-empty string *)
  guarded (sendTokens (template receiver_address)) catch (fun result =>
  let tx_success := pr_success result in
  let tx_hash :=
    if tx_success && Js.truthy (pr_transactionHash result)
    then Some (pr_transactionHash result)
    else None in
  guarded (insertUserRequest
             (mkUserRequest ip region user_agent receiver_address
                            tx_success tx_hash))
          catch (fun _ =>
  guarded (lift (JSONStringifyWithBigInt (js_of_result result)))
          catch (fun text => ret (mkResponse 200 text))))).

(** From "Enforce rate limits" to the end of the [try] block. *)
Definition serve_checked (ip : string) (user_agent : option string)
    (receiver_address : option string) (PREFIX : string)
    (REQUESTS_LIMIT ipRequestCount addressRequestCount : Z) : M Response :=
  if (ipRequestCount >=? REQUESTS_LIMIT)
     && (addressRequestCount >=? REQUESTS_LIMIT) then
    serve_rate_limited ip user_agent receiver_address
      "Both your IP address and wallet address have reached the maximum of "
      REQUESTS_LIMIT "both"
  else if ipRequestCount >=? REQUESTS_LIMIT then
    serve_rate_limited ip user_agent receiver_address
      "Your IP address has reached the maximum of "
      REQUESTS_LIMIT "ip"
  else if addressRequestCount >=? REQUESTS_LIMIT then
    serve_rate_limited ip user_agent receiver_address
      "This wallet address has already received the maximum of "
      REQUESTS_LIMIT "address"
  else if invalid_receiver receiver_address PREFIX then
    serve_invalid_address ip user_agent receiver_address PREFIX
  else
    serve_dispatch ip user_agent receiver_address.

(** [config.requests_limit_per_day || 3] *)
Definition requests_limit (config : FaucetConfig) : Z :=
  if requests_limit_per_day config =? 0 then 3
  else requests_limit_per_day config.

Definition serve (req : Request) : M Response :=
  if String.eqb (method req) "OPTIONS" then ret (mkResponse 200 None)
  else
    let ip := requester_ip req in
    let user_agent := requester_agent req in
    guarded (lift (read_receiver (body req)))
            (serve_catch ip None user_agent (Some EmptyString))
    (fun receiver_address =>
    let catch := serve_catch ip None user_agent receiver_address in
    guarded fetchFaucetConfig catch (fun config =>
    let PREFIX := prefix config in
    let REQUESTS_LIMIT := requests_limit config in
    (* IP is required for rate limiting *)
    if negb (Js.truthy ip) then
      respond 400
        (JsObject [("error", JsString "IP address could not be determined");
                   ("success", JsBool false)])
        catch
    else
    (* 24 hour window for rate limiting *)
    guarded Date_now catch (fun t =>
    let since := t - 24 * 60 * 60 * 1000 in
    guarded (getRequestCountByIp ip since) catch (fun ipRequestCount =>
    guarded (getRequestCountByAddress (template receiver_address) since)
            catch (fun addressRequestCount =>
    serve_checked ip user_agent receiver_address PREFIX REQUESTS_LIMIT
                  ipRequestCount addressRequestCount))))).

End Faucet.


(** * The web client

    The API client of [src/services/api.ts] ([getFaucetConfig],
    [getRequestsLimit], [sendTransaction]) and the request form of
    [src/components/FaucetForm.tsx] ([handleSubmit],
    [isRateLimitErrorMessage], [showRateLimitInfo] and the effect that
    fetches the limit).

    The client handles untyped JSON and throws and catches plain objects, so
    its values are [JsValue]s and what it throws is a [JsValue].  The page is
    a record of the component's state together with what it has shown and
    sent; the server answers through an oracle indexed by the number of
    requests sent so far. *)

Module Client.

(** ** JavaScript values *)

(** [Boolean(v)] *)
Definition truthy (v : JsValue) : bool :=
  match v with
  | JsUndefined | JsNull => false
  | JsBool b => b
  | JsNumber n => negb (n =? 0)
  | JsBigInt n => negb (n =? 0)
  | JsString s => Js.truthy s
  | JsArray _ | JsObject _ => true
  end.

(** [a || b] *)
Definition or_else (a b : JsValue) : JsValue := if truthy a then a else b.

(** The value an object (which holds each key once) has under [key];
    [undefined] when it has none. *)
Fixpoint field (key : string) (fields : list (string * JsValue)) : JsValue :=
  match fields with
  | [] => JsUndefined
  | (k, x) :: rest => if String.eqb k key then x else field key rest
  end.

(** An object has a key of its own. *)
Definition has_key (key : string) (fields : list (string * JsValue)) : bool :=
  List.existsb (fun kv => String.eqb (fst kv) key) fields.

(** How a computation of the client ends: with a value, or with a thrown
    value. *)
Inductive Result (A : Type) : Type :=
| Returned (a : A)
| Thrown (v : JsValue).

Arguments Returned {A} a.
Arguments Thrown {A} v.

(** An [Error] (a [TypeError], a [SyntaxError]) as far as the client can
    tell: an object whose only own key it could read is [message].  The
    wording of a message is the engine's. *)
Definition error_object (message : string) : JsValue :=
  JsObject [("message", JsString message)].

(** Left-to-right evaluation; the first throw decides. *)
Fixpoint all {A : Type} (l : list (Result A)) : Result (list A) :=
  match l with
  | [] => Returned []
  | r :: rest =>
      match r with
      | Returned a =>
          match all rest with
          | Returned others => Returned (a :: others)
          | Thrown v => Thrown v
          end
      | Thrown v => Thrown v
      end
  end.

(** [String(v)], also what a template literal makes of [v].  A value that
    came as JSON holds no function, so an object with a key [toString] of its
    own cannot be converted. *)
Fixpoint String_of (v : JsValue) : Result string :=
  match v with
  | JsUndefined => Returned "undefined"
  | JsNull => Returned "null"
  | JsBool true => Returned "true"
  | JsBool false => Returned "false"
  | JsNumber n => Returned (Js.toString n)
  | JsBigInt n => Returned (Js.toString n)
  | JsString s => Returned s
  | JsArray items =>
      match all (List.map
                   (fun x =>
                      match x with
                      | JsUndefined | JsNull => Returned EmptyString
                      | _ => String_of x
                      end)
                   items)
      with
      | Returned parts => Returned (Js.join "," parts)
      | Thrown e => Thrown e
      end
  | JsObject fields =>
      if has_key "toString" fields then
        Thrown (error_object "Cannot convert object to primitive value")
      else Returned "[object Object]"
  end.

(** [v?.toString()] *)
Definition optional_toString (v : JsValue) : Result JsValue :=
  match v with
  | JsUndefined | JsNull => Returned JsUndefined
  | JsObject fields =>
      if has_key "toString" fields then
        Thrown (error_object "toString is not a function")
      else Returned (JsString "[object Object]")
  | _ =>
      match String_of v with
      | Returned s => Returned (JsString s)
      | Thrown e => Thrown e
      end
  end.

(** [v.key], for the keys the client reads: [error], [message],
    [rateLimitType], [status], [transactionHash], [height], [gasUsed],
    [gasWanted], [explorerTxUrl] and [requests_limit_per_day], none of which
    a primitive or an array has. *)
Definition get (v : JsValue) (key : string) : Result JsValue :=
  match v with
  | JsUndefined =>
      Thrown (error_object ("Cannot read properties of undefined (reading '"
                            ++ key ++ "')"))
  | JsNull =>
      Thrown (error_object ("Cannot read properties of null (reading '"
                            ++ key ++ "')"))
  | JsObject fields => Returned (field key fields)
  | _ => Returned JsUndefined
  end.

(** [v.includes(needle)] for a string [needle]: a substring test on a
    string, a membership test on an array; anything else has no
    [includes]. *)
Definition includes (v : JsValue) (needle : string) : Result bool :=
  match v with
  | JsString s => Returned (Js.includes s needle)
  | JsArray items =>
      Returned (List.existsb
                  (fun x =>
                     match x with
                     | JsString t => String.eqb t needle
                     | _ => false
                     end)
                  items)
  | _ => Thrown (error_object "message.includes is not a function")
  end.

(** [v === 429] *)
Definition is_429 (v : JsValue) : bool :=
  match v with
  | JsNumber n => n =? 429
  | _ => false
  end.

(** [v === s] for a string [s] *)
Definition is_string (v : JsValue) (s : string) : bool :=
  match v with
  | JsString t => String.eqb t s
  | _ => false
  end.

(** ** The page and the network *)

(** What a toast shows: a text, the link to the explorer, or the card
    that explains a rate limit. *)
Inductive ToastBody : Type :=
| Text (text : string)
| ExplorerLink (href : JsValue)
| RateLimitCard (description additionalInfo : string).

Record Toast : Type := mkToast {
  title : string;
  description : ToastBody;
  variant : option string      (* [None]: not given *)
}.

(** A [fetch] of the client. *)
Inductive ApiCall : Type :=
| GetConfig                                        (* GET /api/config *)
| PostTransaction (body : Outcome (option string)). (* POST /api/transaction *)

(** What [response.json()] finds. *)
Inductive Parsed : Type :=
| Parses (data : JsValue)
| Malformed (reason : string).

(** What a [fetch] comes back with: a rejection, or a response. *)
Inductive FetchReply : Type :=
| Rejects (reason : string)
| Responds (status : Z) (statusText : string) (json : Parsed).

Record HttpResponse : Type := mkHttpResponse {
  status : Z;
  statusText : string;
  json : Parsed
}.

(** [response.ok] *)
Definition ok (response : HttpResponse) : bool :=
  (200 <=? status response) && (status response <=? 299).

(** The component's state, the toasts shown, the requests sent and the
    lines written to the error console, oldest first. *)
Record Page : Type := mkPage {
  address : string;
  isLoading : bool;
  requestsLimit : JsValue;
  toasts : list Toast;
  sent : list ApiCall;
  console : list (string * JsValue)
}.

Definition UI (A : Type) : Type := Page -> Result A * Page.

Definition ret {A : Type} (a : A) : UI A := fun p => (Returned a, p).

Definition throw {A : Type} (v : JsValue) : UI A := fun p => (Thrown v, p).

Definition bind {A B : Type} (m : UI A) (k : A -> UI B) : UI B :=
  fun p =>
    match m p with
    | (Returned a, p') => k a p'
    | (Thrown v, p') => (Thrown v, p')
    end.

(** [try { m } catch (error) { h error }] *)
Definition try_catch {A : Type} (m : UI A) (h : JsValue -> UI A) : UI A :=
  fun p =>
    match m p with
    | (Returned a, p') => (Returned a, p')
    | (Thrown v, p') => h v p'
    end.

(** [try { m } finally { f }], for an [f] that does not throw. *)
Definition finally {A : Type} (m : UI A) (f : Page -> Page) : UI A :=
  fun p => let (r, p') := m p in (r, f p').

Definition lift {A : Type} (r : Result A) : UI A := fun p => (r, p).

Declare Scope ui_scope.
Delimit Scope ui_scope with ui.
Notation "x <- m ;; k" := (bind m (fun x => k))
  (at level 61, m at next level, right associativity) : ui_scope.
Notation "m ;;; k" := (bind m (fun _ => k))
  (at level 61, right associativity) : ui_scope.
Local Open Scope ui_scope.

Definition setAddress (a : string) (p : Page) : Page :=
  mkPage a (isLoading p) (requestsLimit p) (toasts p) (sent p) (console p).

Definition setIsLoading (b : bool) (p : Page) : Page :=
  mkPage (address p) b (requestsLimit p) (toasts p) (sent p) (console p).

Definition setRequestsLimit (v : JsValue) (p : Page) : Page :=
  mkPage (address p) (isLoading p) v (toasts p) (sent p) (console p).

Definition update (f : Page -> Page) : UI unit := fun p => (Returned tt, f p).

Definition toast (t : Toast) : UI unit :=
  update (fun p =>
            mkPage (address p) (isLoading p) (requestsLimit p)
                   (toasts p ++ [t]) (sent p) (console p)).

Definition console_error (label : string) (v : JsValue) : UI unit :=
  update (fun p =>
            mkPage (address p) (isLoading p) (requestsLimit p) (toasts p)
                   (sent p) (console p ++ [(label, v)])).

Section Api.

(** The answer to the k-th request. *)
Variable net : nat -> FetchReply.

Definition fetch (call : ApiCall) : UI HttpResponse :=
  fun p =>
    let p' := mkPage (address p) (isLoading p) (requestsLimit p) (toasts p)
                     (sent p ++ [call]) (console p) in
    match net (List.length (sent p)) with
    | Rejects reason => (Thrown (error_object reason), p')
    | Responds st text body => (Returned (mkHttpResponse st text body), p')
    end.

(** [await response.json()] *)
Definition response_json (response : HttpResponse) : UI JsValue :=
  match json response with
  | Parses data => ret data
  | Malformed reason => throw (error_object reason)
  end.

(** ** [src/services/api.ts] *)

Definition getFaucetConfig : UI JsValue :=
  response <- fetch GetConfig ;;
  if negb (ok response) then
    throw (error_object ("Failed to fetch config: " ++ statusText response))
  else response_json response.

Definition getRequestsLimit : UI JsValue :=
  try_catch
    (config <- getFaucetConfig ;;
     limit <- lift (get config "requests_limit_per_day") ;;
     ret (or_else limit (JsNumber 3)))
    (fun error =>
       console_error "Error fetching requests limit:" error ;;;
       ret (JsNumber 3)).

Definition sendTransaction (receiver : string) : UI JsValue :=
  response <- fetch (PostTransaction
                       (JSON_stringify
                          (JsObject [("receiver", JsString receiver)]))) ;;
  data <- response_json response ;;
  (* Handle rate limit errors *)
  if status response =? 429 then
    error <- lift (get data "error") ;;
    rateLimitType <- lift (get data "rateLimitType") ;;
    throw (JsObject
             [("error", or_else error (JsString "Rate limit exceeded"));
              ("success", JsBool false);
              ("rateLimitType", rateLimitType)])
  (* Handle other errors *)
  else if negb (ok response) then
    error <- lift (get data "error") ;;
    message <- lift (get data "message") ;;
    throw (JsObject
             [("error",
               or_else error
                 (JsString ("Request failed: " ++ statusText response)));
              ("success", JsBool false);
              ("message", message)])
  else ret data.

(** ** [src/components/FaucetForm.tsx] *)

(** The effect run when the form is mounted. *)
Definition fetchRequestsLimit : UI unit :=
  try_catch
    (limit <- getRequestsLimit ;;
     update (setRequestsLimit limit))
    (fun error => console_error "Error fetching requests limit:" error).

Definition isRateLimitErrorMessage (message : JsValue) : UI bool :=
  if negb (truthy message) then ret false
  else
    a <- lift (includes message "429") ;;
    if a then ret true else
    b <- lift (includes message "Rate limit") ;;
    if b then ret true else
    c <- lift (includes message "daily limit") ;;
    if c then ret true else
    d <- lift (includes message "Too Many Requests") ;;
    if d then ret true else
    lift (includes message "per 24h").

Definition showRateLimitInfo (message : string) (rateLimitType : JsValue)
  : UI unit :=
  let title := "Daily Limit Reached" in
  let description :=
    "You've successfully used all your faucet requests for today! 🎉" in
  let additionalInfo := "Come back in 24 hours for more test tokens." in
  let '(description, additionalInfo) :=
    if is_string rateLimitType "ip" then
      ("Your network has reached today's faucet limit.",
       "Try from a different network or wait 24 hours to request more tokens.")
    else if is_string rateLimitType "address" then
      ("This wallet has reached today's faucet limit.",
       "Use a different wallet address or wait 24 hours for more tokens.")
    else if is_string rateLimitType "both" then
      ("Both your network and wallet have reached today's limit.",
       "Please wait 24 hours before requesting more test tokens.")
    else if negb (truthy rateLimitType) then
      ("You have reached your daily faucet limit.",
       "You can request more tokens in 24 hours. Try using a different network or wallet if needed.")
    else (description, additionalInfo) in
  toast (mkToast title (RateLimitCard description additionalInfo) None) ;;;
  update (setIsLoading false).

(** The [catch] clause of [handleSubmit]; [requestsLimit] is the state the
    handler was created with. *)
Definition handleSubmit_catch (requestsLimit : JsValue) (error : JsValue)
  : UI unit :=
  console_error "Transaction error:" error ;;;
  isRateLimit <-
    (rateLimitType <- lift (get error "rateLimitType") ;;
     if truthy rateLimitType then ret true else
     status <- lift (get error "status") ;;
     if is_429 status then ret true else
     message <- lift (get error "error") ;;
     if truthy message then isRateLimitErrorMessage message else ret false) ;;
  if isRateLimit then
    limit <- lift (String_of requestsLimit) ;;
    rateLimitType <- lift (get error "rateLimitType") ;;
    showRateLimitInfo
      ("You have reached the " ++ limit
       ++ " requests per day limit. Please wait until tomorrow to request more test tokens.")
      rateLimitType
  else
    toast (mkToast "Request Failed"
             (Text "Unable to process your request at the moment. Please try again later.")
             (Some "destructive")).

(** The [try] block of [handleSubmit]; [address] is the state the handler
    was created with.  Of the [txData] it builds only the transaction hash is
    used; the fields whose evaluation can throw are [blockHeight], [gasUsed]
    and [gasWanted]. *)
Definition handleSubmit_try (address : string) : UI unit :=
  rawTxResult <- sendTransaction address ;;
  missing <-
    (if negb (truthy rawTxResult) then ret true else
     transactionHash <- lift (get rawTxResult "transactionHash") ;;
     ret (negb (truthy transactionHash))) ;;
  if missing then
    error <- lift (get rawTxResult "error") ;;
    let errMsg :=
      or_else error
        (JsString "No transaction hash returned from faucet. Please try again.") in
    console_error "Transaction unexpected response:" rawTxResult ;;;
    text <- lift (String_of errMsg) ;;
    toast (mkToast "Transaction error" (Text text) (Some "destructive"))
  else
    transactionHash <- lift (get rawTxResult "transactionHash") ;;
    height <- lift (get rawTxResult "height") ;;
    lift (optional_toString height) ;;;
    gasUsed <- lift (get rawTxResult "gasUsed") ;;
    lift (optional_toString gasUsed) ;;;
    gasWanted <- lift (get rawTxResult "gasWanted") ;;
    lift (optional_toString gasWanted) ;;;
    explorerTxUrl <- lift (get rawTxResult "explorerTxUrl") ;;
    href <-
      (if truthy explorerTxUrl then ret explorerTxUrl else
       hash <- lift (String_of transactionHash) ;;
       ret (JsString
              ("https://explorer.testnet.safrochain.com/safrochain/tx/"
               ++ hash))) ;;
    toast (mkToast "Success! 🎉" (ExplorerLink href) None) ;;;
    (* Clear form on success *)
    update (setAddress EmptyString).

Definition handleSubmit : UI unit :=
  fun p =>
    let address := address p in
    let requestsLimit := requestsLimit p in
    (update (setIsLoading true) ;;;
     if negb (Js.startsWith address "addr_safro") then
       toast (mkToast "Invalid address"
                (Text "Address must start with 'addr_safro'")
                (Some "destructive")) ;;;
       update (setIsLoading false)
     else
       finally
         (try_catch (handleSubmit_try address)
                    (handleSubmit_catch requestsLimit))
         (setIsLoading false)) p.

End Api.

End Client.
(** * Vocabulary of the statements *)

(** The sequence seen by the k-th external call, when it is an account read
    that answers. *)
Definition seen (env : Env) (k : nat) : Z :=
  match account_reply env k with
  | RpcOk a => sequence_of a
  | RpcError _ => 0
  end.

Definition answers (env : Env) (k : nat) : Prop :=
  exists a, account_reply env k = RpcOk a.

(** An upper bound on the time that [d] reads starting with call [c] can
    take: each has its latency and is followed by a pause of at most one
    second. *)
Fixpoint spent (env : Env) (c d : nat) : Z :=
  match d with
  | O => 0
  | S d' => spent env c d' + Z.of_N (latency env (c + d')) + 1000
  end.

(** Classes of external calls. *)
Definition is_insert (ev : Event) : bool :=
  match ev with
  | EvInsert _ => true
  | _ => false
  end.

Definition is_connect (ev : Event) : bool :=
  match ev with
  | EvConnect _ => true
  | _ => false
  end.

Definition is_broadcast (ev : Event) : bool :=
  match ev with
  | EvBroadcast _ _ _ _ => true
  | _ => false
  end.

(** Calls to the chain node. *)
Definition is_chain (ev : Event) : bool :=
  match ev with
  | EvConnect _ | EvGetAccount _ | EvBroadcast _ _ _ _ | EvChainId
  | EvBalances _ => true
  | _ => false
  end.

Definition count_events (f : Event -> bool) (evs : list Event) : nat :=
  List.length (List.filter f evs).

(** [m], run from [w], ends (it does not use up a polling budget), makes
    only external calls in [P], and adds to the audit table at most one row
    per insert call. *)
Definition tame_at {A : Type} (P : Event -> Prop) (m : M A) (w : World)
  : Prop :=
  fst (m w) <> Diverge
  /\ exists evs rows,
       trace (snd (m w)) = (trace w ++ evs)%list
       /\ Forall P evs
       /\ store (snd (m w)) = (store w ++ rows)%list
       /\ (List.length rows <= count_events is_insert evs)%nat.

Definition tame {A : Type} (P : Event -> Prop) (m : M A) : Prop :=
  forall w, tame_at P m w.

(** The external calls and log lines of the dispatcher. *)
Definition dispatch_event (ev : Event) : bool :=
  match ev with
  | EvFetchConfig | EvConsoleError _ _ => true
  | _ => is_chain ev
  end.

Definition is_account_read (ev : Event) : bool :=
  match ev with
  | EvGetAccount _ => true
  | _ => false
  end.

(** The error most recently caught by the retry loop, as it logged it. *)
Fixpoint last_tx_error (evs : list Event) : option string :=
  match evs with
  | [] => None
  | ev :: rest =>
      match last_tx_error rest with
      | Some detail => Some detail
      | None =>
          match ev with
          | EvConsoleError label detail =>
              if String.eqb label "Raw transaction error response:"
              then Some detail
              else None
          | _ => None
          end
      end
  end.

Definition last_or (default : string) (evs : list Event) : string :=
  match last_tx_error evs with
  | Some detail => detail
  | None => default
  end.

(** Reads of the config table, the audit table and the geolocation
    service. *)
Definition lookup_event (ev : Event) : bool :=
  match ev with
  | EvFetchConfig | EvCountByIp _ _ | EvCountByAddress _ _ | EvRegion _ => true
  | _ => false
  end.

(** The handler, run from [w], answers with a status in [ok], having made
    only external calls in [P]. *)
Definition settles_at (ok : Z -> Prop) (P : Event -> Prop) (m : M Response)
    (w : World) : Prop :=
  exists r w' evs,
    m w = (Done r, w')
    /\ ok (status r)
    /\ trace w' = (trace w ++ evs)%list
    /\ Forall P evs.

(** The handler, run from [w], answers after exactly one insert call, which
    appended exactly one row; unless the answer is 200 that row is a failed
    attempt. *)
Definition audits_at (m : M Response) (w : World) : Prop :=
  exists r w' evs a,
    m w = (Done r, w')
    /\ trace w' = (trace w ++ evs)%list
    /\ count_events is_insert evs = 1%nat
    /\ store w' = (store w ++ [a])%list
    /\ (status r <> 200 -> success (row a) = false).

(** The request leaves [serve] through the "IP address could not be
    determined" exit: the body and the config were read, and no header gave
    an address. *)
Definition rejected_without_ip (env : Env) (req : Request) (w : World) : Prop :=
  Js.truthy (requester_ip req) = false
  /\ (exists receiver, body req = BodyJson receiver)
  /\ Js.truthy (service_role_key env) = true
  /\ exists cfg rest, config_reply env (calls w) = ConfigRows (cfg :: rest).

(** The handler, run from [w], answers, and unless the answer is 200 every
    row it appended is a failed attempt. *)
Definition harmless_at (m : M Response) (w : World) : Prop :=
  exists r w' rows,
    m w = (Done r, w')
    /\ store w' = (store w ++ rows)%list
    /\ (status r <> 200 -> Forall (fun a => success (row a) = false) rows).

(** A response that denies for rate-limit reason [kind]. *)
Definition rate_limited (kind : string) (r : Response) : Prop :=
  status r = 429
  /\ exists msg,
       JSON_stringify
         (JsObject [("error", JsString msg);
                    ("success", JsBool false);
                    ("rateLimitType", JsString kind)])
       = Done (response_body r).

(** A count query that fails without throwing. *)
Definition count_fails (reply : CountReply) : Prop :=
  reply = CountNotOk \/ reply = CountNotArray.

(** ** Sample configurations and oracles *)

Definition example_config : FaucetConfig :=
  mkFaucetConfig
    "abandon ability able about above absent absorb abstract absurd abuse access accident"
    "rpc.example.org" "usaf" "250000000" "addr_safro" "faucet" None 3.

(** A deployment whose services all answer at once; the chain node's
    account reads and broadcasts and the audit table's count queries are
    left open. *)
Definition example_env (accounts : nat -> Rpc (option Z))
    (broadcasts : nat -> Rpc TxResult) (counts : nat -> CountReply) : Env :=
  mkEnv (fun _ => 0%N) "service-key"
        (fun _ => ConfigRows [example_config])
        counts
        (fun _ => InsertOk)
        (fun _ => RegionFail)
        (fun _ => true)
        (fun _ _ => RpcOk "addr_safro1faucet")
        (fun _ => RpcOk tt)
        accounts
        broadcasts
        (fun _ => RpcOk "safro-testnet-1")
        (fun _ => RpcOk []).

(** The sequence reads 3, 4 and then 7 for good. *)
Definition settling_accounts (k : nat) : Rpc (option Z) :=
  RpcOk (Some (if (k <? 2)%nat then Z.of_nat k + 3 else 7)).

(** The sequence moves on with every read. *)
Definition restless_accounts (k : nat) : Rpc (option Z) :=
  RpcOk (Some (Z.of_nat k)).

Definition steady_accounts (k : nat) : Rpc (option Z) := RpcOk (Some 7).

(** Five reads of 7, then 8 for good. *)
Definition bumped_accounts (k : nat) : Rpc (option Z) :=
  RpcOk (Some (if (k <? 5)%nat then 7 else 8)).

Definition refused (k : nat) : Rpc TxResult :=
  RpcError (Error "account sequence mismatch, expected 8, got 7").

Definition accepted (k : nat) : Rpc TxResult :=
  RpcOk (mkTxResult "A1B2C3" 1024 61234 200000).

Definition table_answers (k : nat) : CountReply := CountRows.

Definition table_down (k : nat) : CountReply := CountNotOk.

Definition example_request (ip : option string) (receiver : string)
  : Request :=
  mkRequest "POST" ip None (Some "curl/8.0") (BodyJson (Some receiver)).

Definition world_with (rows : list AuditRow) : World :=
  mkWorld 1700000000000 0 [] rows.

(** A payout made some hours before [world_with]'s clock. *)
Definition earlier_payout (ip address : string) : AuditRow :=
  mkAuditRow (mkUserRequest ip None None (Some address) true (Some "F00D"))
             1699990000000.

(** The node refuses the first two broadcasts of a dispatch that starts at
    call 0 against a quiescent account (they are calls 9 and 18) and accepts
    the third (call 27). *)
Definition third_time_lucky (k : nat) : Rpc TxResult :=
  if (k <? 27)%nat then refused k
  else RpcOk (mkTxResult "C0FFEE" 2048 60000 200000).


(** ** Further vocabulary *)

(** The chain calls that follow a broadcast: account reads, the chain id
    and balances. *)
Definition is_report_read (ev : Event) : bool :=
  match ev with
  | EvGetAccount _ | EvChainId | EvBalances _ => true
  | _ => false
  end.

(** What a broadcast made by [sendTokens receiver], started in [w], looks
    like: it pays [receiver], from the address derived from the configured
    mnemonic, the one configured coin, with the configured memo. *)
Definition pays_as_configured (env : Env) (w : World) (receiver : string)
    (ev : Event) : Prop :=
  match ev with
  | EvBroadcast from to coins memo =>
      to = receiver
      /\ exists cfg rest,
           config_reply env (calls w) = ConfigRows (cfg :: rest)
           /\ fromMnemonic env (mnemonic cfg) (prefix cfg) = RpcOk from
           /\ coins = [mkCoin (cfg_denom cfg) (cfg_amount cfg)]
           /\ memo = cfg_memo cfg
  | _ => True
  end.

(** The URL a client of [sendTokens], started in [w], is opened on: the
    configured endpoint, with [https://] in front unless it names a
    protocol. *)
Definition connects_as_configured (env : Env) (w : World) (ev : Event)
  : Prop :=
  match ev with
  | EvConnect endpoint =>
      exists cfg rest,
        config_reply env (calls w) = ConfigRows (cfg :: rest)
        /\ endpoint
           = (if Js.startsWith (rpc_endpoint cfg) "http://"
                 || Js.startsWith (rpc_endpoint cfg) "https://"
              then rpc_endpoint cfg
              else "https://" ++ rpc_endpoint cfg)
  | _ => True
  end.

(** [m], run from [w], ends, and the external calls [evs] it made together
    with its outcome satisfy [Q]. *)
Definition runs_with {A : Type} (Q : list Event -> Outcome A -> Prop)
    (m : M A) (w : World) : Prop :=
  fst (m w) <> Diverge
  /\ exists evs,
       trace (snd (m w)) = (trace w ++ evs)%list /\ Q evs (fst (m w)).

(** One pass of the retry loop, whose broadcast is [b]: it reads the chain,
    broadcasts at most once, and returns a result only after a broadcast. *)
Definition attempt_post (b : Event) (receiver : string) (evs : list Event)
    (o : Outcome ProcessedResult) : Prop :=
  Forall (fun ev => is_report_read ev = true \/ ev = b) evs
  /\ (count_events is_broadcast evs <= 1)%nat
  /\ (forall r, o = Done r ->
        count_events is_broadcast evs = 1%nat
        /\ pr_success r = true
        /\ pr_receiverAddress r = receiver).

(** The retry loop with [retries] passes left. *)
Definition dispatch_post (b c : Event) (receiver : string) (retries : nat)
    (evs : list Event) (o : Outcome ProcessedResult) : Prop :=
  (count_events is_connect evs <= retries)%nat
  /\ (count_events is_broadcast evs <= count_events is_connect evs)%nat
  /\ Forall (fun ev => is_broadcast ev = true -> ev = b) evs
  /\ Forall (fun ev => is_connect ev = true -> ev = c) evs
  /\ (forall r, o = Done r ->
        (1 <= count_events is_broadcast evs)%nat
        /\ pr_success r = true
        /\ pr_receiverAddress r = receiver).

(** What [sendTokens receiver], started in [w], does: it opens at most five
    clients and broadcasts at most once per client, always the configured
    payment to [receiver]; it returns a result only after a broadcast. *)
Definition sendTokens_post (env : Env) (w : World) (receiver : string)
    (evs : list Event) (o : Outcome ProcessedResult) : Prop :=
  (count_events is_connect evs <= 5)%nat
  /\ (count_events is_broadcast evs <= count_events is_connect evs)%nat
  /\ Forall (pays_as_configured env w receiver) evs
  /\ Forall (connects_as_configured env w) evs
  /\ (forall r, o = Done r ->
        (1 <= count_events is_broadcast evs)%nat
        /\ pr_success r = true
        /\ pr_receiverAddress r = receiver).

(** Every broadcast pays an address in [dest]. *)
Definition pays_only (dest : string -> Prop) (ev : Event) : Prop :=
  match ev with
  | EvBroadcast _ to _ _ => dest to
  | _ => True
  end.

(** A record of a successful payout is handed to the audit table. *)
Definition logs_success (ev : Event) : Prop :=
  exists r, ev = EvInsert r /\ success r = true.

(** The request gets as far as the dispatcher: it has a body with a
    [receiver], the config can be read, the requester's address is known,
    both counts can be taken and are below the limit, and the receiver is a
    non-empty string that starts with the configured prefix. *)
Definition passes_checks (env : Env) (req : Request) (w : World) : Prop :=
  exists cfg receiver ipCount addrCount w1 w2 w3,
    String.eqb (method req) "OPTIONS" = false
    /\ body req = BodyJson (Some receiver)
    /\ fetchFaucetConfig env w = (Done cfg, w1)
    /\ Js.truthy (requester_ip req) = true
    /\ getRequestCountByIp env (requester_ip req)
         (now w1 - 24 * 60 * 60 * 1000) w1 = (Done ipCount, w2)
    /\ getRequestCountByAddress env receiver
         (now w1 - 24 * 60 * 60 * 1000) w2 = (Done addrCount, w3)
    /\ ipCount < requests_limit cfg
    /\ addrCount < requests_limit cfg
    /\ Js.truthy receiver = true
    /\ Js.startsWith receiver (prefix cfg) = true.

(** What the handler does with a request other than a preflight: it answers
    200, 400, 429 or 500; 200 only after a broadcast and after handing a
    success record to the audit table; it broadcasts at most five times, only
    to addresses in [dest]; and it calls the chain node only if [A]. *)
Definition handler_post (dest : string -> Prop) (A : Prop)
    (evs : list Event) (o : Outcome Response) : Prop :=
  exists r,
    o = Done r
    /\ (status r = 200 \/ status r = 400 \/ status r = 429 \/ status r = 500)
    /\ (status r = 200 ->
        (1 <= count_events is_broadcast evs)%nat /\ Exists logs_success evs)
    /\ (count_events is_broadcast evs <= 5)%nat
    /\ Forall (pays_only dest) evs
    /\ (Exists (fun ev => is_chain ev = true) evs -> A).

(** The character [c] does not occur in [s]. *)
Fixpoint lacks (c : ascii) (s : string) : bool :=
  match s with
  | EmptyString => true
  | String d rest => negb (Ascii.eqb d c) && lacks c rest
  end.

(** The calls 0 to 6 see 7, the later ones 8: for a dispatch that opens its
    client with call 0, the account moves right after the stabilizer has
    confirmed 7. *)
Definition late_bump_accounts (k : nat) : Rpc (option Z) :=
  RpcOk (Some (if (k <? 7)%nat then 7 else 8)).

(** A deployment like [example_env] whose node accepts every broadcast but
    never tells its chain id. *)
Definition mute_chain_env : Env :=
  mkEnv (fun _ => 0%N) "service-key"
        (fun _ => ConfigRows [example_config])
        table_answers
        (fun _ => InsertOk)
        (fun _ => RegionFail)
        (fun _ => true)
        (fun _ _ => RpcOk "addr_safro1faucet")
        (fun _ => RpcOk tt)
        steady_accounts
        accepted
        (fun _ => RpcError (Error "chain id unavailable"))
        (fun _ => RpcOk []).

(** A config row without a denomination. *)
Definition config_without_denom : FaucetConfig :=
  mkFaucetConfig (mnemonic example_config) "rpc.example.org" EmptyString
    "250000000" "addr_safro" "faucet" None 3.

Definition env_without_denom : Env :=
  mkEnv (fun _ => 0%N) "service-key"
        (fun _ => ConfigRows [config_without_denom])
        table_answers
        (fun _ => InsertOk)
        (fun _ => RegionFail)
        (fun _ => true)
        (fun _ _ => RpcOk "addr_safro1faucet")
        (fun _ => RpcOk tt)
        steady_accounts
        accepted
        (fun _ => RpcOk "safro-testnet-1")
        (fun _ => RpcOk []).

(** ** Vocabulary for the web client *)

(** The page with one more request sent. *)
Definition page_after_call (p : Client.Page) (call : Client.ApiCall)
  : Client.Page :=
  Client.mkPage (Client.address p) (Client.isLoading p)
                (Client.requestsLimit p) (Client.toasts p)
                (Client.sent p ++ [call]) (Client.console p).

(** The request [sendTransaction receiver] makes. *)
Definition transaction_call (receiver : string) : Client.ApiCall :=
  Client.PostTransaction
    (JSON_stringify (JsObject [("receiver", JsString receiver)])).

(** [p'] differs from [p] at most in toasts other than the success toast,
    in lines on the console and in the spinner. *)
Definition page_quiet (p p' : Client.Page) : Prop :=
  Client.sent p' = Client.sent p
  /\ Client.address p' = Client.address p
  /\ Client.requestsLimit p' = Client.requestsLimit p
  /\ exists ts,
       Client.toasts p' = (Client.toasts p ++ ts)%list
       /\ Forall (fun t => Client.title t <> "Success! 🎉") ts.

(** [m] changes the page within [R]. *)
Definition ui_keeps {A : Type} (R : Client.Page -> Client.Page -> Prop)
    (m : Client.UI A) : Prop :=
  forall p, R p (snd (m p)).

(** [v?.toString()] does not throw. *)
Definition renders (v : JsValue) : bool :=
  match Client.optional_toString v with
  | Client.Returned _ => true
  | Client.Thrown _ => false
  end.

(** The body of a paid request as the form can show it: an object with a
    truthy [transactionHash] whose [height], [gasUsed] and [gasWanted] can be
    rendered and which either brings its [explorerTxUrl] or has a hash that
    can be put into one. *)
Definition shows_payment (fields : list (string * JsValue)) : bool :=
  Client.truthy (Client.field "transactionHash" fields)
  && renders (Client.field "height" fields)
  && renders (Client.field "gasUsed" fields)
  && renders (Client.field "gasWanted" fields)
  && (Client.truthy (Client.field "explorerTxUrl" fields)
      || match Client.String_of (Client.field "transactionHash" fields) with
         | Client.Returned _ => true
         | Client.Thrown _ => false
         end).

(** The server has paid and said so: a response with a status from 200 to
    299 whose body is such an object. *)
Definition delivered (reply : Client.FetchReply) : bool :=
  match reply with
  | Client.Responds st _ (Client.Parses (JsObject fields)) =>
      (200 <=? st) && (st <=? 299) && shows_payment fields
  | _ => false
  end.

(** One of the phrases by which the form recognizes a rate-limit message. *)
Definition rate_limit_phrase (message : string) : bool :=
  Js.includes message "429"
  || Js.includes message "Rate limit"
  || Js.includes message "daily limit"
  || Js.includes message "Too Many Requests"
  || Js.includes message "per 24h".

(** Sample pages and servers. *)
Definition fresh_page (address : string) : Client.Page :=
  Client.mkPage address false (JsNumber 3) [] [] [].

Definition server_says (st : Z) (text : string) (data : JsValue) (k : nat)
  : Client.FetchReply :=
  Client.Responds st text (Client.Parses data).

Definition server_down (k : nat) : Client.FetchReply :=
  Client.Rejects "Failed to fetch".

(** ** Vocabulary for what the answer does not depend on *)

(** [env] with other answers from the audit table's inserts and from the
    geolocation service. *)
Definition with_sidelines (env : Env) (inserts : nat -> InsertReply)
    (regions : nat -> RegionReply) : Env :=
  mkEnv (latency env) (service_role_key env) (config_reply env)
        (count_reply env) inserts regions (validateMnemonic env)
        (fromMnemonic env) (connect_reply env) (account_reply env)
        (broadcast_reply env) (chainId_reply env) (balances_reply env).

Definition with_regions (env : Env) (regions : nat -> RegionReply) : Env :=
  with_sidelines env (insert_reply env) regions.

Definition with_inserts (env : Env) (inserts : nat -> InsertReply) : Env :=
  with_sidelines env inserts (region_reply env).

(** An insert that does not throw: the table takes the row or answers with
    an error status. *)
Definition insert_answers (reply : InsertReply) : Prop :=
  forall e, reply <> InsertThrows e.

(** Two answers to an insert after which the handler goes on alike. *)
Definition insert_alike (a b : InsertReply) : Prop :=
  a = b \/ (insert_answers a /\ insert_answers b).

(** ** Vocabulary for the requester's address *)

(** Nothing but white space. *)
Fixpoint all_space (s : string) : bool :=
  match s with
  | EmptyString => true
  | String c rest => Js.is_space c && all_space rest
  end.

(** [req] with another [x-forwarded-for] header. *)
Definition with_forwarded (req : Request) (h : string) : Request :=
  mkRequest (method req) (Some h) (x_real_ip req) (header_user_agent req)
            (body req).

(** * Properties *)

(** ** Running the monad *)

Section Running.

Context {A B : Type}.

Lemma bind_done (m : M A) (k : A -> M B) w a w' :
  m w = (Done a, w') -> bind m k w = k a w'.
Proof. unfold bind. now intros ->. Qed.

Lemma bind_raise (m : M A) (k : A -> M B) w e w' :
  m w = (Raise e, w') -> bind m k w = (Raise e, w').
Proof. unfold bind. now intros ->. Qed.

Lemma guarded_done (m : M A) (h : JsError -> M B) (k : A -> M B) w a w' :
  m w = (Done a, w') -> guarded m h k w = k a w'.
Proof. unfold guarded. now intros ->. Qed.

Lemma guarded_raise (m : M A) (h : JsError -> M B) (k : A -> M B) w e w' :
  m w = (Raise e, w') -> guarded m h k w = h e w'.
Proof. unfold guarded. now intros ->. Qed.

Lemma try_catch_done (m : M A) (h : JsError -> M A) w a w' :
  m w = (Done a, w') -> try_catch m h w = (Done a, w').
Proof. unfold try_catch. now intros ->. Qed.

Lemma try_catch_raise (m : M A) (h : JsError -> M A) w e w' :
  m w = (Raise e, w') -> try_catch m h w = h e w'.
Proof. unfold try_catch. now intros ->. Qed.

End Running.

Lemma bind_setTimeout {B : Type} ms (k : unit -> M B) w :
  bind (setTimeout ms) k w = k tt (later w ms).
Proof. reflexivity. Qed.

(** The world after a line on the error console. *)
Lemma bind_console_error {B : Type} label detail (k : unit -> M B) w :
  bind (console_error label detail) k w
  = k tt (mkWorld (now w) (calls w)
                  (trace w ++ [EvConsoleError label detail]) (store w)).
Proof. reflexivity. Qed.

Lemma rpc_call_ok {A : Type} env ev (reply : nat -> Rpc A) w a :
  reply (calls w) = RpcOk a ->
  rpc_call env ev reply w = (Done a, after_call env w ev).
Proof. unfold rpc_call, bind, external, lift. now intros ->. Qed.

Lemma rpc_call_error {A : Type} env ev (reply : nat -> Rpc A) w e :
  reply (calls w) = RpcError e ->
  rpc_call env ev reply w = (Raise e, after_call env w ev).
Proof. unfold rpc_call, bind, external, lift. now intros ->. Qed.

Lemma count_events_app f (l1 l2 : list Event) :
  count_events f (l1 ++ l2) = (count_events f l1 + count_events f l2)%nat.
Proof. unfold count_events. now rewrite List.filter_app, List.length_app. Qed.

Lemma count_events_none f g (evs : list Event) :
  (forall ev, g ev = true -> f ev = false) ->
  Forall (fun ev => g ev = true) evs ->
  count_events f evs = 0%nat.
Proof.
  intros Hfg. unfold count_events. induction 1 as [|ev evs Hev _ IH]; simpl.
  - reflexivity.
  - now rewrite (Hfg ev Hev).
Qed.

Lemma last_tx_error_app (l1 l2 : list Event) :
  last_tx_error (l1 ++ l2)
  = match last_tx_error l2 with
    | Some detail => Some detail
    | None => last_tx_error l1
    end.
Proof.
  induction l1 as [|ev l1 IH]; simpl.
  - now destruct (last_tx_error l2).
  - rewrite IH. now destruct (last_tx_error l2).
Qed.

Lemma last_tx_error_none g (evs : list Event) :
  (forall ev, g ev = true -> forall l d, ev <> EvConsoleError l d) ->
  Forall (fun ev => g ev = true) evs ->
  last_tx_error evs = None.
Proof.
  intros Hg. induction 1 as [|ev evs Hev _ IH]; simpl; [reflexivity|].
  rewrite IH. destruct ev; try reflexivity.
  exfalso. now apply (Hg _ Hev label detail).
Qed.

Lemma last_or_app default (l1 l2 : list Event) :
  last_or default (l1 ++ l2) = last_or (last_or default l1) l2.
Proof.
  unfold last_or. rewrite last_tx_error_app. now destruct (last_tx_error l2).
Qed.
(** ** Sequence stabilizer *)

Section Stabilizer.

Variable env : Env.
Variable address : string.

Lemma spent_nonneg c d : 0 <= spent env c d.
Proof. induction d; simpl; lia. Qed.

Lemma spent_mono c d e : (d <= e)%nat -> spent env c d <= spent env c e.
Proof.
  induction 1; [lia|]. simpl. pose proof (spent_nonneg c m). lia.
Qed.

Lemma getAccount_eq a w :
  getAccount env a w
  = (of_rpc (account_reply env (calls w)), after_call env w (EvGetAccount a)).
Proof. reflexivity. Qed.

Lemma getAccount_ok a w x :
  account_reply env (calls w) = RpcOk x ->
  getAccount env a w = (Done x, after_call env w (EvGetAccount a)).
Proof. intros H. rewrite getAccount_eq, H. reflexivity. Qed.

Lemma seen_ok k x : account_reply env k = RpcOk x -> seen env k = sequence_of x.
Proof. unfold seen. now intros ->. Qed.

(** One pass of the loop, case by case. *)

Lemma stable_pass_timeout fuel start maxWait last count w :
  maxWait <= now w - start ->
  waitForSequenceStable_loop env (S fuel) address start maxWait last count w
  = (Done last, w).
Proof.
  intros H. simpl. unfold bind, Date_now, ret.
  destruct (Z.ltb_spec (now w - start) maxWait); [lia|reflexivity].
Qed.

Lemma stable_pass_changed fuel start maxWait last count w x :
  now w - start < maxWait ->
  account_reply env (calls w) = RpcOk x ->
  sequence_of x <> last ->
  waitForSequenceStable_loop env (S fuel) address start maxWait last count w
  = waitForSequenceStable_loop env fuel address start maxWait
      (sequence_of x) 1
      (later (after_call env w (EvGetAccount address)) 800).
Proof.
  intros Ht Hx Hne. simpl. unfold bind at 1. unfold Date_now.
  destruct (Z.ltb_spec (now w - start) maxWait); [|lia].
  unfold bind at 1. rewrite (getAccount_ok _ _ _ Hx).
  destruct (Z.eqb_spec (sequence_of x) last); [contradiction|].
  reflexivity.
Qed.

Lemma stable_pass_same fuel start maxWait last count w x :
  now w - start < maxWait ->
  account_reply env (calls w) = RpcOk x ->
  sequence_of x = last ->
  count + 1 < requiredStableChecks ->
  waitForSequenceStable_loop env (S fuel) address start maxWait last count w
  = waitForSequenceStable_loop env fuel address start maxWait
      last (count + 1)
      (later (after_call env w (EvGetAccount address)) 800).
Proof.
  intros Ht Hx He Hc. simpl. unfold bind at 1. unfold Date_now.
  destruct (Z.ltb_spec (now w - start) maxWait); [|lia].
  unfold bind at 1. rewrite (getAccount_ok _ _ _ Hx).
  destruct (Z.eqb_spec (sequence_of x) last); [|contradiction].
  destruct (Z.geb_spec (count + 1) requiredStableChecks); [lia|].
  reflexivity.
Qed.

Lemma stable_pass_confirm fuel start maxWait last count w x y :
  now w - start < maxWait ->
  account_reply env (calls w) = RpcOk x ->
  sequence_of x = last ->
  requiredStableChecks <= count + 1 ->
  account_reply env (S (calls w)) = RpcOk y ->
  let w2 := after_call env
              (later (after_call env w (EvGetAccount address)) 1000)
              (EvGetAccount address) in
  waitForSequenceStable_loop env (S fuel) address start maxWait last count w
  = if sequence_of y =? last
    then (Done (sequence_of y), w2)
    else waitForSequenceStable_loop env fuel address start maxWait
           (sequence_of y) 1 w2.
Proof.
  intros Ht Hx He Hc Hy w2. simpl. unfold bind at 1. unfold Date_now.
  destruct (Z.ltb_spec (now w - start) maxWait); [|lia].
  unfold bind at 1. rewrite (getAccount_ok _ _ _ Hx).
  destruct (Z.eqb_spec (sequence_of x) last); [|contradiction].
  destruct (Z.geb_spec (count + 1) requiredStableChecks); [|lia].
  unfold bind at 1. unfold setTimeout.
  unfold bind at 1. rewrite getAccount_ok with (x := y) by exact Hy.
  rewrite e. fold w2.
  destruct (Z.eqb_spec (sequence_of y) last); reflexivity.
Qed.

Lemma passes_enough maxWait step :
  0 < step ->
  maxWait <= step * (Z.of_nat (passes maxWait step) - 1).
Proof.
  intros Hs. unfold passes.
  destruct (Z_lt_le_dec maxWait 0) as [Hneg|Hpos].
  - assert (0 <= Z.of_nat (Z.to_nat (maxWait / step))) by lia. nia.
  - pose proof (Z.mul_succ_div_gt maxWait step Hs).
    assert (0 <= maxWait / step) by (apply Z.div_pos; lia).
    rewrite Nat2Z.inj_add, Z2Nat.id by assumption. lia.
Qed.

(** *** A value that holds through five polls and the confirmation read *)

Section Window.

Variables (start maxWait : Z) (c0 j : nat) (v : Z).

Hypothesis Hans : forall k, (k <= j)%nat -> answers env (c0 + k).
Hypothesis Hj : (5 <= j)%nat.
Hypothesis Hwin :
  forall k, (j - 5 <= k <= j)%nat -> seen env (c0 + k) = v.
Hypothesis Hfirst :
  forall j', (5 <= j' < j)%nat ->
    ~ (forall k, (j' - 5 <= k <= j')%nat ->
         seen env (c0 + k) = seen env (c0 + j')).
Hypothesis Htime : spent env c0 (j - 1) < maxWait.

(** The loop invariant: [d] reads have been made, the last [count] of
    them saw [last], and the run that ends the window has not been
    entered further than [count] accounts for. *)
Lemma stable_loop_window :
  forall fuel w last count d,
    calls w = (c0 + d)%nat ->
    0 <= count <= 4 ->
    Z.of_nat d + 5 <= Z.of_nat j + count ->
    count <= Z.of_nat d ->
    (forall i, (1 <= i)%nat -> Z.of_nat i <= count ->
       seen env (c0 + (d - i)) = last) ->
    now w - start <= spent env c0 d ->
    (1 <= fuel)%nat ->
    maxWait - (now w - start) <= 800 * (Z.of_nat fuel - 1) ->
    fst (waitForSequenceStable_loop env fuel address start maxWait
           last count w) = Done v.
Proof.
  induction fuel as [|fuel IH];
    intros w last count d Hc Hcount Hin Hcd Hrun Hnow Hfuel Hleft; [lia|].
  assert (Hd : (d <= j - 1)%nat) by lia.
  assert (Hlt : now w - start < maxWait).
  { pose proof (spent_mono c0 d (j - 1) Hd). lia. }
  destruct (Hans d) as [x Hx]; [lia|].
  assert (Hsx : seen env (c0 + d) = sequence_of x) by (now apply seen_ok).
  rewrite <- Hc in Hx.
  assert (Hlat : 0 <= Z.of_N (latency env (calls w))) by lia.
  destruct (Z.eq_dec (sequence_of x) last) as [He|Hne].
  - destruct (Z_lt_le_dec (count + 1) requiredStableChecks) as [Hlow|Hhigh].
    + rewrite stable_pass_same with (x := x) by assumption.
      apply IH with (d := S d);
        cbn [calls now later after_call spent];
        unfold requiredStableChecks in *;
        rewrite ?Hc; try lia.
      intros i Hi1 Hi2. destruct (Nat.eq_dec i 1) as [->|Hi].
      * replace (S d - 1)%nat with d by lia. congruence.
      * replace (S d - i)%nat with (d - (i - 1))%nat by lia.
        apply Hrun; lia.
    + unfold requiredStableChecks in Hhigh.
      destruct (Hans (S d)) as [y Hy]; [lia|].
      assert (Hsy : seen env (c0 + S d) = sequence_of y)
        by (now apply seen_ok).
      replace (c0 + S d)%nat with (S (calls w)) in Hy by lia.
      rewrite (stable_pass_confirm fuel start maxWait last count w x y)
        by (unfold requiredStableChecks; assumption).
      destruct (Z.eqb_spec (sequence_of y) last) as [Hy1|Hy1].
      * simpl. f_equal.
        assert (Hrun' : forall k, (S d - 5 <= k <= S d)%nat ->
                   seen env (c0 + k) = seen env (c0 + S d)).
        { intros k Hk. rewrite Hsy, Hy1.
          destruct (Nat.eq_dec k (S d)) as [->|Hk1]; [congruence|].
          destruct (Nat.eq_dec k d) as [->|Hk2]; [congruence|].
          replace k with (d - (d - k))%nat by lia. apply Hrun; lia. }
        destruct (Nat.eq_dec (S d) j) as [Hjd|Hjd].
        -- rewrite <- Hsy. apply Hwin. lia.
        -- exfalso. apply (Hfirst (S d)); [lia|exact Hrun'].
      * assert (Hfar : (d + 6 <= j)%nat).
        { destruct (le_lt_dec (d + 6) j) as [|Hnear]; [assumption|].
          exfalso. apply Hy1.
          rewrite <- Hsy, <- He, <- Hsx.
          rewrite (Hwin d), (Hwin (S d)) by lia. reflexivity. }
        apply IH with (d := S (S d));
          cbn [calls now later after_call spent]; rewrite ?Hc; try lia.
        -- intros i Hi1 Hi2. replace i with 1%nat by lia.
           replace (S (S d) - 1)%nat with (S d) by lia. exact Hsy.
        -- pose proof (N2Z.is_nonneg (latency env (c0 + S d))).
           replace (c0 + S d)%nat with (S (c0 + d)) by lia. lia.
  - rewrite stable_pass_changed with (x := x) by assumption.
    assert (Hfar : (d + 5 <= j)%nat).
    { destruct (Z.eq_dec count 0) as [Hz|Hz]; [lia|].
      destruct (le_lt_dec (d + 5) j) as [|Hnear]; [assumption|].
      exfalso. apply Hne.
      rewrite <- (Hrun 1%nat) by lia. rewrite <- Hsx.
      rewrite (Hwin d), (Hwin (d - 1)%nat) by lia. reflexivity. }
    apply IH with (d := S d);
      cbn [calls now later after_call spent]; rewrite ?Hc; try lia.
    intros i Hi1 Hi2. replace i with 1%nat by lia.
    replace (S d - 1)%nat with d by lia. exact Hsx.
Qed.

End Window.

(** *** A value that changes on every read *)

Lemma stable_loop_changing start maxWait c0 :
  (forall k, answers env (c0 + k)) ->
  (forall k, seen env (c0 + k) <> seen env (c0 + S k)) ->
  forall fuel w d,
    calls w = (c0 + S d)%nat ->
    start <= now w ->
    (1 <= fuel)%nat ->
    maxWait - (now w - start) <= 800 * (Z.of_nat fuel - 1) ->
    exists n w',
      waitForSequenceStable_loop env fuel address start maxWait
        (seen env (c0 + d)) 1 w = (Done (seen env (c0 + n)), w')
      /\ calls w' = (c0 + S n)%nat
      /\ maxWait <= now w' - start.
Proof.
  intros Hans Hchg.
  induction fuel as [|fuel IH]; intros w d Hc Hst Hfuel Hleft; [lia|].
  destruct (Z_lt_le_dec (now w - start) maxWait) as [Hlt|Hge].
  - destruct (Hans (S d)) as [x Hx].
    assert (Hsx : seen env (c0 + S d) = sequence_of x) by (now apply seen_ok).
    rewrite <- Hc in Hx.
    rewrite stable_pass_changed with (x := x); try assumption.
    + rewrite <- Hsx.
      apply IH; cbn [calls now later after_call]; rewrite ?Hc; lia.
    + rewrite <- Hsx. intros E. apply (Hchg d). congruence.
  - rewrite stable_pass_timeout by assumption.
    exists d, w. auto.
Qed.

End Stabilizer.

(** ** JSON serialization *)

Section JsonFacts.

Lemma parseInteger_toString (n : Z) : Js.parseInteger (Js.toString n) = Some n.
Proof.
  unfold Js.parseInteger, Js.toString.
  rewrite NilZero.isi.
  - simpl. now rewrite DecimalZ.of_to.
  - destruct n; simpl; try discriminate.
    intros E. injection E. apply Unsigned.to_uint_nonnil.
  - destruct n; simpl; try discriminate.
    intros E. injection E. apply Unsigned.to_uint_nonnil.
Qed.

Lemma depth_item (x : JsValue) (items : list JsValue) :
  In x items -> (Json.depth x <= list_max (List.map Json.depth items))%nat.
Proof.
  intros Hin.
  pose proof (proj1 (list_max_le (List.map Json.depth items) _) (le_n _)) as H.
  rewrite Forall_forall in H. apply H. now apply in_map.
Qed.

Lemma depth_field (kv : string * JsValue) (fields : list (string * JsValue)) :
  In kv fields ->
  (Json.depth (snd kv)
   <= list_max (List.map (fun kv => Json.depth (snd kv)) fields))%nat.
Proof.
  intros Hin.
  pose proof (proj1 (list_max_le
                       (List.map (fun kv => Json.depth (snd kv)) fields) _)
                    (le_n _)) as H.
  rewrite Forall_forall in H. apply H.
  now apply (in_map (fun kv => Json.depth (snd kv))).
Qed.

(** The replacer of [JSONStringifyWithBigInt] acts like a rewriting of the
    whole value before a plain serialization. *)
Lemma serialize_replaced :
  forall fuel v,
    (Json.depth v < fuel)%nat ->
    Json.SerializeJSONProperty fuel (Some bigint_replacer) v
    = Json.SerializeJSONProperty fuel None (Json.bigints_as_strings v).
Proof.
  induction fuel as [|fuel IH]; intros v Hd; [lia|].
  destruct v as [| | | | |s|items|fields]; try reflexivity.
  - cbn [Json.SerializeJSONProperty Json.bigints_as_strings bigint_replacer].
    rewrite List.map_map.
    rewrite (List.map_ext_in _
               (fun x => Json.SerializeJSONProperty fuel None
                           (Json.bigints_as_strings x))); [reflexivity|].
    intros x Hx. apply IH. pose proof (depth_item x items Hx).
    cbn [Json.depth] in Hd. lia.
  - cbn [Json.SerializeJSONProperty Json.bigints_as_strings bigint_replacer].
    rewrite List.map_map. cbn [fst snd].
    rewrite (List.map_ext_in _
               (fun kv => (fst kv,
                           Json.SerializeJSONProperty fuel None
                             (Json.bigints_as_strings (snd kv)))));
      [reflexivity|].
    intros kv Hkv. f_equal. apply IH. pose proof (depth_field kv fields Hkv).
    cbn [Json.depth] in Hd. lia.
Qed.

Lemma elements_done (l : list (Outcome (option string))) :
  Forall (fun o => exists s, o = Done s) l ->
  exists ss, Json.elements l = Done ss.
Proof.
  induction 1 as [|o l [s ->] _ [ss IH]]; simpl; [eauto|].
  rewrite IH. eauto.
Qed.

Lemma members_done (l : list (string * Outcome (option string))) :
  Forall (fun ko => exists s, snd ko = Done s) l ->
  exists ss, Json.members l = Done ss.
Proof.
  induction 1 as [|[key o] l [s Hs] _ [ss IH]]; simpl in *; [eauto|].
  subst o. rewrite IH. eauto.
Qed.

(** Serializing with the replacer always yields a text. *)
Lemma serialize_ends :
  forall fuel v,
    (Json.depth v < fuel)%nat ->
    exists s, Json.SerializeJSONProperty fuel (Some bigint_replacer) v = Done s.
Proof.
  induction fuel as [|fuel IH]; intros v Hd; [lia|].
  destruct v as [| |[|]| | |s|items|fields]; simpl; eauto.
  - destruct (elements_done
                (List.map (Json.SerializeJSONProperty fuel
                             (Some bigint_replacer)) items)) as [ss ->];
      [|eauto].
    rewrite Forall_map, Forall_forall. intros x Hx. apply IH.
    pose proof (depth_item x items Hx). cbn [Json.depth] in Hd. lia.
  - destruct (members_done
                (List.map
                   (fun kv => (fst kv,
                               Json.SerializeJSONProperty fuel
                                 (Some bigint_replacer) (snd kv)))
                   fields)) as [ss ->]; [|eauto].
    rewrite Forall_map, Forall_forall. intros kv Hkv. cbn [snd]. apply IH.
    pose proof (depth_field kv fields Hkv). cbn [Json.depth] in Hd. lia.
Qed.

Lemma bigints_as_strings_depth :
  forall n v, (Json.depth v < n)%nat ->
    Json.depth (Json.bigints_as_strings v) = Json.depth v.
Proof.
  induction n as [|n IH]; intros v Hd; [lia|].
  destruct v as [| | | | |s|items|fields]; try reflexivity.
  - cbn [Json.depth Json.bigints_as_strings]. f_equal. f_equal.
    rewrite List.map_map. apply List.map_ext_in. intros x Hx. apply IH.
    pose proof (depth_item x items Hx). cbn [Json.depth] in Hd. lia.
  - cbn [Json.depth Json.bigints_as_strings]. f_equal. f_equal.
    rewrite List.map_map. apply List.map_ext_in. intros kv Hkv. cbn [snd].
    apply IH. pose proof (depth_field kv fields Hkv).
    cbn [Json.depth] in Hd. lia.
Qed.

Lemma bigints_as_strings_clean :
  forall n v, (Json.depth v < n)%nat ->
    Json.has_bigint (Json.bigints_as_strings v) = false.
Proof.
  induction n as [|n IH]; intros v Hd; [lia|].
  destruct v as [| | | | |s|items|fields]; try reflexivity.
  - cbn [Json.has_bigint Json.bigints_as_strings].
    apply Bool.not_true_is_false. rewrite existsb_exists.
    intros (y & Hy & Hb). rewrite in_map_iff in Hy.
    destruct Hy as (x & <- & Hx). rewrite IH in Hb; [discriminate|].
    pose proof (depth_item x items Hx). cbn [Json.depth] in Hd. lia.
  - cbn [Json.has_bigint Json.bigints_as_strings].
    apply Bool.not_true_is_false. rewrite existsb_exists.
    intros (y & Hy & Hb). rewrite in_map_iff in Hy.
    destruct Hy as (kv & <- & Hkv). cbn [snd] in Hb.
    rewrite IH in Hb; [discriminate|].
    pose proof (depth_field kv fields Hkv). cbn [Json.depth] in Hd. lia.
Qed.

Lemma JSONStringifyWithBigInt_ends (obj : JsValue) :
  exists text, JSONStringifyWithBigInt obj = Done text.
Proof. apply serialize_ends. lia. Qed.

Lemma JSONStringifyWithBigInt_plain (obj : JsValue) :
  JSONStringifyWithBigInt obj = JSON_stringify (Json.bigints_as_strings obj).
Proof.
  unfold JSONStringifyWithBigInt, JSON_stringify, Json.stringify.
  rewrite (bigints_as_strings_depth (S (Json.depth obj))) by lia.
  apply serialize_replaced. lia.
Qed.

End JsonFacts.

(** ** Termination and footprint of the building blocks *)

Section Tame.

Variable env : Env.
Variable P : Event -> Prop.

Lemma tame_at_here {A} (m : M A) w o :
  m w = (o, w) -> o <> Diverge -> tame_at P m w.
Proof.
  intros E Ho. unfold tame_at. rewrite E. split; [exact Ho|].
  exists [], []. simpl. rewrite !List.app_nil_r. auto.
Qed.

Lemma tame_ret {A} (a : A) : tame P (ret a).
Proof. intros w. now apply tame_at_here with (o := Done a). Qed.

Lemma tame_raise {A} e : tame P (@raise A e).
Proof. intros w. now apply tame_at_here with (o := Raise e). Qed.

Lemma tame_lift {A} (o : Outcome A) : o <> Diverge -> tame P (lift o).
Proof. intros Ho w. now apply tame_at_here with (o := o). Qed.

Lemma tame_Date_now : tame P Date_now.
Proof. intros w. now apply tame_at_here with (o := Done (now w)). Qed.

Lemma tame_setTimeout ms : tame P (setTimeout ms).
Proof.
  intros w. split; [discriminate|]. exists [], []. simpl.
  rewrite !List.app_nil_r. auto.
Qed.

Lemma tame_console_error label detail :
  P (EvConsoleError label detail) -> tame P (console_error label detail).
Proof.
  intros Hp w. split; [discriminate|].
  exists [EvConsoleError label detail], []. simpl.
  rewrite List.app_nil_r. auto.
Qed.

Lemma tame_external {A} ev (reply : nat -> A) :
  P ev -> tame P (external env ev reply).
Proof.
  intros Hp w. split; [discriminate|].
  exists [ev], []. simpl. rewrite List.app_nil_r. repeat split; auto.
  unfold count_events. lia.
Qed.

(** Sequencing: what follows is only asked to behave where the first part
    really hands over. *)
Lemma tame_at_guarded {A B} (m : M A) (h : JsError -> M B) (k : A -> M B) w :
  tame_at P m w ->
  (forall a w', m w = (Done a, w') -> tame_at P (k a) w') ->
  (forall e w', m w = (Raise e, w') -> tame_at P (h e) w') ->
  tame_at P (guarded m h k) w.
Proof.
  intros [Hd (evs & rows & Ht & Hp & Hs & Hn)] Hk Hh.
  unfold guarded, tame_at. destruct (m w) as [[a|e|] w'] eqn:E; simpl in *.
  - destruct (Hk a w' eq_refl) as [Hd' (evs' & rows' & Ht' & Hp' & Hs' & Hn')].
    split; [exact Hd'|]. exists (evs ++ evs')%list, (rows ++ rows')%list.
    rewrite Ht', Ht, Hs', Hs, !List.app_assoc, count_events_app,
      List.length_app.
    repeat split; auto using List.Forall_app. apply Forall_app; auto. lia.
  - destruct (Hh e w' eq_refl) as [Hd' (evs' & rows' & Ht' & Hp' & Hs' & Hn')].
    split; [exact Hd'|]. exists (evs ++ evs')%list, (rows ++ rows')%list.
    rewrite Ht', Ht, Hs', Hs, !List.app_assoc, count_events_app,
      List.length_app.
    repeat split; auto. apply Forall_app; auto. lia.
  - contradiction.
Qed.

Lemma tame_at_bind {A B} (m : M A) (k : A -> M B) w :
  tame_at P m w ->
  (forall a w', m w = (Done a, w') -> tame_at P (k a) w') ->
  tame_at P (bind m k) w.
Proof.
  intros Hm Hk.
  change (bind m k) with (guarded m (@raise B) k).
  apply tame_at_guarded; auto. intros e w' _. apply tame_raise.
Qed.

Lemma tame_at_try_catch {A} (m : M A) (h : JsError -> M A) w :
  tame_at P m w ->
  (forall e w', m w = (Raise e, w') -> tame_at P (h e) w') ->
  tame_at P (try_catch m h) w.
Proof.
  intros Hm Hh.
  change (try_catch m h) with (guarded m h (@ret A)).
  apply tame_at_guarded; auto. intros a w' _. apply tame_ret.
Qed.

Lemma tame_guarded {A B} (m : M A) (h : JsError -> M B) (k : A -> M B) :
  tame P m -> (forall a, tame P (k a)) -> (forall e, tame P (h e)) ->
  tame P (guarded m h k).
Proof.
  intros Hm Hk Hh w. apply tame_at_guarded; auto.
  - intros a w' _. apply Hk.
  - intros e w' _. apply Hh.
Qed.

Lemma tame_bind {A B} (m : M A) (k : A -> M B) :
  tame P m -> (forall a, tame P (k a)) -> tame P (bind m k).
Proof. intros Hm Hk w. apply tame_at_bind; auto. intros a w' _. apply Hk. Qed.

Lemma tame_try_catch {A} (m : M A) (h : JsError -> M A) :
  tame P m -> (forall e, tame P (h e)) -> tame P (try_catch m h).
Proof.
  intros Hm Hh w. apply tame_at_try_catch; auto. intros e w' _. apply Hh.
Qed.

Lemma of_rpc_ends {A} (r : Rpc A) : of_rpc r <> Diverge.
Proof. destruct r; discriminate. Qed.

Lemma tame_rpc_call {A} ev (reply : nat -> Rpc A) :
  P ev -> tame P (rpc_call env ev reply).
Proof.
  intros Hp. apply tame_bind; [now apply tame_external|].
  intros r. apply tame_lift, of_rpc_ends.
Qed.

End Tame.

Section TamePollers.

Variable env : Env.
Variable P : Event -> Prop.
Hypothesis Hread : forall a, P (EvGetAccount a).

Lemma tame_getAccount a : tame P (getAccount env a).
Proof. apply tame_rpc_call. apply Hread. Qed.

Lemma stable_loop_tame address start maxWait :
  forall fuel last count w,
    (1 <= fuel)%nat ->
    maxWait - (now w - start) <= 800 * (Z.of_nat fuel - 1) ->
    tame_at P
      (waitForSequenceStable_loop env fuel address start maxWait last count)
      w.
Proof.
  induction fuel as [|fuel IH]; intros last count w Hfuel Hleft; [lia|].
  cbn [waitForSequenceStable_loop].
  apply tame_at_bind; [apply tame_Date_now|].
  intros t w0 E. injection E as <- <-.
  destruct (Z.ltb_spec (now w - start) maxWait) as [Hlt|]; [|apply tame_ret].
  apply tame_at_bind; [apply tame_getAccount|].
  intros x w1 E. rewrite getAccount_eq in E. injection E as _ <-.
  assert (Hlat : 0 <= Z.of_N (latency env (calls w))) by lia.
  destruct (sequence_of x =? last).
  - destruct (count + 1 >=? requiredStableChecks).
    + apply tame_at_bind; [apply tame_setTimeout|].
      intros [] w2 E. injection E as <-.
      apply tame_at_bind; [apply tame_getAccount|].
      intros y w3 E. rewrite getAccount_eq in E. injection E as _ <-.
      destruct (negb (sequence_of y =? sequence_of x)); [|apply tame_ret].
      apply IH; cbn [now later after_call calls]; lia.
    + apply tame_at_bind; [apply tame_setTimeout|].
      intros [] w2 E. injection E as <-.
      apply IH; cbn [now later after_call]; lia.
  - apply tame_at_bind; [apply tame_setTimeout|].
    intros [] w2 E. injection E as <-.
    apply IH; cbn [now later after_call]; lia.
Qed.

Lemma tame_waitForSequenceStable address expected maxWait :
  tame P (waitForSequenceStable env address expected maxWait).
Proof.
  intros w. unfold waitForSequenceStable.
  apply tame_at_bind; [apply tame_Date_now|].
  intros t w0 E. injection E as <- <-.
  pose proof (passes_enough maxWait 800 ltac:(lia)).
  apply stable_loop_tame; [unfold passes|]; lia.
Qed.

Lemma update_loop_tame address start maxWait target :
  forall fuel w,
    (1 <= fuel)%nat ->
    maxWait - (now w - start) <= 1000 * (Z.of_nat fuel - 1) ->
    tame_at P
      (waitForSequenceUpdate_loop env fuel address start maxWait target) w.
Proof.
  induction fuel as [|fuel IH]; intros w Hfuel Hleft; [lia|].
  cbn [waitForSequenceUpdate_loop].
  apply tame_at_bind; [apply tame_Date_now|].
  intros t w0 E. injection E as <- <-.
  destruct (Z.ltb_spec (now w - start) maxWait) as [Hlt|].
  - apply tame_at_bind; [apply tame_getAccount|].
    intros x w1 E. rewrite getAccount_eq in E. injection E as _ <-.
    assert (Hlat : 0 <= Z.of_N (latency env (calls w))) by lia.
    destruct (sequence_of x >=? target); [apply tame_ret|].
    apply tame_at_bind; [apply tame_setTimeout|].
    intros [] w2 E. injection E as <-.
    apply IH; cbn [now later after_call]; lia.
  - apply tame_bind; [apply tame_getAccount|]. intros a. apply tame_ret.
Qed.

Lemma tame_waitForSequenceUpdate address previous maxWait :
  tame P (waitForSequenceUpdate env address previous maxWait).
Proof.
  intros w. unfold waitForSequenceUpdate.
  apply tame_at_bind; [apply tame_Date_now|].
  intros t w0 E. injection E as <- <-.
  pose proof (passes_enough maxWait 1000 ltac:(lia)).
  apply update_loop_tame; [unfold passes|]; lia.
Qed.

End TamePollers.

Section TameConfig.

Variable env : Env.
Variable P : Event -> Prop.

Lemma tame_fetchFaucetConfig :
  P EvFetchConfig -> tame P (fetchFaucetConfig env).
Proof.
  intros Hp. unfold fetchFaucetConfig.
  destruct (negb (Js.truthy (service_role_key env))); [apply tame_raise|].
  apply tame_bind; [now apply tame_external|].
  intros [e|s|[|c rows]]; try apply tame_raise. apply tame_ret.
Qed.

End TameConfig.

Section TameDispatch.

Variable env : Env.
Variable P : Event -> Prop.
Hypothesis Hdispatch : forall ev, dispatch_event ev = true -> P ev.

Lemma dispatch_reads a : P (EvGetAccount a).
Proof. now apply Hdispatch. Qed.

Lemma tame_sendTokens_report sender receiver coins memo url result final :
  tame P (sendTokens_report env sender receiver coins memo url result final).
Proof.
  unfold sendTokens_report.
  apply tame_bind; [apply tame_waitForSequenceUpdate, dispatch_reads|].
  intros _.
  apply tame_bind; [apply tame_rpc_call; now apply Hdispatch|]. intros c.
  apply tame_bind; [apply tame_rpc_call; now apply Hdispatch|]. intros sb.
  apply tame_bind; [apply tame_rpc_call; now apply Hdispatch|]. intros rb.
  apply tame_ret.
Qed.

Lemma tame_sendTokens_attempt sender receiver coins memo url :
  tame P (sendTokens_attempt env sender receiver coins memo url).
Proof.
  unfold sendTokens_attempt.
  apply tame_bind; [apply tame_waitForSequenceStable, dispatch_reads|].
  intros s.
  apply tame_bind; [apply tame_setTimeout|]. intros _.
  apply tame_bind; [apply tame_getAccount, dispatch_reads|]. intros a.
  destruct (negb (sequence_of a =? s)); [apply tame_raise|].
  apply tame_bind; [apply tame_rpc_call; now apply Hdispatch|]. intros r.
  apply tame_sendTokens_report.
Qed.

Lemma tame_sendTokens_retry endpoint attempt :
  tame P attempt ->
  forall retries txError,
    tame P (sendTokens_retry env retries txError endpoint attempt).
Proof.
  intros Ha. induction retries as [|n IH]; intros txError.
  - apply tame_raise.
  - cbn [sendTokens_retry].
    apply tame_bind; [apply tame_rpc_call; now apply Hdispatch|]. intros _.
    apply tame_try_catch; [exact Ha|]. intros e.
    apply tame_bind; [apply tame_console_error; now apply Hdispatch|].
    intros _.
    apply tame_bind; [apply tame_console_error; now apply Hdispatch|].
    intros _.
    apply tame_bind; [destruct isSequenceError; apply tame_setTimeout|].
    intros _. apply IH.
Qed.

Lemma tame_sendTokens receiver : tame P (sendTokens env receiver).
Proof.
  unfold sendTokens.
  apply tame_bind; [apply tame_fetchFaucetConfig; now apply Hdispatch|].
  intros config.
  apply tame_try_catch.
  - destruct (_ || _ || _); [apply tame_raise|].
    destruct (_ || _ || _ || _); [apply tame_raise|].
    apply tame_bind; [apply tame_lift, of_rpc_ends|]. intros sender.
    apply tame_sendTokens_retry, tame_sendTokens_attempt.
  - intros e.
    apply tame_bind; [apply tame_console_error; now apply Hdispatch|].
    intros _. apply tame_raise.
Qed.

End TameDispatch.

(** ** The retry loop when every broadcast is refused *)

Section RetryBound.

Variable env : Env.

Hypothesis Hconnect : forall k, connect_reply env k = RpcOk tt.
Hypothesis Hrefused : forall k, exists e, broadcast_reply env k = RpcError e.

Lemma account_read_quiet (evs : list Event) :
  Forall (fun ev => is_account_read ev = true) evs ->
  count_events is_connect evs = 0%nat
  /\ count_events is_broadcast evs = 0%nat
  /\ last_tx_error evs = None.
Proof.
  intros H. repeat split.
  - apply (count_events_none _ is_account_read); auto.
    now intros [].
  - apply (count_events_none _ is_account_read); auto.
    now intros [].
  - apply (last_tx_error_none is_account_read); auto.
    now intros [].
Qed.

(** An attempt ends in the [catch] clause, having opened no client and
    broadcast at most once. *)
Lemma attempt_refused sender receiver coins memo url w :
  exists e w' evs,
    sendTokens_attempt env sender receiver coins memo url w = (Raise e, w')
    /\ trace w' = (trace w ++ evs)%list
    /\ count_events is_connect evs = 0%nat
    /\ (count_events is_broadcast evs <= 1)%nat
    /\ last_tx_error evs = None.
Proof.
  unfold sendTokens_attempt.
  destruct (tame_waitForSequenceStable env
              (fun ev => is_account_read ev = true) (fun _ => eq_refl)
              sender 0 10000 w)
    as [Hd (evs & rows & Ht & Hp & _)].
  destruct (account_read_quiet evs Hp) as (Hc & Hb & Hl).
  destruct (waitForSequenceStable env sender 0 10000 w)
    as [[s|e|] w1] eqn:E; simpl in Hd, Ht; [| |contradiction].
  2:{ exists e, w1, evs. rewrite (bind_raise _ _ _ _ _ E).
      repeat split; auto. lia. }
  rewrite (bind_done _ _ _ _ _ E).
  rewrite bind_setTimeout.
  destruct (account_reply env (calls w1)) as [e|a] eqn:Ea.
  { exists e, (after_call env (later w1 1000) (EvGetAccount sender)),
      (evs ++ [EvGetAccount sender])%list.
    erewrite bind_raise by (apply rpc_call_error; exact Ea).
    cbn [trace after_call later].
    rewrite Ht, List.app_assoc, !count_events_app, last_tx_error_app, Hc, Hb, Hl.
    repeat split; auto. }
  erewrite bind_done by (unfold getAccount; apply rpc_call_ok; exact Ea).
  destruct (negb (sequence_of a =? s)).
  { eexists _, _, (evs ++ [EvGetAccount sender])%list.
    split; [reflexivity|].
    cbn [trace after_call later].
    rewrite Ht, List.app_assoc, !count_events_app, last_tx_error_app, Hc, Hb, Hl.
    repeat split; auto. }
  destruct (Hrefused (calls (after_call env (later w1 1000)
                               (EvGetAccount sender)))) as [e He].
  exists e. eexists.
  exists (evs ++ [EvGetAccount sender;
                  EvBroadcast sender receiver coins memo])%list.
  erewrite bind_raise
    by (unfold signAndBroadcast; apply rpc_call_error; exact He).
  split; [reflexivity|].
  cbn [trace after_call later].
  rewrite Ht, <- !List.app_assoc, !count_events_app, last_tx_error_app, Hc, Hb, Hl.
  repeat split; auto.
Qed.

(** [retries] passes are made, each opening one client, and the error
    thrown at the end quotes the error caught last. *)
Lemma retry_exhausts sender receiver coins memo url endpoint :
  forall retries txError w,
  exists w' evs,
    sendTokens_retry env retries txError endpoint
      (sendTokens_attempt env sender receiver coins memo url) w
    = (Raise (Error ("Transaction failed after multiple retries: "
                     ++ last_or (txError_message txError) evs)), w')
    /\ trace w' = (trace w ++ evs)%list
    /\ count_events is_connect evs = retries
    /\ (count_events is_broadcast evs <= retries)%nat
    /\ (0 < retries -> last_tx_error evs <> None)%nat.
Proof.
  induction retries as [|n IH]; intros txError w.
  - exists w, []. cbn. rewrite List.app_nil_r. repeat split; auto. lia.
  - cbn [sendTokens_retry].
    erewrite bind_done
      by (unfold connectWithSigner; apply rpc_call_ok, Hconnect).
    destruct (attempt_refused sender receiver coins memo url
                (after_call env w (EvConnect endpoint)))
      as (e & w1 & evs1 & E1 & Ht1 & Hc1 & Hb1 & Hl1).
    rewrite (try_catch_raise _ _ _ _ _ E1).
    set (msg := Js.or_else (message e) "Error").
    rewrite !bind_console_error.
    match goal with
    | |- context [bind ?m ?k ?w0] =>
        assert (Hs : exists ms, m w0 = (Done tt, later w0 ms))
          by (destruct (isSequenceError msg); eexists; reflexivity);
        destruct Hs as [ms Hs]; rewrite (bind_done m k w0 tt _ Hs)
    end.
    match goal with
    | |- context [sendTokens_retry env n (Some e) endpoint ?att ?w0] =>
        destruct (IH (Some e) w0) as (w' & evs' & E' & Ht' & Hc' & Hb' & Hl')
    end.
    exists w'.
    exists ([EvConnect endpoint] ++ evs1
            ++ [EvConsoleError "Transaction error:" msg;
                EvConsoleError "Raw transaction error response:" (message e)]
            ++ evs')%list.
    rewrite E'. cbn [trace later after_call console_error snd] in Ht'.
    rewrite Ht', Ht1. cbn [trace after_call].
    rewrite !count_events_app, Hc1, Hc'.
    repeat split.
    + do 3 f_equal. rewrite !last_or_app. reflexivity.
    + now rewrite <- !List.app_assoc.
    + cbn. lia.
    + intros _. rewrite !last_tx_error_app.
      destruct (last_tx_error evs'); [discriminate|]. cbn. discriminate.
Qed.

End RetryBound.

(** ** After a successful broadcast *)

Section Report.

Variable env : Env.

(** A sequence that stays below the target lets the confirmation poll run
    into its timeout; the poll then returns what it read last. *)
Lemma update_loop_times_out address start maxWait target :
  forall fuel w,
    (forall k, (calls w <= k)%nat ->
       exists a, account_reply env k = RpcOk a /\ sequence_of a < target) ->
    (1 <= fuel)%nat ->
    maxWait - (now w - start) <= 1000 * (Z.of_nat fuel - 1) ->
    exists x w',
      waitForSequenceUpdate_loop env fuel address start maxWait target w
      = (Done x, w')
      /\ x < target
      /\ maxWait <= now w' - start.
Proof.
  induction fuel as [|fuel IH]; intros w Hlow Hfuel Hleft; [lia|].
  cbn [waitForSequenceUpdate_loop].
  rewrite (bind_done Date_now _ w (now w) w eq_refl).
  destruct (Hlow (calls w) (le_n _)) as (a & Ha & Hlt).
  assert (Hlat : 0 <= Z.of_N (latency env (calls w))) by lia.
  destruct (Z.ltb_spec (now w - start) maxWait) as [Hin|Hout].
  - erewrite bind_done by (apply getAccount_ok; exact Ha).
    destruct (Z.geb_spec (sequence_of a) target) as [|_]; [lia|].
    rewrite bind_setTimeout.
    apply IH; cbn [calls now later after_call]; try lia.
    intros k Hk. apply Hlow. lia.
  - erewrite bind_done by (apply getAccount_ok; exact Ha).
    exists (sequence_of a). eexists. split; [reflexivity|].
    cbn [now after_call]. lia.
Qed.

Lemma waitForSequenceUpdate_times_out address previous maxWait w :
  (forall k, (calls w <= k)%nat ->
     exists a, account_reply env k = RpcOk a
               /\ sequence_of a < previous + 1) ->
  exists x w',
    waitForSequenceUpdate env address previous maxWait w = (Done x, w')
    /\ x < previous + 1
    /\ maxWait <= now w' - now w.
Proof.
  intros Hlow. unfold waitForSequenceUpdate.
  rewrite (bind_done Date_now _ w (now w) w eq_refl).
  pose proof (passes_enough maxWait 1000 ltac:(lia)).
  apply update_loop_times_out; [exact Hlow|unfold passes; lia|lia].
Qed.

Lemma report_after_timeout sender receiver coins memo url result final w :
  (forall k, (calls w <= k)%nat ->
     exists a, account_reply env k = RpcOk a /\ sequence_of a < final + 1) ->
  (forall k, exists c, chainId_reply env k = RpcOk c) ->
  (forall k, exists b, balances_reply env k = RpcOk b) ->
  exists r w',
    sendTokens_report env sender receiver coins memo url result final w
    = (Done r, w')
    /\ pr_success r = true
    /\ pr_transactionHash r = transactionHash result
    /\ 15000 <= now w' - now w.
Proof.
  intros Hlow Hchain Hbal. unfold sendTokens_report.
  destruct (waitForSequenceUpdate_times_out sender final 15000 w Hlow)
    as (x & w1 & E1 & _ & Ht).
  rewrite (bind_done _ _ _ _ _ E1).
  destruct (Hchain (calls w1)) as [c Hc].
  erewrite bind_done by (unfold getChainId; apply rpc_call_ok; exact Hc).
  destruct (Hbal (S (calls w1))) as [sb Hsb].
  erewrite bind_done by (unfold getAllBalances; apply rpc_call_ok; exact Hsb).
  destruct (Hbal (S (S (calls w1)))) as [rb Hrb].
  erewrite bind_done by (unfold getAllBalances; apply rpc_call_ok; exact Hrb).
  eexists _, _. split; [reflexivity|]. cbn [pr_success pr_transactionHash].
  repeat split. cbn [now after_call].
  pose proof (N2Z.is_nonneg (latency env (calls w1))).
  pose proof (N2Z.is_nonneg (latency env (S (calls w1)))).
  pose proof (N2Z.is_nonneg (latency env (S (S (calls w1))))).
  cbn [calls]. lia.
Qed.

(** A result of the attempt leaves the retry loop at once. *)
Lemma retry_returns endpoint attempt retries txError w r w' :
  connect_reply env (calls w) = RpcOk tt ->
  attempt (after_call env w (EvConnect endpoint)) = (Done r, w') ->
  sendTokens_retry env (S retries) txError endpoint attempt w = (Done r, w').
Proof.
  intros Hc Ha. cbn [sendTokens_retry].
  erewrite bind_done by (unfold connectWithSigner; apply rpc_call_ok; exact Hc).
  now apply try_catch_done.
Qed.

End Report.

(** ** The request handler *)

Section TameLookups.

Variable env : Env.
Variable P : Event -> Prop.
Hypothesis Hlookup : forall ev, lookup_event ev = true -> P ev.

Lemma tame_rows_matching f : tame P (rows_matching f).
Proof.
  intros w. now apply tame_at_here with (o := Done (filter f (store w))).
Qed.

Lemma tame_getRequestCountByIp ip since :
  tame P (getRequestCountByIp env ip since).
Proof.
  unfold getRequestCountByIp.
  apply tame_bind; [apply tame_external; now apply Hlookup|].
  intros [e| | |]; try apply tame_raise; try apply tame_ret.
  apply tame_bind; [apply tame_rows_matching|]. intros arr. apply tame_ret.
Qed.

Lemma tame_getRequestCountByAddress address since :
  tame P (getRequestCountByAddress env address since).
Proof.
  unfold getRequestCountByAddress.
  apply tame_bind; [apply tame_external; now apply Hlookup|].
  intros [e| | |]; try apply tame_raise; try apply tame_ret.
  apply tame_bind; [apply tame_rows_matching|]. intros arr. apply tame_ret.
Qed.

Lemma tame_fetchRegion ip : tame P (fetchRegion env ip).
Proof.
  unfold fetchRegion. destruct (_ || _ || _); [apply tame_ret|].
  apply tame_bind; [apply tame_external; now apply Hlookup|].
  intros [|country region city]; [apply tame_ret|].
  destruct (Js.truthy country); apply tame_ret.
Qed.

Lemma read_receiver_ends b : read_receiver b <> Diverge.
Proof. destruct b; discriminate. Qed.

End TameLookups.

Section Insert.

Variable env : Env.

Lemma insert_eq r w :
  insertUserRequest env r w
  = match insert_reply env (calls w) with
    | InsertThrows e => (Raise e, after_call env w (EvInsert r))
    | InsertNotOk text =>
        (Done tt,
         mkWorld (now (after_call env w (EvInsert r)))
                 (S (calls w))
                 (trace w ++ [EvInsert r]
                  ++ [EvConsoleError "Failed to log user request:" text])
                 (store w))
    | InsertOk =>
        (Done tt,
         mkWorld (now (after_call env w (EvInsert r)))
                 (S (calls w))
                 (trace w ++ [EvInsert r])
                 (store w
                  ++ [mkAuditRow r (now (after_call env w (EvInsert r)))]))
    end.
Proof.
  unfold insertUserRequest, bind, external, console_error, append_row, raise.
  destruct (insert_reply env (calls w)); cbn;
    rewrite <- ?List.app_assoc; reflexivity.
Qed.

Lemma tame_insertUserRequest (P : Event -> Prop) r :
  P (EvInsert r) ->
  (forall l d, P (EvConsoleError l d)) ->
  tame P (insertUserRequest env r).
Proof.
  intros Hi Hc w. unfold tame_at. rewrite insert_eq.
  destruct (insert_reply env (calls w)) as [e|text|]; cbn;
    (split; [discriminate|]).
  - exists [EvInsert r], []. rewrite List.app_nil_r. cbn. auto.
  - exists [EvInsert r; EvConsoleError "Failed to log user request:" text], [].
    rewrite List.app_nil_r. cbn. auto.
  - eexists [EvInsert r], [_]. cbn. auto.
Qed.

(** The small error bodies always serialize. *)
Lemma rate_limit_body_text text limit kind :
  exists t, JSON_stringify (rate_limit_body text limit kind) = Done (Some t).
Proof. eexists. reflexivity. Qed.

Lemma error_body_text (msg : string) :
  exists t,
    JSON_stringify (JsObject [("error", JsString msg);
                              ("success", JsBool false)]) = Done (Some t).
Proof. eexists. reflexivity. Qed.

Lemma invalid_body_text (msg : string) :
  exists t, JSON_stringify (JsObject [("error", JsString msg)]) = Done (Some t).
Proof. eexists. reflexivity. Qed.

Lemma respond_done code payload catch text w :
  JSON_stringify payload = Done text ->
  respond code payload catch w = (Done (mkResponse code text), w).
Proof. unfold respond, guarded, lift. now intros ->. Qed.

End Insert.

Section Catch.

Variable env : Env.

Lemma insert_ends r w : fst (insertUserRequest env r w) <> Diverge.
Proof. rewrite insert_eq. destruct (insert_reply env (calls w)); discriminate. Qed.

(** The [catch] clause always answers 500, after one attempt to log. *)
Lemma serve_catch_eq ip region ua recv e w :
  exists t,
    serve_catch env ip region ua recv e w
    = (Done (mkResponse 500 (Some t)),
       let w1 := snd (insertUserRequest env
                        (mkUserRequest ip region ua recv false None) w) in
       mkWorld (now w1) (calls w1)
               (trace w1 ++ [EvConsoleError "Error in request handler:"
                                            (message e)])
               (store w1)).
Proof.
  destruct (error_body_text (message e)) as [t Ht]. exists t.
  unfold serve_catch, bind, try_catch, console_error, lift, ret.
  pose proof (insert_ends (mkUserRequest ip region ua recv false None) w) as Hd.
  destruct (insertUserRequest env _ w) as [[[]|e'|] w1]; cbn in Hd;
    try contradiction; rewrite Ht; reflexivity.
Qed.

Lemma count_events_false f (evs : list Event) :
  Forall (fun ev => f ev = false) evs -> count_events f evs = 0%nat.
Proof.
  unfold count_events. induction 1 as [|ev evs Hev _ IH]; simpl; auto.
  now rewrite Hev.
Qed.

End Catch.

Section Settles.

Variable env : Env.
Variable P : Event -> Prop.
Variable ok : Z -> Prop.

Hypothesis Hinsert : forall r, P (EvInsert r).
Hypothesis Hlog : forall l d, P (EvConsoleError l d).
Hypothesis Hok500 : ok 500.

Lemma settles_at_guarded {A} (m : M A) h k w :
  tame_at P m w ->
  (forall a w', m w = (Done a, w') -> settles_at ok P (k a) w') ->
  (forall e w', m w = (Raise e, w') -> settles_at ok P (h e) w') ->
  settles_at ok P (guarded m h k) w.
Proof.
  intros [Hd (evs & rows & Ht & Hp & _)] Hk Hh. unfold guarded, settles_at.
  destruct (m w) as [[a|e|] w1]; cbn in Hd, Ht; [| |contradiction].
  - destruct (Hk a w1 eq_refl) as (r & w' & evs' & E & Hs & Ht' & Hp').
    exists r, w', (evs ++ evs')%list. rewrite E, Ht', Ht, List.app_assoc.
    repeat split; auto. now apply Forall_app.
  - destruct (Hh e w1 eq_refl) as (r & w' & evs' & E & Hs & Ht' & Hp').
    exists r, w', (evs ++ evs')%list. rewrite E, Ht', Ht, List.app_assoc.
    repeat split; auto. now apply Forall_app.
Qed.

Lemma settles_at_ret r w : ok (status r) -> settles_at ok P (ret r) w.
Proof.
  intros Hr. exists r, w, []. rewrite List.app_nil_r. repeat split; auto.
Qed.

Lemma settles_serve_catch ip region ua recv e w :
  settles_at ok P (serve_catch env ip region ua recv e) w.
Proof.
  destruct (serve_catch_eq env ip region ua recv e w) as [t E].
  destruct (tame_insertUserRequest env P
              (mkUserRequest ip region ua recv false None)
              (Hinsert _) Hlog w) as [_ (evs & rows & Ht & Hp & _)].
  eexists _, _, (evs ++ [EvConsoleError "Error in request handler:"
                                        (message e)])%list.
  split; [exact E|]. cbn [status trace]. rewrite Ht, List.app_assoc.
  repeat split; auto. apply Forall_app. auto.
Qed.

Lemma settles_respond code payload catch text w :
  JSON_stringify payload = Done text ->
  ok code ->
  settles_at ok P (respond code payload catch) w.
Proof.
  intros Ht Hc. unfold settles_at. rewrite (respond_done _ _ _ _ _ Ht).
  exists (mkResponse code text), w, []. rewrite List.app_nil_r.
  repeat split; auto.
Qed.

End Settles.

Section SettlesBranches.

Variable env : Env.
Variable P : Event -> Prop.
Variable ok : Z -> Prop.

Hypothesis Hinsert : forall r, P (EvInsert r).
Hypothesis Hlog : forall l d, P (EvConsoleError l d).
Hypothesis Hok500 : ok 500.

Lemma settles_serve_rate_limited ip ua recv text limit kind w :
  ok 429 ->
  settles_at ok P (serve_rate_limited env ip ua recv text limit kind) w.
Proof.
  intros Hc. unfold serve_rate_limited.
  apply settles_at_guarded.
  - apply tame_insertUserRequest; auto.
  - intros _ w' _.
    destruct (rate_limit_body_text text limit kind) as [t Ht].
    now apply settles_respond with (text := Some t).
  - intros e w' _. now apply settles_serve_catch.
Qed.

Lemma settles_serve_invalid_address ip ua recv PREFIX w :
  ok 400 ->
  settles_at ok P (serve_invalid_address env ip ua recv PREFIX) w.
Proof.
  intros Hc. unfold serve_invalid_address.
  apply settles_at_guarded.
  - apply tame_insertUserRequest; auto.
  - intros _ w' _.
    destruct (invalid_body_text
                ("Invalid receiver address. Must start with: " ++ PREFIX))
      as [t Ht].
    now apply settles_respond with (text := Some t).
  - intros e w' _. now apply settles_serve_catch.
Qed.

Hypothesis Hlookup : forall ev, lookup_event ev = true -> P ev.
Hypothesis Hdispatch : forall ev, dispatch_event ev = true -> P ev.

Lemma settles_serve_dispatch ip ua recv w :
  ok 200 ->
  settles_at ok P (serve_dispatch env ip ua recv) w.
Proof.
  intros Hc. unfold serve_dispatch.
  apply settles_at_guarded; [now apply tame_fetchRegion| |].
  2:{ intros e w' _. now apply settles_serve_catch. }
  intros region w1 _.
  apply settles_at_guarded; [now apply tame_sendTokens| |].
  2:{ intros e w' _. now apply settles_serve_catch. }
  intros result w2 _.
  apply settles_at_guarded; [apply tame_insertUserRequest; auto| |].
  2:{ intros e w' _. now apply settles_serve_catch. }
  intros _ w3 _.
  destruct (JSONStringifyWithBigInt_ends (js_of_result result)) as [t Ht].
  apply settles_at_guarded.
  - apply tame_lift. rewrite Ht. discriminate.
  - intros text w' _. now apply settles_at_ret.
  - intros e w' _. now apply settles_serve_catch.
Qed.

(** Past the rate limits the handler answers 200, 400 or 500. *)
Lemma settles_serve_checked_allowed ip ua recv PREFIX limit ipCount addrCount w :
  ok 200 -> ok 400 ->
  ipCount < limit -> addrCount < limit ->
  settles_at ok P
    (serve_checked env ip ua recv PREFIX limit ipCount addrCount) w.
Proof.
  intros H200 H400 Hip Haddr. unfold serve_checked.
  destruct (Z.geb_spec ipCount limit); [lia|].
  destruct (Z.geb_spec addrCount limit); [lia|]. cbn [andb].
  destruct (invalid_receiver recv PREFIX).
  - now apply settles_serve_invalid_address.
  - now apply settles_serve_dispatch.
Qed.

End SettlesBranches.

Lemma lookup_not_insert ev : lookup_event ev = true -> is_insert ev = false.
Proof. now destruct ev. Qed.

Lemma dispatch_not_insert ev : dispatch_event ev = true -> is_insert ev = false.
Proof. now destruct ev. Qed.

(** ** One audit row per request *)

Section Audits.

Variable env : Env.
Hypothesis Hstored : forall k, insert_reply env k = InsertOk.

Lemma insert_stored r w :
  insertUserRequest env r w
  = (Done tt,
     mkWorld (now (after_call env w (EvInsert r)))
             (S (calls w))
             (trace w ++ [EvInsert r])
             (store w ++ [mkAuditRow r (now (after_call env w (EvInsert r)))])).
Proof. now rewrite insert_eq, Hstored. Qed.

Lemma audits_at_guarded {A} (m : M A) h k w :
  tame_at (fun ev => is_insert ev = false) m w ->
  (forall a w', m w = (Done a, w') -> audits_at (k a) w') ->
  (forall e w', m w = (Raise e, w') -> audits_at (h e) w') ->
  audits_at (guarded m h k) w.
Proof.
  intros [Hd (evs & rows & Ht & Hp & Hs & Hn)] Hk Hh.
  rewrite (count_events_false _ _ Hp) in Hn.
  assert (rows = []) as -> by (destruct rows; [reflexivity|cbn in Hn; lia]).
  rewrite List.app_nil_r in Hs.
  unfold guarded, audits_at.
  destruct (m w) as [[a|e|] w1]; cbn in Hd, Ht, Hs; [| |contradiction].
  - destruct (Hk a w1 eq_refl) as (r & w' & evs' & x & E & Ht' & Hc' & Hs' & Hf).
    exists r, w', (evs ++ evs')%list, x.
    rewrite E, Ht', Ht, Hs', Hs, List.app_assoc, count_events_app,
      (count_events_false _ _ Hp).
    repeat split; auto.
  - destruct (Hh e w1 eq_refl) as (r & w' & evs' & x & E & Ht' & Hc' & Hs' & Hf).
    exists r, w', (evs ++ evs')%list, x.
    rewrite E, Ht', Ht, Hs', Hs, List.app_assoc, count_events_app,
      (count_events_false _ _ Hp).
    repeat split; auto.
Qed.

Lemma audits_serve_catch ip region ua recv e w :
  audits_at (serve_catch env ip region ua recv e) w.
Proof.
  destruct (serve_catch_eq env ip region ua recv e w) as [t E].
  rewrite insert_stored in E. cbn in E.
  eexists _, _, [EvInsert _; EvConsoleError _ _], _.
  split; [exact E|]. cbn. rewrite <- List.app_assoc. repeat split.
Qed.

(** An insert followed by statements that only compute the response. *)
Lemma audits_after_insert r h k w :
  (forall w1, exists resp,
      k tt w1 = (Done resp, w1)
      /\ (status resp <> 200 -> success r = false)) ->
  audits_at (guarded (insertUserRequest env r) h k) w.
Proof.
  intros Hk. unfold audits_at.
  rewrite (guarded_done _ _ _ _ _ _ (insert_stored r w)).
  match goal with
  | |- context [k tt ?w1] => destruct (Hk w1) as (resp & E & Hf); rewrite E
  end.
  eexists resp, _, [EvInsert r], _. split; [reflexivity|].
  cbn. repeat split. exact Hf.
Qed.

Lemma audits_serve_rate_limited ip ua recv text limit kind w :
  audits_at (serve_rate_limited env ip ua recv text limit kind) w.
Proof.
  unfold serve_rate_limited. apply audits_after_insert. intros w1.
  destruct (rate_limit_body_text text limit kind) as [t Ht].
  eexists. split; [now apply respond_done with (text := Some t)|].
  reflexivity.
Qed.

Lemma audits_serve_invalid_address ip ua recv PREFIX w :
  audits_at (serve_invalid_address env ip ua recv PREFIX) w.
Proof.
  unfold serve_invalid_address. apply audits_after_insert. intros w1.
  destruct (invalid_body_text
              ("Invalid receiver address. Must start with: " ++ PREFIX))
    as [t Ht].
  eexists. split; [now apply respond_done with (text := Some t)|].
  reflexivity.
Qed.

Lemma audits_serve_dispatch ip ua recv w :
  audits_at (serve_dispatch env ip ua recv) w.
Proof.
  unfold serve_dispatch.
  apply audits_at_guarded;
    [apply tame_fetchRegion, lookup_not_insert| |].
  2:{ intros e w' _. apply audits_serve_catch. }
  intros region w1 _.
  apply audits_at_guarded;
    [apply tame_sendTokens, dispatch_not_insert| |].
  2:{ intros e w' _. apply audits_serve_catch. }
  intros result w2 _.
  apply audits_after_insert. intros w3.
  destruct (JSONStringifyWithBigInt_ends (js_of_result result)) as [t Ht].
  exists (mkResponse 200 t). split.
  - unfold guarded, lift. now rewrite Ht.
  - cbn. congruence.
Qed.

Lemma audits_serve_checked ip ua recv PREFIX limit ipCount addrCount w :
  audits_at (serve_checked env ip ua recv PREFIX limit ipCount addrCount) w.
Proof.
  unfold serve_checked.
  destruct (_ && _); [apply audits_serve_rate_limited|].
  destruct (ipCount >=? limit); [apply audits_serve_rate_limited|].
  destruct (addrCount >=? limit); [apply audits_serve_rate_limited|].
  destruct (invalid_receiver recv PREFIX);
    [apply audits_serve_invalid_address|apply audits_serve_dispatch].
Qed.

(** Every request that is not a preflight and does not leave through the
    missing-IP exit is logged exactly once. *)
Lemma audits_serve req w :
  String.eqb (method req) "OPTIONS" = false ->
  ~ rejected_without_ip env req w ->
  audits_at (serve env req) w.
Proof.
  intros Hm Hip. unfold serve. rewrite Hm.
  apply audits_at_guarded.
  { apply tame_lift, read_receiver_ends. }
  2:{ intros e w' _. apply audits_serve_catch. }
  intros recv w1 E1.
  assert (w1 = w) as -> by (unfold lift in E1; congruence).
  assert (Hbody : body req = BodyJson recv).
  { unfold lift in E1. destruct (body req); cbn in E1; congruence. }
  apply audits_at_guarded.
  { now apply tame_fetchFaucetConfig. }
  2:{ intros e w' _. apply audits_serve_catch. }
  intros config w2 E2.
  destruct (Js.truthy (requester_ip req)) eqn:Hreq; cbn [negb].
  - apply audits_at_guarded; [apply tame_Date_now| |].
    2:{ intros e w' _. apply audits_serve_catch. }
    intros t w3 _.
    apply audits_at_guarded;
      [apply tame_getRequestCountByIp, lookup_not_insert| |].
    2:{ intros e w' _. apply audits_serve_catch. }
    intros ipCount w4 _.
    apply audits_at_guarded;
      [apply tame_getRequestCountByAddress, lookup_not_insert| |].
    2:{ intros e w' _. apply audits_serve_catch. }
    intros addrCount w5 _. apply audits_serve_checked.
  - exfalso. apply Hip. unfold rejected_without_ip.
    unfold fetchFaucetConfig in E2.
    destruct (Js.truthy (service_role_key env)); [|discriminate].
    cbn [negb] in E2. unfold bind, external in E2.
    destruct (config_reply env (calls w)) as [e|s|[|c rows]] eqn:Ec;
      try discriminate.
    repeat split; eauto.
Qed.

End Audits.

(** ** Rows written by requests that are turned away *)

Section Harmless.

Variable env : Env.

Lemma harmless_at_guarded {A} (m : M A) h k w :
  tame_at (fun ev => is_insert ev = false) m w ->
  (forall a w', m w = (Done a, w') -> harmless_at (k a) w') ->
  (forall e w', m w = (Raise e, w') -> harmless_at (h e) w') ->
  harmless_at (guarded m h k) w.
Proof.
  intros [Hd (evs & rows & Ht & Hp & Hs & Hn)] Hk Hh.
  rewrite (count_events_false _ _ Hp) in Hn.
  assert (rows = []) as -> by (destruct rows; [reflexivity|cbn in Hn; lia]).
  rewrite List.app_nil_r in Hs.
  unfold guarded, harmless_at.
  destruct (m w) as [[a|e|] w1]; cbn in Hd, Hs; [| |contradiction].
  - destruct (Hk a w1 eq_refl) as (r & w' & rows' & E & Hs' & Hf).
    exists r, w', rows'. rewrite E, Hs', Hs. auto.
  - destruct (Hh e w1 eq_refl) as (r & w' & rows' & E & Hs' & Hf).
    exists r, w', rows'. rewrite E, Hs', Hs. auto.
Qed.

Lemma harmless_serve_catch ip region ua recv e w :
  harmless_at (serve_catch env ip region ua recv e) w.
Proof.
  destruct (serve_catch_eq env ip region ua recv e w) as [t E].
  rewrite insert_eq in E.
  destruct (insert_reply env (calls w)); cbn in E.
  - eexists _, _, []. split; [exact E|]. cbn. rewrite List.app_nil_r. auto.
  - eexists _, _, []. split; [exact E|]. cbn. rewrite List.app_nil_r. auto.
  - eexists _, _, [_]. split; [exact E|]. cbn. split; [reflexivity|].
    intros _. repeat constructor.
Qed.

Lemma harmless_after_insert r h k w :
  (forall w1, exists resp,
      k tt w1 = (Done resp, w1)
      /\ (status resp <> 200 -> success r = false)) ->
  (forall e w1, harmless_at (h e) w1) ->
  harmless_at (guarded (insertUserRequest env r) h k) w.
Proof.
  intros Hk Hh. unfold harmless_at, guarded. rewrite insert_eq.
  destruct (insert_reply env (calls w)) as [e|text|].
  - destruct (Hh e (after_call env w (EvInsert r)))
      as (resp & w' & rows & E & Hs & Hf).
    exists resp, w', rows. rewrite E. auto.
  - match goal with
    | |- context [k tt ?w1] => destruct (Hk w1) as (resp & E & Hf); rewrite E
    end.
    exists resp. eexists _, []. split; [reflexivity|]. cbn.
    rewrite List.app_nil_r. auto.
  - match goal with
    | |- context [k tt ?w1] => destruct (Hk w1) as (resp & E & Hf); rewrite E
    end.
    exists resp. eexists _, [_]. split; [reflexivity|]. cbn.
    split; [reflexivity|]. intros Hr. repeat constructor. cbn. auto.
Qed.

Lemma harmless_respond code payload catch text w :
  JSON_stringify payload = Done text ->
  harmless_at (respond code payload catch) w.
Proof.
  intros Ht. unfold harmless_at. rewrite (respond_done _ _ _ _ _ Ht).
  eexists _, _, []. split; [reflexivity|]. rewrite List.app_nil_r. auto.
Qed.

Lemma harmless_serve_checked ip ua recv PREFIX limit ipCount addrCount w :
  harmless_at (serve_checked env ip ua recv PREFIX limit ipCount addrCount) w.
Proof.
  assert (Hlimited : forall text kind,
             harmless_at
               (serve_rate_limited env ip ua recv text limit kind) w).
  { intros text kind. unfold serve_rate_limited.
    apply harmless_after_insert; [|intros; apply harmless_serve_catch].
    intros w1. destruct (rate_limit_body_text text limit kind) as [t Ht].
    eexists. split; [now apply respond_done with (text := Some t)|].
    reflexivity. }
  unfold serve_checked.
  destruct (_ && _); [apply Hlimited|].
  destruct (ipCount >=? limit); [apply Hlimited|].
  destruct (addrCount >=? limit); [apply Hlimited|].
  destruct (invalid_receiver recv PREFIX).
  - unfold serve_invalid_address.
    apply harmless_after_insert; [|intros; apply harmless_serve_catch].
    intros w1.
    destruct (invalid_body_text
                ("Invalid receiver address. Must start with: " ++ PREFIX))
      as [t Ht].
    eexists. split; [now apply respond_done with (text := Some t)|].
    reflexivity.
  - unfold serve_dispatch.
    apply harmless_at_guarded;
      [apply tame_fetchRegion, lookup_not_insert| |].
    2:{ intros e w' _. apply harmless_serve_catch. }
    intros region w1 _.
    apply harmless_at_guarded;
      [apply tame_sendTokens, dispatch_not_insert| |].
    2:{ intros e w' _. apply harmless_serve_catch. }
    intros result w2 _.
    apply harmless_after_insert; [|intros; apply harmless_serve_catch].
    intros w3.
    destruct (JSONStringifyWithBigInt_ends (js_of_result result)) as [t Ht].
    exists (mkResponse 200 t). split.
    + unfold guarded, lift. now rewrite Ht.
    + cbn. congruence.
Qed.

(** [serve] always answers; a request that is not answered 200 leaves
    behind failed attempts only. *)
Lemma harmless_serve req w : harmless_at (serve env req) w.
Proof.
  unfold serve. destruct (String.eqb (method req) "OPTIONS").
  { eexists _, _, []. split; [reflexivity|]. rewrite List.app_nil_r. auto. }
  apply harmless_at_guarded.
  { apply tame_lift, read_receiver_ends. }
  2:{ intros e w' _. apply harmless_serve_catch. }
  intros recv w1 _.
  apply harmless_at_guarded.
  { now apply tame_fetchFaucetConfig. }
  2:{ intros e w' _. apply harmless_serve_catch. }
  intros config w2 _.
  destruct (negb (Js.truthy (requester_ip req))).
  { destruct (error_body_text "IP address could not be determined")
      as [t Ht].
    now apply harmless_respond with (text := Some t). }
  apply harmless_at_guarded; [apply tame_Date_now| |].
  2:{ intros e w' _. apply harmless_serve_catch. }
  intros t w3 _.
  apply harmless_at_guarded;
    [apply tame_getRequestCountByIp, lookup_not_insert| |].
  2:{ intros e w' _. apply harmless_serve_catch. }
  intros ipCount w4 _.
  apply harmless_at_guarded;
    [apply tame_getRequestCountByAddress, lookup_not_insert| |].
  2:{ intros e w' _. apply harmless_serve_catch. }
  intros addrCount w5 _. apply harmless_serve_checked.
Qed.

End Harmless.

(** ** Quota counts and the way to the rate limits *)

Section Counts.

Variable env : Env.

Lemma count_by_ip_eq ip since w :
  getRequestCountByIp env ip since w
  = (match count_reply env (calls w) with
     | CountThrows e => Raise e
     | CountNotOk | CountNotArray => Done 0
     | CountRows =>
         Done (Z.of_nat (List.length
                           (List.filter (matches_ip ip since) (store w))))
     end,
     after_call env w (EvCountByIp ip since)).
Proof.
  unfold getRequestCountByIp, bind, external.
  now destruct (count_reply env (calls w)).
Qed.

Lemma count_by_address_eq address since w :
  getRequestCountByAddress env address since w
  = (match count_reply env (calls w) with
     | CountThrows e => Raise e
     | CountNotOk | CountNotArray => Done 0
     | CountRows =>
         Done (Z.of_nat (List.length
                           (List.filter (matches_address address since)
                                        (store w))))
     end,
     after_call env w (EvCountByAddress address since)).
Proof.
  unfold getRequestCountByAddress, bind, external.
  now destruct (count_reply env (calls w)).
Qed.

Lemma matches_ip_failed ip since a :
  success (row a) = false -> matches_ip ip since a = false.
Proof.
  intros H. unfold matches_ip. rewrite H. cbn.
  now rewrite Bool.andb_false_r.
Qed.

Lemma matches_address_failed address since a :
  success (row a) = false -> matches_address address since a = false.
Proof.
  intros H. unfold matches_address. rewrite H. cbn.
  now rewrite Bool.andb_false_r.
Qed.

Lemma filter_failed (f : AuditRow -> bool) (rows : list AuditRow) :
  (forall a, success (row a) = false -> f a = false) ->
  Forall (fun a => success (row a) = false) rows ->
  List.filter f rows = [].
Proof.
  intros Hf. induction 1 as [|a rows Ha _ IH]; cbn; [reflexivity|].
  now rewrite (Hf a Ha).
Qed.

Lemma fetchFaucetConfig_ok w cfg rest :
  Js.truthy (service_role_key env) = true ->
  config_reply env (calls w) = ConfigRows (cfg :: rest) ->
  fetchFaucetConfig env w = (Done cfg, after_call env w EvFetchConfig).
Proof.
  intros Hk Hc. unfold fetchFaucetConfig. rewrite Hk. cbn [negb].
  unfold bind, external. now rewrite Hc.
Qed.

(** A request with a body, a config and an address reaches the rate
    limits with the two counts the table gave. *)
Lemma serve_reaches_checked req w cfg rest recv ipCount addrCount w2 w3 :
  String.eqb (method req) "OPTIONS" = false ->
  body req = BodyJson recv ->
  Js.truthy (service_role_key env) = true ->
  config_reply env (calls w) = ConfigRows (cfg :: rest) ->
  Js.truthy (requester_ip req) = true ->
  let w1 := after_call env w EvFetchConfig in
  let since := now w1 - 24 * 60 * 60 * 1000 in
  getRequestCountByIp env (requester_ip req) since w1 = (Done ipCount, w2) ->
  getRequestCountByAddress env (template recv) since w2
  = (Done addrCount, w3) ->
  serve env req w
  = serve_checked env (requester_ip req) (requester_agent req) recv
      (prefix cfg) (requests_limit cfg) ipCount addrCount w3.
Proof.
  intros Hm Hb Hk Hc Hip w1 since E2 E3. unfold serve. rewrite Hm, Hb.
  unfold guarded at 1. cbn [lift read_receiver].
  rewrite (guarded_done _ _ _ _ _ _ (fetchFaucetConfig_ok w cfg rest Hk Hc)).
  rewrite Hip. cbn [negb].
  unfold guarded at 1. cbn [Date_now].
  fold w1. fold since.
  rewrite (guarded_done _ _ _ _ _ _ E2).
  now rewrite (guarded_done _ _ _ _ _ _ E3).
Qed.

Lemma insert_footprint r w :
  exists logs,
    trace (snd (insertUserRequest env r w))
    = (trace w ++ EvInsert r :: logs)%list
    /\ Forall (fun ev => is_chain ev = false) logs.
Proof.
  rewrite insert_eq.
  destruct (insert_reply env (calls w)) as [e|text|]; cbn.
  - exists []. auto.
  - exists [EvConsoleError "Failed to log user request:" text]. auto.
  - exists []. auto.
Qed.

Lemma insert_returns r w :
  (forall e, insert_reply env (calls w) <> InsertThrows e) ->
  insertUserRequest env r w = (Done tt, snd (insertUserRequest env r w)).
Proof.
  intros Hn. rewrite insert_eq.
  destruct (insert_reply env (calls w)) as [e|text|]; try reflexivity.
  now destruct (Hn e).
Qed.

Lemma serve_rate_limited_eq ip ua recv text limit kind w :
  (forall e, insert_reply env (calls w) <> InsertThrows e) ->
  exists t,
    JSON_stringify (rate_limit_body text limit kind) = Done (Some t)
    /\ serve_rate_limited env ip ua recv text limit kind w
       = (Done (mkResponse 429 (Some t)),
          snd (insertUserRequest env (failed_request ip ua recv) w)).
Proof.
  intros Hn. destruct (rate_limit_body_text text limit kind) as [t Ht].
  exists t. split; [exact Ht|]. unfold serve_rate_limited.
  rewrite (guarded_done _ _ _ _ _ _ (insert_returns _ w Hn)).
  now apply respond_done.
Qed.

Lemma serve_invalid_address_eq ip ua recv PREFIX w :
  (forall e, insert_reply env (calls w) <> InsertThrows e) ->
  exists t,
    serve_invalid_address env ip ua recv PREFIX w
    = (Done (mkResponse 400 (Some t)),
       snd (insertUserRequest env (failed_request ip ua recv) w)).
Proof.
  intros Hn.
  destruct (invalid_body_text
              ("Invalid receiver address. Must start with: " ++ PREFIX))
    as [t Ht].
  exists t. unfold serve_invalid_address.
  rewrite (guarded_done _ _ _ _ _ _ (insert_returns _ w Hn)).
  now apply respond_done.
Qed.

Lemma rate_limit_body_kind text limit kind t :
  JSON_stringify (rate_limit_body text limit kind) = Done (Some t) ->
  rate_limited kind (mkResponse 429 (Some t)).
Proof.
  intros H. split; [reflexivity|]. eexists. exact H.
Qed.

Lemma requests_limit_positive cfg :
  0 <= requests_limit_per_day cfg -> 0 < requests_limit cfg.
Proof.
  unfold requests_limit. destruct (Z.eqb_spec (requests_limit_per_day cfg) 0); lia.
Qed.

End Counts.

(** ** Scenarios *)

(** Happy path: no earlier payout, a well-formed address. *)
Example scenario_happy_path :
  let out := serve (example_env steady_accounts accepted table_answers)
                   (example_request (Some "203.0.113.7") "addr_safro1xyz")
                   (world_with []) in
  option_map status (match fst out with Done r => Some r | _ => None end)
  = Some 200
  /\ List.map (fun a => (success (row a), transaction_hash (row a)))
              (store (snd out))
     = [(true, Some "A1B2C3")]
  /\ count_events is_broadcast (trace (snd out)) = 1%nat.
Proof. vm_compute. repeat split. Qed.

(** The broadcast goes through on the third attempt: the result carries the
    third attempt's hash, and three clients were opened. *)
Example scenario_third_attempt :
  let out := sendTokens (example_env steady_accounts third_time_lucky
                                     table_answers)
                        "addr_safro1xyz" (world_with []) in
  option_map pr_transactionHash
             (match fst out with Done r => Some r | _ => None end)
  = Some "C0FFEE"
  /\ count_events is_connect (trace (snd out)) = 3%nat
  /\ count_events is_broadcast (trace (snd out)) = 3%nat.
Proof. vm_compute. repeat split. Qed.

(** Every broadcast refused: five clients, five broadcasts, and the error
    names the refusal. *)
Example scenario_all_refused :
  let out := sendTokens (example_env steady_accounts refused table_answers)
                        "addr_safro1xyz" (world_with []) in
  fst out
  = Raise (Error "Transaction failed after multiple retries: account sequence mismatch, expected 8, got 7")
  /\ count_events is_connect (trace (snd out)) = 5%nat
  /\ count_events is_broadcast (trace (snd out)) = 5%nat.
Proof. vm_compute. repeat split. Qed.

(** The sequence reads 7 five times and 8 from the confirmation read on: the
    stabilizer returns 8, after eleven reads (five polls, the failed
    confirmation, four more polls and the second confirmation). *)
Example scenario_confirmation_fails_once :
  let out := waitForSequenceStable
               (example_env bumped_accounts accepted table_answers)
               "addr_safro1faucet" 0 10000 (world_with []) in
  fst out = Done 8 /\ calls (snd out) = 11%nat.
Proof. vm_compute. repeat split. Qed.

(** A sequence that never rests: thirteen polls in ten seconds, the last
    one read is returned. *)
Example scenario_never_stable :
  let out := waitForSequenceStable
               (example_env restless_accounts accepted table_answers)
               "addr_safro1faucet" 0 10000 (world_with []) in
  fst out = Done 12 /\ calls (snd out) = 13%nat
  /\ now (snd out) - now (world_with []) = 10400.
Proof. vm_compute. repeat split. Qed.

(** * The claims *)

(** A rate-limit branch of [serve_checked]: the response is the 429 of that
    branch, and the rows of the table that do not apply are vacuous. *)
Ltac denied_with Hins :=
  match goal with
  | |- context [serve_rate_limited ?env ?ip ?ua ?rv ?text ?l ?kind ?w0] =>
      let t := fresh "t" in
      let Ht := fresh "Ht" in
      let E := fresh "E" in
      destruct (serve_rate_limited_eq env ip ua rv text l kind w0 Hins)
        as (t & Ht & E);
      rewrite E; eexists _, _; split; [reflexivity|];
      repeat match goal with |- _ /\ _ => split end; intros; try lia;
      apply (rate_limit_body_kind _ _ _ _ Ht)
  end.

(** C1. A request that gets as far as the rate limits (it is not a
    preflight, its body and the config could be read, its IP is known, and
    both count queries returned) is decided by the table, first true row
    wins, with the limit [config.requests_limit_per_day || 3]:
    both counts at or over the limit give 429 with [rateLimitType] "both",
    only the IP count gives 429 "ip", only the address count gives 429
    "address", and otherwise the request goes on and the answer is not a 429.
    A count equal to the limit denies.  (The 429 is sent once the denied
    attempt has been logged; an insert that throws leads to the [catch]
    clause instead.) *)
Theorem quota_decision_table (env : Env) (req : Request) (w : World)
    (cfg : FaucetConfig) (rest : list FaucetConfig) (recv : option string)
    (ipCount addrCount : Z) (w2 w3 : World) :
  String.eqb (method req) "OPTIONS" = false ->
  body req = BodyJson recv ->
  Js.truthy (service_role_key env) = true ->
  config_reply env (calls w) = ConfigRows (cfg :: rest) ->
  Js.truthy (requester_ip req) = true ->
  let w1 := after_call env w EvFetchConfig in
  let since := now w1 - 24 * 60 * 60 * 1000 in
  let limit := requests_limit cfg in
  getRequestCountByIp env (requester_ip req) since w1 = (Done ipCount, w2) ->
  getRequestCountByAddress env (template recv) since w2
  = (Done addrCount, w3) ->
  (forall e, insert_reply env (calls w3) <> InsertThrows e) ->
  exists r w',
    serve env req w = (Done r, w')
    /\ (limit <= ipCount -> limit <= addrCount -> rate_limited "both" r)
    /\ (limit <= ipCount -> addrCount < limit -> rate_limited "ip" r)
    /\ (ipCount < limit -> limit <= addrCount -> rate_limited "address" r)
    /\ (ipCount < limit -> addrCount < limit -> status r <> 429).
Proof.
  intros Hm Hb Hk Hc Hip w1 since limit E2 E3 Hins.
  rewrite (serve_reaches_checked env req w cfg rest recv ipCount addrCount
             w2 w3 Hm Hb Hk Hc Hip E2 E3).
  fold limit. unfold serve_checked.
  destruct (Z.geb_spec ipCount limit) as [Hi|Hi];
    destruct (Z.geb_spec addrCount limit) as [Ha|Ha]; cbn [andb].
  - denied_with Hins.
  - denied_with Hins.
  - denied_with Hins.
  - assert (H500 : 500 <> 429) by lia.
    assert (H400 : 400 <> 429) by lia.
    assert (H200 : 200 <> 429) by lia.
    destruct (invalid_receiver recv (prefix cfg)).
    + destruct (settles_serve_invalid_address env (fun _ => True)
                  (fun s => s <> 429) (fun _ => I) (fun _ _ => I)
                  H500 (requester_ip req) (requester_agent req) recv
                  (prefix cfg) w3 H400)
        as (r & w' & evs & E & Hs & _).
      rewrite E. exists r, w'. split; [reflexivity|].
      cbv beta in Hs.
      repeat match goal with |- _ /\ _ => split end; intros; lia.
    + destruct (settles_serve_dispatch env (fun _ => True)
                  (fun s => s <> 429) (fun _ => I) (fun _ _ => I)
                  H500 (fun _ _ => I) (fun _ _ => I)
                  (requester_ip req) (requester_agent req) recv
                  w3 H200)
        as (r & w' & evs & E & Hs & _).
      rewrite E. exists r, w'. split; [reflexivity|].
      cbv beta in Hs.
      repeat match goal with |- _ /\ _ => split end; intros; lia.
Qed.

(** Exactly at the limit: three payouts to this IP in the last 24 hours,
    limit 3, a fresh address. *)
Lemma quota_decision_table_witness :
  exists r w',
    serve (example_env steady_accounts accepted table_answers)
          (example_request (Some "203.0.113.7") "addr_safro1xyz")
          (world_with [earlier_payout "203.0.113.7" "addr_safro1aaa";
                       earlier_payout "203.0.113.7" "addr_safro1bbb";
                       earlier_payout "203.0.113.7" "addr_safro1ccc"])
    = (Done r, w')
    /\ rate_limited "ip" r.
Proof.
  edestruct (quota_decision_table
               (example_env steady_accounts accepted table_answers)
               (example_request (Some "203.0.113.7") "addr_safro1xyz")
               (world_with [earlier_payout "203.0.113.7" "addr_safro1aaa";
                            earlier_payout "203.0.113.7" "addr_safro1bbb";
                            earlier_payout "203.0.113.7" "addr_safro1ccc"])
               example_config [] (Some "addr_safro1xyz") 3 0)
    as (r & w' & E & _ & Hip & _ & _).
  - reflexivity.
  - reflexivity.
  - reflexivity.
  - reflexivity.
  - reflexivity.
  - reflexivity.
  - reflexivity.
  - intros e. discriminate.
  - exists r, w'. split; [exact E|]. apply Hip; vm_compute; congruence.
Defined.




(** C3.  Reads are numbered from the call of [waitForSequenceStable].
    (1) If read [j] is the first one that ends a run of six equal reads
    (five consecutive polls seeing [v] and the confirmation read seeing it
    again), and the reads before the last poll fit into [maxWait] (each with
    its latency and the pause of at most a second behind it), the stabilizer
    returns [v].
    (2) If every read differs from the one before it, the stabilizer polls
    until [maxWait] has gone by and then returns the value it read last; it
    does not throw. *)
Theorem waitForSequenceStable_spec (env : Env) (address : string)
    (expected maxWait : Z) (w : World) :
  (forall (j : nat) (v : Z),
      (forall k, (k <= j)%nat -> answers env (calls w + k)) ->
      (5 <= j)%nat ->
      (forall k, (j - 5 <= k <= j)%nat -> seen env (calls w + k) = v) ->
      (forall j', (5 <= j' < j)%nat ->
         ~ (forall k, (j' - 5 <= k <= j')%nat ->
              seen env (calls w + k) = seen env (calls w + j'))) ->
      spent env (calls w) (j - 1) < maxWait ->
      fst (waitForSequenceStable env address expected maxWait w) = Done v)
  /\
  ((forall k, answers env (calls w + k)) ->
   (forall k, seen env (calls w + k) <> seen env (calls w + S k)) ->
   0 < maxWait ->
   exists n w',
     waitForSequenceStable env address expected maxWait w
     = (Done (seen env (calls w + n)), w')
     /\ calls w' = (calls w + S n)%nat
     /\ maxWait <= now w' - now w).
Proof.
  pose proof (passes_enough maxWait 800 ltac:(lia)) as Hpasses.
  split.
  - intros j v Hans Hj Hwin Hfirst Htime. unfold waitForSequenceStable.
    rewrite (bind_done Date_now _ w (now w) w eq_refl).
    apply (stable_loop_window env address (now w) maxWait (calls w) j v
             Hans Hj Hwin Hfirst Htime) with (d := 0%nat); cbn [spent];
      try lia.
    unfold passes. lia.
  - intros Hans Hchg Hpos. unfold waitForSequenceStable.
    rewrite (bind_done Date_now _ w (now w) w eq_refl).
    destruct (Hans 0%nat) as [x Hx]. rewrite Nat.add_0_r in Hx.
    assert (Hsx : seen env (calls w + 0) = sequence_of x).
    { rewrite Nat.add_0_r. now apply seen_ok. }
    assert (Hfuel : exists fuel, passes maxWait 800 = S fuel
                                 /\ maxWait <= 800 * Z.of_nat fuel).
    { unfold passes in *. exists (Z.to_nat (maxWait / 800) + 1)%nat.
      split; lia. }
    destruct Hfuel as (fuel & -> & Hleft).
    assert (Hnext :
              waitForSequenceStable_loop env (S fuel) address (now w) maxWait
                expected 0 w
              = waitForSequenceStable_loop env fuel address (now w) maxWait
                  (seen env (calls w + 0)) 1
                  (later (after_call env w (EvGetAccount address)) 800)).
    { rewrite Hsx.
      destruct (Z.eq_dec (sequence_of x) expected) as [He|Hne].
      - rewrite stable_pass_same with (x := x)
          by (unfold requiredStableChecks; first [lia | assumption]).
        now rewrite He.
      - rewrite stable_pass_changed with (x := x)
          by first [lia | assumption].
        reflexivity. }
    rewrite Hnext.
    assert (Hlat : 0 <= Z.of_N (latency env (calls w))) by lia.
    destruct (stable_loop_changing env address (now w) maxWait (calls w)
                Hans Hchg fuel
                (later (after_call env w (EvGetAccount address)) 800) 0%nat)
      as (n & w' & E & Hc & Ht); cbn [calls now later after_call]; try lia.
    exists n, w'. auto.
Qed.

(** The sequence reads 3, 4, then 7 six times: 7 is returned.  A sequence
    that moves with every read: the last value read is returned. *)
Lemma waitForSequenceStable_spec_witness :
  fst (waitForSequenceStable
         (example_env settling_accounts accepted table_answers)
         "addr_safro1faucet" 0 10000 (world_with [])) = Done 7
  /\ exists n w',
       waitForSequenceStable
         (example_env restless_accounts accepted table_answers)
         "addr_safro1faucet" 0 10000 (world_with [])
       = (Done (Z.of_nat n), w')
       /\ calls w' = S n
       /\ 10000 <= now w' - now (world_with []).
Proof.
  split.
  - apply (proj1 (waitForSequenceStable_spec
                    (example_env settling_accounts accepted table_answers)
                    "addr_safro1faucet" 0 10000 (world_with []))
             7%nat 7).
    + intros k _. eexists. reflexivity.
    + lia.
    + intros k Hk.
      change (seen _ (calls (world_with []) + k))
        with (if (k <? 2)%nat then Z.of_nat k + 3 else 7).
      destruct (Nat.ltb_spec k 2); [lia|reflexivity].
    + intros j' Hj' Hall.
      assert (Hcase : j' = 5%nat \/ j' = 6%nat) by lia.
      destruct Hcase as [-> | ->].
      * specialize (Hall 0%nat ltac:(lia)). vm_compute in Hall. discriminate.
      * specialize (Hall 1%nat ltac:(lia)). vm_compute in Hall. discriminate.
    + vm_compute. reflexivity.
  - destruct (proj2 (waitForSequenceStable_spec
                       (example_env restless_accounts accepted table_answers)
                       "addr_safro1faucet" 0 10000 (world_with [])))
      as (n & w' & E & Hc & Ht).
    + intros k. eexists. reflexivity.
    + intros k. unfold seen. cbn. lia.
    + lia.
    + exists n, w'. unfold seen in E. cbn in E, Hc. auto.
Defined.

(** C4.  At a poll that sees [lastSequence] again and brings [stableCount]
    to the threshold of 5, the stabilizer waits one second and reads the
    account exactly once more.  If that read agrees it is returned; if it
    differs nothing is returned at this point: the loop goes on from the
    differing read as its new [lastSequence] with [stableCount] 1. *)
Theorem confirmation_read_restarts (env : Env) (address : string)
    (fuel : nat) (start maxWait last count : Z) (w : World)
    (x y : option Z) :
  now w - start < maxWait ->
  account_reply env (calls w) = RpcOk x ->
  sequence_of x = last ->
  requiredStableChecks <= count + 1 ->
  account_reply env (S (calls w)) = RpcOk y ->
  let w2 := after_call env
              (later (after_call env w (EvGetAccount address)) 1000)
              (EvGetAccount address) in
  calls w2 = S (S (calls w))
  /\ now w2 = now w + Z.of_N (latency env (calls w)) + 1000
              + Z.of_N (latency env (S (calls w)))
  /\ (sequence_of y = last ->
      waitForSequenceStable_loop env (S fuel) address start maxWait last
        count w = (Done (sequence_of y), w2))
  /\ (sequence_of y <> last ->
      waitForSequenceStable_loop env (S fuel) address start maxWait last
        count w
      = waitForSequenceStable_loop env fuel address start maxWait
          (sequence_of y) 1 w2).
Proof.
  intros Ht Hx He Hc Hy w2.
  pose proof (stable_pass_confirm env address fuel start maxWait last count
                w x y Ht Hx He Hc Hy) as E.
  cbv zeta in E. fold w2 in E.
  split; [reflexivity|]. split; [reflexivity|]. split; intros Hcmp; rewrite E.
  - destruct (Z.eqb_spec (sequence_of y) last); [reflexivity|contradiction].
  - destruct (Z.eqb_spec (sequence_of y) last); [contradiction|reflexivity].
Qed.

(** Four reads of 7 are behind; the fifth poll sees 7, the confirmation
    read sees 8: the loop goes on with 8 and a count of 1. *)
Lemma confirmation_read_restarts_witness :
  let env := example_env bumped_accounts accepted table_answers in
  let w := mkWorld 1700000003200 4 [] [] in
  let w2 := after_call env
              (later (after_call env w (EvGetAccount "addr_safro1faucet")) 1000)
              (EvGetAccount "addr_safro1faucet") in
  waitForSequenceStable_loop env 9 "addr_safro1faucet" 1700000000000 10000
    7 4 w
  = waitForSequenceStable_loop env 8 "addr_safro1faucet" 1700000000000 10000
      8 1 w2.
Proof.
  intros env w w2.
  apply (confirmation_read_restarts env "addr_safro1faucet" 8
           1700000000000 10000 7 4 w (Some 7) (Some 8)).
  - reflexivity.
  - reflexivity.
  - reflexivity.
  - unfold requiredStableChecks. lia.
  - reflexivity.
  - cbn. lia.
Defined.

(** C5.  With a usable config and a node that accepts connections, if
    every broadcast raises an error (a sequence conflict or any other), the
    dispatcher makes exactly 5 attempts, each with a fresh client and at
    most one broadcast, and then throws "Transaction failed after multiple
    retries:" followed by the message of the error it caught last.  There
    is no sixth attempt and no result. *)
Theorem retry_bound (env : Env) (receiver : string) (w : World)
    (cfg : FaucetConfig) (rest : list FaucetConfig) (sender : string) :
  Js.truthy (service_role_key env) = true ->
  config_reply env (calls w) = ConfigRows (cfg :: rest) ->
  Js.truthy (mnemonic cfg) = true ->
  12 <= Js.split_length " " (mnemonic cfg) ->
  validateMnemonic env (mnemonic cfg) = true ->
  Js.truthy (rpc_endpoint cfg) = true ->
  Js.truthy (cfg_denom cfg) = true ->
  Js.truthy (cfg_amount cfg) = true ->
  Js.truthy (prefix cfg) = true ->
  fromMnemonic env (mnemonic cfg) (prefix cfg) = RpcOk sender ->
  (forall k, connect_reply env k = RpcOk tt) ->
  (forall k, exists e, broadcast_reply env k = RpcError e) ->
  exists last w' evs,
    sendTokens env receiver w
    = (Raise (Error ("Transaction failed after multiple retries: " ++ last)),
       w')
    /\ trace w' = (trace w ++ evs)%list
    /\ count_events is_connect evs = 5%nat
    /\ (count_events is_broadcast evs <= 5)%nat
    /\ last_tx_error evs = Some last.
Proof.
  intros Hk Hc Hm Hwords Hvalid Hrpc Hdenom Hamount Hprefix Hwallet
         Hconnect Hrefused.
  unfold sendTokens.
  rewrite (bind_done _ _ _ _ _ (fetchFaucetConfig_ok env w cfg rest Hk Hc)).
  rewrite Hm, Hvalid, Hrpc, Hdenom, Hamount, Hprefix, Hwallet.
  destruct (Z.ltb_spec (Js.split_length " " (mnemonic cfg)) 12); [lia|].
  cbn [negb orb of_rpc].
  unfold try_catch.
  rewrite (bind_done (lift (Done sender)) _ _ sender _ eq_refl).
  match goal with
  | |- context [sendTokens_retry env 5 None ?endpoint
                  (sendTokens_attempt env sender receiver ?coins ?memo ?url)
                  ?w0] =>
      destruct (retry_exhausts env Hconnect Hrefused sender receiver coins
                  memo url endpoint 5 None w0)
        as (w' & evs & E & Ht & Hcn & Hbr & Hlast)
  end.
  rewrite E.
  rewrite bind_console_error.
  specialize (Hlast ltac:(lia)).
  exists (last_or (txError_message None) evs). eexists.
  exists ([EvFetchConfig] ++ evs
          ++ [EvConsoleError "Error sending tokens:"
                ("Transaction failed after multiple retries: "
                 ++ last_or (txError_message None) evs)])%list.
  split; [reflexivity|]. cbn [trace after_call] in Ht |- *.
  rewrite Ht, <- !List.app_assoc, !count_events_app, Hcn,
    !last_tx_error_app.
  repeat match goal with |- _ /\ _ => split end.
  - reflexivity.
  - reflexivity.
  - cbn. lia.
  - cbn. unfold last_or. destruct (last_tx_error evs); congruence.
Qed.

(** A quiescent account and a node that refuses every broadcast. *)
Lemma retry_bound_witness :
  exists last w' evs,
    sendTokens (example_env steady_accounts refused table_answers)
               "addr_safro1xyz" (world_with [])
    = (Raise (Error ("Transaction failed after multiple retries: " ++ last)),
       w')
    /\ trace w' = (trace (world_with []) ++ evs)%list
    /\ count_events is_connect evs = 5%nat
    /\ (count_events is_broadcast evs <= 5)%nat
    /\ last_tx_error evs = Some last.
Proof.
  apply (retry_bound (example_env steady_accounts refused table_answers)
           "addr_safro1xyz" (world_with []) example_config []
           "addr_safro1faucet");
    first [ reflexivity
          | apply Z.leb_le; reflexivity
          | intros k; reflexivity
          | intros k; eexists; reflexivity ].
Defined.

(** C6.  A request that passes both rate limits and whose [receiver] is
    missing, empty or does not start with the configured prefix never
    reaches the chain node: between its arrival and the answer no client is
    opened, no account is read and nothing is broadcast, whatever the audit
    table does.  The answer is 400, sent once the failed attempt has been
    logged (an insert call that throws leads to the [catch] clause
    instead). *)
Theorem invalid_address_never_dispatched (env : Env) (req : Request)
    (w : World) (cfg : FaucetConfig) (rest : list FaucetConfig)
    (recv : option string) (ipCount addrCount : Z) (w2 w3 : World) :
  String.eqb (method req) "OPTIONS" = false ->
  body req = BodyJson recv ->
  Js.truthy (service_role_key env) = true ->
  config_reply env (calls w) = ConfigRows (cfg :: rest) ->
  Js.truthy (requester_ip req) = true ->
  let w1 := after_call env w EvFetchConfig in
  let since := now w1 - 24 * 60 * 60 * 1000 in
  getRequestCountByIp env (requester_ip req) since w1 = (Done ipCount, w2) ->
  getRequestCountByAddress env (template recv) since w2
  = (Done addrCount, w3) ->
  ipCount < requests_limit cfg ->
  addrCount < requests_limit cfg ->
  invalid_receiver recv (prefix cfg) = true ->
  exists r w' evs,
    serve env req w = (Done r, w')
    /\ trace w' = (trace w ++ evs)%list
    /\ Forall (fun ev => is_chain ev = false) evs
    /\ ((forall e, insert_reply env (calls w3) <> InsertThrows e) ->
        status r = 400).
Proof.
  intros Hm Hb Hk Hc Hip w1 since E2 E3 Hi Ha Hinv.
  rewrite (serve_reaches_checked env req w cfg rest recv ipCount addrCount
             w2 w3 Hm Hb Hk Hc Hip E2 E3).
  unfold serve_checked.
  destruct (Z.geb_spec ipCount (requests_limit cfg)); [lia|].
  destruct (Z.geb_spec addrCount (requests_limit cfg)); [lia|].
  cbn [andb]. rewrite Hinv.
  destruct (settles_serve_invalid_address env
              (fun ev => is_chain ev = false) (fun _ => True)
              (fun _ => eq_refl) (fun _ _ => eq_refl) I
              (requester_ip req) (requester_agent req) recv (prefix cfg)
              w3 I)
    as (r & w' & evs & E & _ & Ht & Hquiet).
  rewrite count_by_ip_eq in E2. rewrite count_by_address_eq in E3.
  injection E2 as _ <-. injection E3 as _ <-.
  exists r, w',
    ([EvFetchConfig; EvCountByIp (requester_ip req) since;
      EvCountByAddress (template recv) since] ++ evs)%list.
  split; [exact E|]. split; [|split].
  - rewrite Ht. unfold w1. cbn [trace after_call].
    rewrite <- !List.app_assoc. reflexivity.
  - apply Forall_app. split; [repeat constructor|exact Hquiet].
  - intros Hins.
    destruct (serve_invalid_address_eq env (requester_ip req)
                (requester_agent req) recv (prefix cfg) _ Hins) as [t E'].
    rewrite E' in E. injection E as <- _. reflexivity.
Qed.

(** A Cosmos Hub address sent to a faucet whose prefix is [addr_safro]. *)
Lemma invalid_address_never_dispatched_witness :
  exists r w' evs,
    serve (example_env steady_accounts accepted table_answers)
          (example_request (Some "203.0.113.7") "cosmos1xyz")
          (world_with [])
    = (Done r, w')
    /\ trace w' = (trace (world_with []) ++ evs)%list
    /\ Forall (fun ev => is_chain ev = false) evs
    /\ status r = 400.
Proof.
  edestruct (invalid_address_never_dispatched
            (example_env steady_accounts accepted table_answers)
            (example_request (Some "203.0.113.7") "cosmos1xyz")
            (world_with []) example_config [] (Some "cosmos1xyz") 0 0)
    as (r & w' & evs & E & Ht & Hquiet & Hstatus).
  - reflexivity.
  - reflexivity.
  - reflexivity.
  - reflexivity.
  - reflexivity.
  - reflexivity.
  - reflexivity.
  - reflexivity.
  - reflexivity.
  - reflexivity.
  - exists r, w', evs. repeat split; auto.
    apply Hstatus. intros e. discriminate.
Defined.

(** C7.  In an attempt whose broadcast succeeds, if every later account
    read stays below [stableSeq + 1], so that the confirmation poll runs
    into its 15 second timeout, and the chain id and the balances can be
    read, the dispatcher still returns the success result of that attempt,
    carrying the hash of the broadcast transaction. *)
Theorem broadcast_success_survives_poll_timeout (env : Env) (retries : nat)
    (txError : option JsError) (endpoint sender receiver : string)
    (coins : list Coin) (memo url : string) (w w2 : World) (s : Z)
    (a : option Z) (tx : TxResult) :
  connect_reply env (calls w) = RpcOk tt ->
  waitForSequenceStable env sender 0 10000
    (after_call env w (EvConnect endpoint)) = (Done s, w2) ->
  account_reply env (calls w2) = RpcOk a ->
  sequence_of a = s ->
  broadcast_reply env (S (calls w2)) = RpcOk tx ->
  (forall k, (S (S (calls w2)) <= k)%nat ->
     exists b, account_reply env k = RpcOk b /\ sequence_of b < s + 1) ->
  (forall k, exists c, chainId_reply env k = RpcOk c) ->
  (forall k, exists b, balances_reply env k = RpcOk b) ->
  exists r w',
    sendTokens_retry env (S retries) txError endpoint
      (sendTokens_attempt env sender receiver coins memo url) w
    = (Done r, w')
    /\ pr_success r = true
    /\ pr_transactionHash r = transactionHash tx
    /\ 15000 <= now w' - now w2.
Proof.
  intros Hconnect Estable Ha Hs Htx Hlow Hchain Hbal.
  set (wb := after_call env
               (after_call env (later w2 1000) (EvGetAccount sender))
               (EvBroadcast sender receiver coins memo)).
  destruct (report_after_timeout env sender receiver coins memo url tx s wb)
    as (r & w' & E & Hok & Hhash & Ht); auto.
  exists r, w'. split.
  - apply retry_returns; [exact Hconnect|].
    unfold sendTokens_attempt.
    rewrite (bind_done _ _ _ _ _ Estable), bind_setTimeout.
    erewrite bind_done by (apply getAccount_ok; exact Ha).
    rewrite Hs, Z.eqb_refl. cbn [negb].
    erewrite bind_done
      by (unfold signAndBroadcast; apply rpc_call_ok; exact Htx).
    exact E.
  - repeat split; auto.
    subst wb. cbn [now after_call later calls] in Ht.
    pose proof (N2Z.is_nonneg (latency env (calls w2))).
    pose proof (N2Z.is_nonneg (latency env (S (calls w2)))).
    lia.
Qed.

(** A node that accepts the broadcast while the account sequence is still
    read as 7 long after. *)
Lemma broadcast_success_survives_poll_timeout_witness :
  let env := example_env steady_accounts accepted table_answers in
  exists r w',
    sendTokens_retry env 5 None "https://rpc.example.org"
      (sendTokens_attempt env "addr_safro1faucet" "addr_safro1xyz"
         [mkCoin "usaf" "250000000"] "faucet" "https://explorer/tx/")
      (world_with [])
    = (Done r, w')
    /\ pr_success r = true
    /\ pr_transactionHash r = "A1B2C3".
Proof.
  intros env.
  destruct (broadcast_success_survives_poll_timeout env 4 None
              "https://rpc.example.org" "addr_safro1faucet" "addr_safro1xyz"
              [mkCoin "usaf" "250000000"] "faucet" "https://explorer/tx/"
              (world_with [])
              (snd (waitForSequenceStable env "addr_safro1faucet" 0 10000
                      (after_call env (world_with [])
                         (EvConnect "https://rpc.example.org"))))
              7 (Some 7) (mkTxResult "A1B2C3" 1024 61234 200000))
    as (r & w' & E & Hok & Hhash & _).
  - reflexivity.
  - vm_compute. reflexivity.
  - reflexivity.
  - reflexivity.
  - reflexivity.
  - intros k _. exists (Some 7). split; [reflexivity|cbn; lia].
  - intros k. eexists. reflexivity.
  - intros k. eexists. reflexivity.
  - exists r, w'. auto.
Defined.



(** C9.  [JSONStringifyWithBigInt] never throws, and its text is the plain
    JSON text of the value in which every bigint, at any depth, has been
    replaced by its decimal string; that string reads back as exactly the
    same integer.  The gas figures of the success response are put in as
    such decimal strings by [sendTokens] already (a figure of [0n] is left
    out of the response). *)
Theorem bigints_serialized_as_decimal_strings :
  (forall obj,
      exists text,
        JSONStringifyWithBigInt obj = Done text
        /\ JSON_stringify (Json.bigints_as_strings obj) = Done text
        /\ Json.has_bigint (Json.bigints_as_strings obj) = false)
  /\ (forall n, bigint_replacer (JsBigInt n) = JsString (Js.toString n))
  /\ (forall n, Js.parseInteger (Js.toString n) = Some n)
  /\ (forall g,
         (bigint_field g = None <-> g = 0)
         /\ (forall s, bigint_field g = Some s -> Js.parseInteger s = Some g)).
Proof.
  repeat match goal with |- _ /\ _ => split end.
  - intros obj. destruct (JSONStringifyWithBigInt_ends obj) as [text E].
    exists text. split; [exact E|]. split.
    + now rewrite <- JSONStringifyWithBigInt_plain.
    + apply (bigints_as_strings_clean (S (Json.depth obj))). lia.
  - reflexivity.
  - apply parseInteger_toString.
  - intros g. unfold bigint_field. split.
    + destruct (Z.eqb_spec g 0); split; congruence.
    + intros s. destruct (Z.eqb_spec g 0); [discriminate|].
      intros E. injection E as <-. apply parseInteger_toString.
Qed.

(** A gas figure beyond 2^53 and a height given as a bigint. *)
Lemma bigints_serialized_as_decimal_strings_witness :
  JSONStringifyWithBigInt
    (JsObject [("height", JsBigInt 9007199254740993);
               ("gasUsed", js_of_optional (bigint_field 61234))])
  = JSON_stringify
      (JsObject [("height", JsString "9007199254740993");
                 ("gasUsed", JsString "61234")])
  /\ Js.parseInteger "9007199254740993" = Some 9007199254740993
  /\ Js.parseInteger "61234" = Some 61234.
Proof.
  split; [|split].
  - destruct (proj1 bigints_serialized_as_decimal_strings
                (JsObject [("height", JsBigInt 9007199254740993);
                           ("gasUsed", js_of_optional (bigint_field 61234))]))
      as (text & E1 & E2 & _).
    rewrite E1. vm_compute in E2. vm_compute. symmetry. exact E2.
  - apply (proj1 (proj2 (proj2 bigints_serialized_as_decimal_strings))
             9007199254740993).
  - apply (proj2 (proj2 (proj2 (proj2 bigints_serialized_as_decimal_strings))
                    61234)).
    reflexivity.
Defined.

(** C10.  A count query that comes back not OK, or with a body that is not
    an array, counts as 0 whatever the table holds.  So with a limit that
    is not negative, a request is not answered 429 when both count queries
    fail, nor when one fails and the other count is under the limit: the
    key whose query failed is let through even if it is at or over the
    limit. *)
Theorem quota_check_fails_open (env : Env) :
  (forall ip since w,
      count_fails (count_reply env (calls w)) ->
      fst (getRequestCountByIp env ip since w) = Done 0)
  /\ (forall address since w,
         count_fails (count_reply env (calls w)) ->
         fst (getRequestCountByAddress env address since w) = Done 0)
  /\ (forall req w cfg rest recv ipCount addrCount w2 w3,
         String.eqb (method req) "OPTIONS" = false ->
         body req = BodyJson recv ->
         Js.truthy (service_role_key env) = true ->
         config_reply env (calls w) = ConfigRows (cfg :: rest) ->
         Js.truthy (requester_ip req) = true ->
         let w1 := after_call env w EvFetchConfig in
         let since := now w1 - 24 * 60 * 60 * 1000 in
         getRequestCountByIp env (requester_ip req) since w1
         = (Done ipCount, w2) ->
         getRequestCountByAddress env (template recv) since w2
         = (Done addrCount, w3) ->
         0 <= requests_limit_per_day cfg ->
         count_fails (count_reply env (calls w1))
         \/ ipCount < requests_limit cfg ->
         count_fails (count_reply env (calls w2))
         \/ addrCount < requests_limit cfg ->
         exists r w', serve env req w = (Done r, w') /\ status r <> 429).
Proof.
  repeat match goal with |- _ /\ _ => split end.
  - intros ip since w [H|H]; rewrite count_by_ip_eq, H; reflexivity.
  - intros address since w [H|H]; rewrite count_by_address_eq, H; reflexivity.
  - intros req w cfg rest recv ipCount addrCount w2 w3 Hm Hb Hk Hc Hip w1
           since E2 E3 Hlimit Hi Ha.
    pose proof (requests_limit_positive cfg Hlimit) as Hpos.
    assert (Hi' : ipCount < requests_limit cfg).
    { destruct Hi as [[H|H]|H]; [| |exact H];
        rewrite count_by_ip_eq, H in E2; injection E2 as <- _; exact Hpos. }
    assert (Ha' : addrCount < requests_limit cfg).
    { destruct Ha as [[H|H]|H]; [| |exact H];
        rewrite count_by_address_eq, H in E3; injection E3 as <- _;
        exact Hpos. }
    rewrite (serve_reaches_checked env req w cfg rest recv ipCount addrCount
               w2 w3 Hm Hb Hk Hc Hip E2 E3).
    assert (H500 : 500 <> 429) by lia.
    assert (H400 : 400 <> 429) by lia.
    assert (H200 : 200 <> 429) by lia.
    destruct (settles_serve_checked_allowed env (fun _ => True)
                (fun s => s <> 429) (fun _ => I) (fun _ _ => I) H500
                (fun _ _ => I) (fun _ _ => I)
                (requester_ip req) (requester_agent req) recv (prefix cfg)
                (requests_limit cfg) ipCount addrCount w3 H200 H400 Hi' Ha')
      as (r & w' & evs & E & Hs & _).
    exists r, w'. split; [exact E|exact Hs].
Qed.

(** Three payouts to this IP and this address in the last day, limit 3,
    and an audit table that answers 503: the request is let through. *)
Lemma quota_check_fails_open_witness :
  let env := example_env steady_accounts accepted table_down in
  let w := world_with [earlier_payout "203.0.113.7" "addr_safro1xyz";
                       earlier_payout "203.0.113.7" "addr_safro1xyz";
                       earlier_payout "203.0.113.7" "addr_safro1xyz"] in
  List.length (List.filter (matches_ip "203.0.113.7" 1699913600000) (store w))
  = 3%nat
  /\ fst (getRequestCountByIp env "203.0.113.7" 1699913600000 w) = Done 0
  /\ exists r w',
       serve env (example_request (Some "203.0.113.7") "addr_safro1xyz") w
       = (Done r, w')
       /\ status r <> 429.
Proof.
  intros env w. split; [reflexivity|]. split.
  - apply (proj1 (quota_check_fails_open env)). left. reflexivity.
  - eapply (proj2 (proj2 (quota_check_fails_open env))
              (example_request (Some "203.0.113.7") "addr_safro1xyz") w
              example_config [] (Some "addr_safro1xyz") 0 0).
    + reflexivity.
    + reflexivity.
    + reflexivity.
    + reflexivity.
    + reflexivity.
    + reflexivity.
    + reflexivity.
    + cbn. lia.
    + left. left. reflexivity.
    + left. left. reflexivity.
Defined.

(** * Further properties *)

(** ** The pollers return what they read last *)

Section LatestRead.

Variable env : Env.
Variable address : string.

Lemma stable_loop_latest start maxWait c0 :
  (forall k, answers env (c0 + k)) ->
  forall fuel w d last count,
    calls w = (c0 + S d)%nat ->
    last = seen env (c0 + d) ->
    (1 <= fuel)%nat ->
    maxWait - (now w - start) <= 800 * (Z.of_nat fuel - 1) ->
    exists n w',
      waitForSequenceStable_loop env fuel address start maxWait last count w
      = (Done (seen env (c0 + n)), w')
      /\ calls w' = (c0 + S n)%nat.
Proof.
  intros Hans.
  induction fuel as [|fuel IH]; intros w d last count Hc Hl Hfuel Hleft; [lia|].
  destruct (Z_lt_le_dec (now w - start) maxWait) as [Hlt|Hge].
  2:{ rewrite stable_pass_timeout by assumption. exists d, w. subst. auto. }
  destruct (Hans (S d)) as [x Hx].
  assert (Hsx : seen env (c0 + S d) = sequence_of x) by (now apply seen_ok).
  rewrite <- Hc in Hx.
  assert (Hlat : 0 <= Z.of_N (latency env (calls w))) by lia.
  destruct (Z.eq_dec (sequence_of x) last) as [He|Hne].
  - destruct (Z_lt_le_dec (count + 1) requiredStableChecks) as [Hlow|Hhigh].
    + rewrite stable_pass_same with (x := x) by assumption.
      apply IH with (d := S d); cbn [calls now later after_call];
        rewrite ?Hc; first [lia | congruence].
    + destruct (Hans (S (S d))) as [y Hy].
      assert (Hsy : seen env (c0 + S (S d)) = sequence_of y)
        by (now apply seen_ok).
      replace (c0 + S (S d))%nat with (S (calls w)) in Hy by lia.
      rewrite (stable_pass_confirm env address fuel start maxWait last count
                 w x y) by assumption.
      destruct (Z.eqb_spec (sequence_of y) last) as [Hy1|Hy1].
      * exists (S (S d)). eexists. split; [now rewrite Hsy|].
        cbn [calls after_call later]. lia.
      * pose proof (N2Z.is_nonneg (latency env (S (calls w)))).
        apply IH with (d := S (S d)); cbn [calls now later after_call];
          rewrite ?Hc; first [lia | congruence].
  - rewrite stable_pass_changed with (x := x) by assumption.
    apply IH with (d := S d); cbn [calls now later after_call];
      rewrite ?Hc; first [lia | congruence].
Qed.

Lemma waitForSequenceStable_latest expected maxWait w :
  (forall k, answers env (calls w + k)) ->
  0 < maxWait ->
  exists n w',
    waitForSequenceStable env address expected maxWait w
    = (Done (seen env (calls w + n)), w')
    /\ calls w' = (calls w + S n)%nat.
Proof.
  intros Hans Hpos. unfold waitForSequenceStable.
  rewrite (bind_done Date_now _ w (now w) w eq_refl).
  pose proof (passes_enough maxWait 800 ltac:(lia)) as Hpasses.
  destruct (Hans 0%nat) as [x Hx]. rewrite Nat.add_0_r in Hx.
  assert (Hsx : seen env (calls w + 0) = sequence_of x).
  { rewrite Nat.add_0_r. now apply seen_ok. }
  assert (Hfuel : exists fuel, passes maxWait 800 = S fuel
                               /\ maxWait <= 800 * Z.of_nat fuel).
  { unfold passes in *. exists (Z.to_nat (maxWait / 800) + 1)%nat.
    split; lia. }
  destruct Hfuel as (fuel & -> & Hleft).
  assert (Hlat : 0 <= Z.of_N (latency env (calls w))) by lia.
  assert (Hnext :
            waitForSequenceStable_loop env (S fuel) address (now w) maxWait
              expected 0 w
            = waitForSequenceStable_loop env fuel address (now w) maxWait
                (seen env (calls w + 0)) 1
                (later (after_call env w (EvGetAccount address)) 800)).
  { rewrite Hsx.
    destruct (Z.eq_dec (sequence_of x) expected) as [He|Hne].
    - rewrite stable_pass_same with (x := x)
        by (unfold requiredStableChecks; first [lia | assumption]).
      now rewrite He.
    - rewrite stable_pass_changed with (x := x)
        by first [lia | assumption].
      reflexivity. }
  rewrite Hnext.
  apply (stable_loop_latest (now w) maxWait (calls w) Hans fuel _ 0%nat);
    cbn [calls now later after_call]; first [lia | reflexivity].
Qed.

Lemma update_loop_latest start maxWait target c0 :
  (forall k, answers env (c0 + k)) ->
  forall fuel w d,
    calls w = (c0 + d)%nat ->
    (1 <= fuel)%nat ->
    maxWait - (now w - start) <= 1000 * (Z.of_nat fuel - 1) ->
    exists n w',
      waitForSequenceUpdate_loop env fuel address start maxWait target w
      = (Done (seen env (c0 + n)), w')
      /\ calls w' = (c0 + S n)%nat
      /\ (target <= seen env (c0 + n) \/ maxWait <= now w' - start).
Proof.
  intros Hans.
  induction fuel as [|fuel IH]; intros w d Hc Hfuel Hleft; [lia|].
  cbn [waitForSequenceUpdate_loop].
  rewrite (bind_done Date_now _ w (now w) w eq_refl).
  destruct (Hans d) as [x Hx].
  assert (Hsx : seen env (c0 + d) = sequence_of x) by (now apply seen_ok).
  rewrite <- Hc in Hx.
  assert (Hlat : 0 <= Z.of_N (latency env (calls w))) by lia.
  destruct (Z.ltb_spec (now w - start) maxWait) as [Hin|Hout].
  - erewrite bind_done by (apply getAccount_ok; exact Hx).
    destruct (Z.geb_spec (sequence_of x) target) as [Hreached|Hbelow].
    + exists d. eexists. rewrite Hsx. split; [reflexivity|].
      cbn [calls after_call]. split; [lia|]. left. lia.
    + rewrite bind_setTimeout.
      apply IH with (d := S d); cbn [calls now later after_call];
        rewrite ?Hc; lia.
  - erewrite bind_done by (apply getAccount_ok; exact Hx).
    exists d. eexists. rewrite Hsx. split; [reflexivity|].
    cbn [calls now after_call]. split; [lia|]. right. lia.
Qed.

Lemma waitForSequenceUpdate_latest previous maxWait w :
  (forall k, answers env (calls w + k)) ->
  exists n w',
    waitForSequenceUpdate env address previous maxWait w
    = (Done (seen env (calls w + n)), w')
    /\ calls w' = (calls w + S n)%nat
    /\ (previous + 1 <= seen env (calls w + n)
        \/ maxWait <= now w' - now w).
Proof.
  intros Hans. unfold waitForSequenceUpdate.
  rewrite (bind_done Date_now _ w (now w) w eq_refl).
  pose proof (passes_enough maxWait 1000 ltac:(lia)).
  apply (update_loop_latest (now w) maxWait (previous + 1) (calls w) Hans
           _ w 0%nat); [lia|unfold passes; lia|lia].
Qed.

End LatestRead.

(** ** What a computation does, step by step *)

Section Runs.

Variable env : Env.

Lemma runs_of_tame {A} (P : Event -> Prop) (m : M A) w :
  tame_at P m w -> runs_with (fun evs _ => Forall P evs) m w.
Proof.
  intros [Hd (evs & rows & Ht & Hp & _)]. split; [exact Hd|].
  exists evs. auto.
Qed.

Lemma runs_weaken {A} (Q Q' : list Event -> Outcome A -> Prop) (m : M A) w :
  runs_with Q m w ->
  (forall evs o, m w = (o, snd (m w)) -> Q evs o -> Q' evs o) ->
  runs_with Q' m w.
Proof.
  intros [Hd (evs & Ht & Hq)] H. split; [exact Hd|]. exists evs.
  split; [exact Ht|]. apply H; [|exact Hq]. now destruct (m w).
Qed.

Lemma runs_conj {A} (Q1 Q2 : list Event -> Outcome A -> Prop) (m : M A) w :
  runs_with Q1 m w -> runs_with Q2 m w ->
  runs_with (fun evs o => Q1 evs o /\ Q2 evs o) m w.
Proof.
  intros [Hd (evs & Ht & Hq)] [_ (evs' & Ht' & Hq')]. split; [exact Hd|].
  exists evs. rewrite Ht in Ht'. apply List.app_inv_head in Ht'. subst evs'.
  auto.
Qed.

Lemma runs_ret {A} (Q : list Event -> Outcome A -> Prop) (a : A) w :
  Q [] (Done a) -> runs_with Q (ret a) w.
Proof.
  intros Hq. split; [discriminate|]. exists []. cbn.
  now rewrite List.app_nil_r.
Qed.

Lemma runs_raise {A} (Q : list Event -> Outcome A -> Prop) e w :
  Q [] (Raise e) -> runs_with Q (raise e) w.
Proof.
  intros Hq. split; [discriminate|]. exists []. cbn.
  now rewrite List.app_nil_r.
Qed.

(** A statement of a [try] block, then the rest of the block or the
    [catch] clause. *)
Lemma runs_guarded {A B} (Q1 : list Event -> Outcome A -> Prop)
    (Q : list Event -> Outcome B -> Prop) (m : M A) h k w :
  runs_with Q1 m w ->
  (forall a w' evs1, m w = (Done a, w') -> Q1 evs1 (Done a) ->
     runs_with (fun evs o => Q (evs1 ++ evs)%list o) (k a) w') ->
  (forall e w' evs1, m w = (Raise e, w') -> Q1 evs1 (Raise e) ->
     runs_with (fun evs o => Q (evs1 ++ evs)%list o) (h e) w') ->
  runs_with Q (guarded m h k) w.
Proof.
  intros [Hd (evs1 & Ht & Hq)] Hk Hh. unfold guarded, runs_with.
  destruct (m w) as [[a|e|] w1]; cbn in Hd, Ht, Hq; [| |contradiction].
  - destruct (Hk a w1 evs1 eq_refl Hq) as [Hd' (evs & Ht' & Hq')].
    split; [exact Hd'|]. exists (evs1 ++ evs)%list.
    now rewrite Ht', Ht, List.app_assoc.
  - destruct (Hh e w1 evs1 eq_refl Hq) as [Hd' (evs & Ht' & Hq')].
    split; [exact Hd'|]. exists (evs1 ++ evs)%list.
    now rewrite Ht', Ht, List.app_assoc.
Qed.

Lemma runs_bind {A B} (Q1 : list Event -> Outcome A -> Prop)
    (Q : list Event -> Outcome B -> Prop) (m : M A) (k : A -> M B) w :
  runs_with Q1 m w ->
  (forall a w' evs1, m w = (Done a, w') -> Q1 evs1 (Done a) ->
     runs_with (fun evs o => Q (evs1 ++ evs)%list o) (k a) w') ->
  (forall e evs1, Q1 evs1 (Raise e) -> Q evs1 (Raise e)) ->
  runs_with Q (bind m k) w.
Proof.
  intros Hm Hk Hr.
  change (bind m k) with (guarded m (@raise B) k).
  apply runs_guarded with (Q1 := Q1); auto.
  intros e w' evs1 _ Hq. apply runs_raise. rewrite List.app_nil_r. auto.
Qed.

Lemma runs_try_catch {A} (Q1 Q : list Event -> Outcome A -> Prop)
    (m : M A) (h : JsError -> M A) w :
  runs_with Q1 m w ->
  (forall a evs1, Q1 evs1 (Done a) -> Q evs1 (Done a)) ->
  (forall e w' evs1, m w = (Raise e, w') -> Q1 evs1 (Raise e) ->
     runs_with (fun evs o => Q (evs1 ++ evs)%list o) (h e) w') ->
  runs_with Q (try_catch m h) w.
Proof.
  intros Hm Hd Hh.
  change (try_catch m h) with (guarded m h (@ret A)).
  apply runs_guarded with (Q1 := Q1); auto.
  intros a w' evs1 _ Hq. apply runs_ret. rewrite List.app_nil_r. auto.
Qed.

Lemma runs_bind_setTimeout {B} (Q : list Event -> Outcome B -> Prop) ms
    (k : unit -> M B) w :
  runs_with Q (k tt) (later w ms) -> runs_with Q (bind (setTimeout ms) k) w.
Proof. intros H. unfold runs_with. now rewrite bind_setTimeout. Qed.

Lemma runs_bind_console_error {B} (Q : list Event -> Outcome B -> Prop)
    label detail (k : unit -> M B) w :
  runs_with (fun evs o => Q (EvConsoleError label detail :: evs) o)
    (k tt)
    (mkWorld (now w) (calls w) (trace w ++ [EvConsoleError label detail])
       (store w)) ->
  runs_with Q (bind (console_error label detail) k) w.
Proof.
  intros [Hd (evs & Ht & Hq)]. unfold runs_with. rewrite bind_console_error.
  split; [exact Hd|].
  exists (EvConsoleError label detail :: evs). split; [|exact Hq].
  rewrite Ht. cbn [trace]. now rewrite <- List.app_assoc.
Qed.

Lemma runs_bind_rpc_call {A B} (Q : list Event -> Outcome B -> Prop) ev
    (reply : nat -> Rpc A) (k : A -> M B) w :
  (forall a, reply (calls w) = RpcOk a ->
     runs_with (fun evs o => Q (ev :: evs) o) (k a) (after_call env w ev)) ->
  (forall e, reply (calls w) = RpcError e -> Q [ev] (Raise e)) ->
  runs_with Q (bind (rpc_call env ev reply) k) w.
Proof.
  intros Hk Hr. unfold runs_with.
  destruct (reply (calls w)) as [e|a] eqn:E.
  - rewrite (bind_raise _ _ _ _ _ (rpc_call_error env ev reply w e E)).
    split; [discriminate|]. exists [ev]. cbn. auto.
  - rewrite (bind_done _ _ _ _ _ (rpc_call_ok env ev reply w a E)).
    destruct (Hk a eq_refl) as [Hd (evs & Ht & Hq)]. split; [exact Hd|].
    exists (ev :: evs). split; [|exact Hq].
    rewrite Ht. cbn [trace after_call]. now rewrite <- List.app_assoc.
Qed.

End Runs.

(** ** What the dispatcher does, whatever the chain answers *)

Lemma count_events_cons f (ev : Event) (evs : list Event) :
  count_events f (ev :: evs)
  = ((if f ev then 1 else 0) + count_events f evs)%nat.
Proof. unfold count_events. cbn. now destruct (f ev). Qed.

Lemma report_read_quiet (evs : list Event) :
  Forall (fun ev => is_report_read ev = true) evs ->
  count_events is_connect evs = 0%nat
  /\ count_events is_broadcast evs = 0%nat.
Proof.
  intros H. split; apply (count_events_none _ is_report_read); auto;
    now intros [].
Qed.

Lemma account_read_report (evs : list Event) :
  Forall (fun ev => is_account_read ev = true) evs ->
  Forall (fun ev => is_report_read ev = true) evs.
Proof. apply Forall_impl. now intros []. Qed.

Section DispatchFootprint.

Variable env : Env.
Variables sender receiver : string.
Variable coins : list Coin.
Variables memo url : string.

Lemma report_runs tx s w :
  runs_with
    (fun evs o =>
       Forall (fun ev => is_report_read ev = true) evs
       /\ (forall r, o = Done r ->
             pr_success r = true /\ pr_receiverAddress r = receiver))
    (sendTokens_report env sender receiver coins memo url tx s) w.
Proof.
  unfold sendTokens_report.
  apply runs_bind
    with (Q1 := fun evs _ => Forall (fun ev => is_report_read ev = true) evs).
  - apply runs_of_tame, tame_waitForSequenceUpdate. reflexivity.
  - intros x w1 evs1 _ H1.
    apply runs_bind_rpc_call; [intros c _|intros e _].
    2:{ split; [|discriminate]. apply Forall_app. auto. }
    apply runs_bind_rpc_call; [intros sb _|intros e _].
    2:{ split; [|discriminate]. apply Forall_app. auto. }
    apply runs_bind_rpc_call; [intros rb _|intros e _].
    2:{ split; [|discriminate]. apply Forall_app. auto. }
    apply runs_ret. split.
    + apply Forall_app. auto.
    + intros r [= <-]. auto.
  - intros e evs1 H. split; [exact H|discriminate].
Qed.

Lemma attempt_post_here (evs : list Event) (o : Outcome ProcessedResult) :
  Forall (fun ev => is_report_read ev = true) evs ->
  (forall r, o <> Done r) ->
  attempt_post (EvBroadcast sender receiver coins memo) receiver evs o.
Proof.
  intros H Ho. destruct (report_read_quiet evs H) as [_ Hb].
  split; [|split].
  - eapply Forall_impl; [|exact H]. auto.
  - lia.
  - intros r Hr. now destruct (Ho r).
Qed.

Lemma attempt_runs w :
  runs_with (attempt_post (EvBroadcast sender receiver coins memo) receiver)
    (sendTokens_attempt env sender receiver coins memo url) w.
Proof.
  unfold sendTokens_attempt.
  apply runs_bind
    with (Q1 := fun evs _ => Forall (fun ev => is_account_read ev = true) evs).
  - apply runs_of_tame, tame_waitForSequenceStable. reflexivity.
  - intros s w1 evs1 _ H1. apply account_read_report in H1.
    apply runs_bind_setTimeout.
    apply runs_bind_rpc_call; [intros a _|intros e _].
    2:{ apply attempt_post_here; [|discriminate]. apply Forall_app. auto. }
    destruct (negb (sequence_of a =? s)).
    { apply runs_raise. apply attempt_post_here; [|discriminate].
      apply Forall_app. auto. }
    assert (Hpre : Forall (fun ev => is_report_read ev = true)
                     (evs1 ++ [EvGetAccount sender])%list)
      by (apply Forall_app; auto).
    destruct (report_read_quiet _ Hpre) as [_ Hb0].
    apply runs_bind_rpc_call; [intros tx _|intros e _].
    + eapply runs_weaken; [apply report_runs|].
      intros evs o _ [Hf Hdone]. destruct (report_read_quiet evs Hf) as [_ Hb].
      assert (Hcount : count_events is_broadcast
                         (evs1 ++ EvGetAccount sender
                            :: EvBroadcast sender receiver coins memo :: evs)
                       = 1%nat).
      { rewrite count_events_app, !count_events_cons, Hb.
        rewrite count_events_app, count_events_cons in Hb0. cbn in *. lia. }
      split; [|split].
      * apply Forall_app. split.
        { eapply Forall_impl; [|exact H1]. auto. }
        constructor; [now left|]. constructor; [now right|].
        eapply Forall_impl; [|exact Hf]. auto.
      * lia.
      * intros r Hr. destruct (Hdone r Hr). auto.
    + split; [|split].
      * apply Forall_app. split.
        { eapply Forall_impl; [|exact H1]. auto. }
        constructor; [now left|]. constructor; [now right|]. constructor.
      * rewrite count_events_app, !count_events_cons.
        rewrite count_events_app, count_events_cons in Hb0. cbn in *. lia.
      * discriminate.
  - intros e evs1 H. apply attempt_post_here; [|discriminate].
    now apply account_read_report.
Qed.

Lemma attempt_post_quiet b (evs : list Event) o :
  is_broadcast b = true ->
  attempt_post b receiver evs o ->
  count_events is_connect evs = 0%nat
  /\ Forall (fun ev => is_broadcast ev = true -> ev = b) evs
  /\ Forall (fun ev => is_connect ev = false) evs.
Proof.
  intros Hb [Hf _].
  assert (Hn : Forall (fun ev => is_connect ev = false) evs).
  { eapply Forall_impl; [|exact Hf].
    intros ev [H| ->]; [now destruct ev|now destruct b]. }
  split; [|split]; [now apply count_events_false| |exact Hn].
  eapply Forall_impl; [|exact Hf].
  intros ev [H| ->]; [|auto]. intros H'. now destruct ev.
Qed.

(** A pass that returns ends the loop. *)
Lemma dispatch_post_done endpoint n (evs1 : list Event) r :
  attempt_post (EvBroadcast sender receiver coins memo) receiver evs1
    (Done r) ->
  dispatch_post (EvBroadcast sender receiver coins memo) (EvConnect endpoint)
    receiver (S n) (EvConnect endpoint :: evs1) (Done r).
Proof.
  intros H1.
  destruct (attempt_post_quiet (EvBroadcast sender receiver coins memo) _ _
              eq_refl H1) as (Hc & Hf & Hn).
  destruct H1 as (_ & Hle & Hdone).
  destruct (Hdone r eq_refl) as (Hone & Hs & Hr).
  unfold dispatch_post. rewrite !count_events_cons, Hc, Hone. cbn.
  split; [lia|]. split; [lia|].
  split; [constructor; [discriminate|exact Hf]|].
  split.
  { constructor; [reflexivity|]. eapply Forall_impl; [|exact Hn].
    intros ev H H'. congruence. }
  intros r' [= <-]. auto.
Qed.

(** A pass that throws is followed by two log lines and the passes that
    are left. *)
Lemma dispatch_post_again endpoint n (evs1 evs : list Event) o1 o l1 d1 l2 d2 :
  attempt_post (EvBroadcast sender receiver coins memo) receiver evs1 o1 ->
  dispatch_post (EvBroadcast sender receiver coins memo) (EvConnect endpoint)
    receiver n evs o ->
  dispatch_post (EvBroadcast sender receiver coins memo) (EvConnect endpoint)
    receiver (S n)
    (EvConnect endpoint
       :: evs1 ++ EvConsoleError l1 d1 :: EvConsoleError l2 d2 :: evs)%list o.
Proof.
  intros H1 (Hc' & Hb' & Hf' & Hn' & Hdone').
  destruct (attempt_post_quiet (EvBroadcast sender receiver coins memo) _ _
              eq_refl H1) as (Hc & Hf & Hn).
  destruct H1 as (_ & Hle & _).
  unfold dispatch_post.
  rewrite !count_events_cons, !count_events_app, !count_events_cons, Hc. cbn.
  split; [lia|]. split; [lia|].
  split.
  { constructor; [discriminate|]. apply Forall_app. split; [exact Hf|].
    repeat (constructor; [discriminate|]). exact Hf'. }
  split.
  { constructor; [reflexivity|]. apply Forall_app. split.
    - eapply Forall_impl; [|exact Hn]. intros ev H H'. congruence.
    - repeat (constructor; [discriminate|]). exact Hn'. }
  intros r Hr. destruct (Hdone' r Hr) as (? & ? & ?).
  split; [lia|]. auto.
Qed.

Lemma retry_runs endpoint :
  forall retries txError w,
    runs_with
      (dispatch_post (EvBroadcast sender receiver coins memo)
         (EvConnect endpoint) receiver retries)
      (sendTokens_retry env retries txError endpoint
         (sendTokens_attempt env sender receiver coins memo url)) w.
Proof.
  induction retries as [|n IH]; intros txError w.
  - apply runs_raise. unfold dispatch_post. cbn.
    repeat split; auto; discriminate.
  - cbn [sendTokens_retry]. unfold connectWithSigner.
    apply runs_bind_rpc_call; [intros [] _|intros e _].
    2:{ cbv beta. unfold dispatch_post. cbn.
        repeat split; try lia; try discriminate;
          repeat constructor; discriminate. }
    apply runs_try_catch
      with (Q1 := attempt_post (EvBroadcast sender receiver coins memo)
                    receiver).
    + apply attempt_runs.
    + intros r evs1 H1. now apply dispatch_post_done.
    + intros e w' evs1 _ H1.
      apply runs_bind_console_error, runs_bind_console_error.
      assert (Hrest :
                forall ms,
                  runs_with
                    (dispatch_post (EvBroadcast sender receiver coins memo)
                       (EvConnect endpoint) receiver n)
                    (sendTokens_retry env n (Some e) endpoint
                       (sendTokens_attempt env sender receiver coins memo url))
                    (later
                       (mkWorld (now w') (calls w')
                          ((trace w'
                            ++ [EvConsoleError "Transaction error:"
                                  (Js.or_else (message e) "Error")])
                           ++ [EvConsoleError "Raw transaction error response:"
                                 (message e)])
                          (store w')) ms))
        by (intros ms; apply IH).
      destruct (isSequenceError (Js.or_else (message e) "Error"));
        apply runs_bind_setTimeout;
        (eapply runs_weaken; [apply Hrest|]);
        intros evs o _ H; now apply dispatch_post_again with (o1 := Raise e).
Qed.

End DispatchFootprint.

Section SendTokensFootprint.

Variable env : Env.

Lemma fetchFaucetConfig_runs w :
  runs_with
    (fun evs o =>
       Forall (fun ev => ev = EvFetchConfig) evs
       /\ (forall cfg, o = Done cfg ->
             exists rest, config_reply env (calls w) = ConfigRows (cfg :: rest)))
    (fetchFaucetConfig env) w.
Proof.
  unfold fetchFaucetConfig.
  destruct (negb (Js.truthy (service_role_key env))).
  { apply runs_raise. split; [constructor|discriminate]. }
  unfold runs_with, bind, external.
  destruct (config_reply env (calls w)) as [e|text|[|cfg rest]]; cbn;
    (split; [discriminate|]); exists [EvFetchConfig];
    (split; [reflexivity|]); (split; [repeat constructor|]);
    try discriminate.
  intros c [= <-]. now exists rest.
Qed.

Lemma config_read_quiet receiver w (evs : list Event) :
  Forall (fun ev => ev = EvFetchConfig) evs ->
  count_events is_connect evs = 0%nat
  /\ count_events is_broadcast evs = 0%nat
  /\ Forall (pays_as_configured env w receiver) evs
  /\ Forall (connects_as_configured env w) evs.
Proof.
  intros Hf. repeat split.
  - apply count_events_false. eapply Forall_impl; [|exact Hf].
    now intros ev ->.
  - apply count_events_false. eapply Forall_impl; [|exact Hf].
    now intros ev ->.
  - eapply Forall_impl; [|exact Hf]. now intros ev ->.
  - eapply Forall_impl; [|exact Hf]. now intros ev ->.
Qed.

Lemma sendTokens_post_prefix receiver w (evs1 evs : list Event) o :
  Forall (fun ev => ev = EvFetchConfig) evs1 ->
  sendTokens_post env w receiver evs o ->
  sendTokens_post env w receiver (evs1 ++ evs)%list o.
Proof.
  intros Hf (Hc & Hb & Hp & Hn & Hdone).
  destruct (config_read_quiet receiver w evs1 Hf) as (Hc1 & Hb1 & Hp1 & Hn1).
  unfold sendTokens_post. rewrite !count_events_app, Hc1, Hb1. cbn.
  split; [exact Hc|]. split; [exact Hb|].
  split; [now apply Forall_app|]. split; [now apply Forall_app|]. exact Hdone.
Qed.

Lemma sendTokens_post_thrown receiver w (evs : list Event) e :
  sendTokens_post env w receiver evs (Raise e : Outcome ProcessedResult) ->
  forall l d e',
    sendTokens_post env w receiver (evs ++ [EvConsoleError l d])%list
      (Raise e' : Outcome ProcessedResult).
Proof.
  intros (Hc & Hb & Hp & Hn & _) l d e'. unfold sendTokens_post.
  rewrite !count_events_app. cbn. rewrite !Nat.add_0_r.
  split; [exact Hc|]. split; [exact Hb|].
  split; [apply Forall_app; split; [exact Hp|repeat constructor]|].
  split; [apply Forall_app; split; [exact Hn|repeat constructor]|].
  discriminate.
Qed.

Lemma sendTokens_post_nothing receiver w (o : Outcome ProcessedResult) :
  (forall r, o <> Done r) -> sendTokens_post env w receiver [] o.
Proof.
  intros Ho. unfold sendTokens_post. cbn.
  repeat split; auto; try lia. all: now destruct (Ho r).
Qed.

Lemma sendTokens_runs receiver w :
  runs_with (sendTokens_post env w receiver) (sendTokens env receiver) w.
Proof.
  unfold sendTokens.
  apply runs_bind with (Q1 := fun evs o =>
       Forall (fun ev => ev = EvFetchConfig) evs
       /\ (forall cfg, o = Done cfg ->
             exists rest, config_reply env (calls w) = ConfigRows (cfg :: rest))).
  - apply fetchFaucetConfig_runs.
  - intros cfg w1 evs1 _ [Hf Hcfg]. destruct (Hcfg cfg eq_refl) as [rest Hrows].
    eapply runs_weaken with (Q := sendTokens_post env w receiver).
    2:{ intros evs o _ H. now apply sendTokens_post_prefix. }
    apply runs_try_catch with (Q1 := sendTokens_post env w receiver).
    + destruct (_ || _ || _).
      { apply runs_raise, sendTokens_post_nothing. discriminate. }
      destruct (_ || _ || _ || _).
      { apply runs_raise, sendTokens_post_nothing. discriminate. }
      destruct (fromMnemonic env (mnemonic cfg) (prefix cfg))
        as [e|sender] eqn:Efrom; cbn [of_rpc].
      { apply (runs_raise _ e), sendTokens_post_nothing. discriminate. }
      match goal with
      | |- runs_with _ (bind (lift (Done sender)) ?k) _ =>
          change (bind (lift (Done sender)) k) with (k sender)
      end.
      eapply runs_weaken; [apply retry_runs|].
      intros evs o _ (Hc & Hb & Hp & Hn & Hdone).
      split; [exact Hc|]. split; [exact Hb|]. split; [|split; [|exact Hdone]].
      * eapply Forall_impl; [|exact Hp].
        intros [] Hev; cbn; auto.
        specialize (Hev eq_refl). injection Hev as -> -> -> ->.
        split; [reflexivity|]. exists cfg, rest. auto.
      * eapply Forall_impl; [|exact Hn].
        intros [] Hev; cbn; auto.
        specialize (Hev eq_refl). injection Hev as ->.
        exists cfg, rest. split; [exact Hrows|].
        now destruct (Js.startsWith (rpc_endpoint cfg) "http://"),
          (Js.startsWith (rpc_endpoint cfg) "https://").
    + auto.
    + intros e w' evs _ H.
      apply runs_bind_console_error, runs_raise.
      now apply sendTokens_post_thrown with (e := e).
  - intros e evs1 [Hf _].
    rewrite <- (List.app_nil_r evs1).
    apply sendTokens_post_prefix; [exact Hf|].
    apply sendTokens_post_nothing. discriminate.
Qed.

End SendTokensFootprint.

(** ** What the handler does, whatever the outside world answers *)

Lemma lookup_not_chain ev : lookup_event ev = true -> is_chain ev = false.
Proof. now destruct ev. Qed.

Lemma not_chain_not_broadcast ev : is_chain ev = false -> is_broadcast ev = false.
Proof. now destruct ev. Qed.

Lemma no_chain_call (evs : list Event) :
  Forall (fun ev => is_chain ev = false) evs ->
  ~ Exists (fun ev => is_chain ev = true) evs.
Proof.
  intros Hf He. apply Exists_exists in He. destruct He as (ev & Hin & Hev).
  rewrite Forall_forall in Hf. specialize (Hf ev Hin). congruence.
Qed.

Section HandlerFootprint.

Variable env : Env.
Variable dest : string -> Prop.
Variable A : Prop.

Lemma quiet_facts (evs : list Event) :
  Forall (fun ev => is_chain ev = false) evs ->
  count_events is_broadcast evs = 0%nat
  /\ Forall (pays_only dest) evs
  /\ ~ Exists (fun ev => is_chain ev = true) evs.
Proof.
  intros Hf. split; [|split].
  - apply count_events_false. eapply Forall_impl; [|exact Hf].
    apply not_chain_not_broadcast.
  - eapply Forall_impl; [|exact Hf]. intros [] H; cbn; auto. discriminate.
  - now apply no_chain_call.
Qed.

Lemma handler_post_quiet (evs : list Event) r :
  status r = 400 \/ status r = 429 \/ status r = 500 ->
  Forall (fun ev => is_chain ev = false) evs ->
  handler_post dest A evs (Done r).
Proof.
  intros Hs Hf. destruct (quiet_facts evs Hf) as (Hb & Hp & Hn).
  exists r. split; [reflexivity|]. split; [intuition|].
  split; [intros H200; exfalso; intuition lia|].
  split; [lia|]. split; [exact Hp|]. intros He. now destruct Hn.
Qed.

Lemma handler_post_prefix (evs0 evs : list Event) o :
  Forall (fun ev => is_chain ev = false) evs0 ->
  handler_post dest A evs o ->
  handler_post dest A (evs0 ++ evs)%list o.
Proof.
  intros Hf (r & -> & Hs & H200 & Hb & Hp & Ha).
  destruct (quiet_facts evs0 Hf) as (Hb0 & Hp0 & Hn0).
  exists r. rewrite count_events_app, Hb0.
  split; [reflexivity|]. split; [exact Hs|].
  split.
  { intros Hr. destruct (H200 Hr). split; [assumption|].
    apply Exists_app. now right. }
  split; [exact Hb|]. split; [now apply Forall_app|].
  intros He. apply Exists_app in He. destruct He as [He|He]; [|auto].
  now destruct Hn0.
Qed.

(** The same after a dispatch, whose own calls come first. *)
Lemma handler_post_dispatched (evs2 evs' : list Event) r :
  A ->
  (count_events is_broadcast evs2 <= 5)%nat ->
  Forall (pays_only dest) evs2 ->
  Forall (fun ev => is_chain ev = false) evs' ->
  (status r = 400 \/ status r = 429 \/ status r = 500
   \/ (status r = 200
       /\ (1 <= count_events is_broadcast evs2)%nat
       /\ Exists logs_success evs')) ->
  handler_post dest A (evs2 ++ evs')%list (Done r).
Proof.
  intros HA Hb Hp Hf Hs. destruct (quiet_facts evs' Hf) as (Hb' & Hp' & _).
  exists r. rewrite count_events_app, Hb'.
  split; [reflexivity|]. split; [intuition|].
  split.
  { intros H200. split; [intuition lia|].
    apply Exists_app. right. intuition lia. }
  split; [lia|]. split; [now apply Forall_app|]. auto.
Qed.

Lemma runs_of_settles ok P (m : M Response) w :
  settles_at ok P m w ->
  runs_with (fun evs o => exists r, o = Done r /\ ok (status r) /\ Forall P evs)
    m w.
Proof.
  intros (r & w' & evs & E & Hs & Ht & Hp). unfold runs_with. rewrite E.
  split; [discriminate|]. exists evs. split; [exact Ht|]. now exists r.
Qed.

(** The exits that make no chain call. *)
Lemma quiet_runs (m : M Response) w :
  settles_at (fun s => s = 400 \/ s = 429 \/ s = 500)
    (fun ev => is_chain ev = false) m w ->
  runs_with
    (fun evs o =>
       exists r, o = Done r
                 /\ (status r = 400 \/ status r = 429 \/ status r = 500)
                 /\ Forall (fun ev => is_chain ev = false) evs) m w.
Proof. apply runs_of_settles. Qed.

Lemma catch_runs ip region ua recv e w :
  runs_with
    (fun evs o =>
       exists r, o = Done r
                 /\ (status r = 400 \/ status r = 429 \/ status r = 500)
                 /\ Forall (fun ev => is_chain ev = false) evs)
    (serve_catch env ip region ua recv e) w.
Proof. apply quiet_runs, settles_serve_catch; auto. Qed.

Lemma catch_post (evs1 : list Event) ip region ua recv e w :
  Forall (fun ev => is_chain ev = false) evs1 ->
  runs_with (fun evs o => handler_post dest A (evs1 ++ evs)%list o)
    (serve_catch env ip region ua recv e) w.
Proof.
  intros H1. eapply runs_weaken; [apply catch_runs|].
  intros evs o _ (r & -> & Hs & Hf).
  apply handler_post_quiet; [exact Hs|]. now apply Forall_app.
Qed.

Lemma insert_runs r w :
  runs_with
    (fun evs _ => exists logs,
         evs = EvInsert r :: logs
         /\ Forall (fun ev => is_chain ev = false) logs)
    (insertUserRequest env r) w.
Proof.
  split; [apply insert_ends|].
  destruct (insert_footprint env r w) as (logs & Ht & Hl).
  exists (EvInsert r :: logs). split; [exact Ht|]. now exists logs.
Qed.

Lemma lookup_runs {B} (m : M B) w :
  tame_at (fun ev => lookup_event ev = true) m w ->
  runs_with (fun evs _ => Forall (fun ev => is_chain ev = false) evs) m w.
Proof.
  intros H. eapply runs_weaken; [apply runs_of_tame, H|].
  intros evs o _ Hf. eapply Forall_impl; [|exact Hf]. apply lookup_not_chain.
Qed.

Lemma serve_dispatch_runs ip ua receiver w :
  A -> dest receiver ->
  runs_with (handler_post dest A)
    (serve_dispatch env ip ua (Some receiver)) w.
Proof.
  intros HA Hdest. unfold serve_dispatch.
  apply runs_guarded
    with (Q1 := fun evs _ => Forall (fun ev => is_chain ev = false) evs).
  { apply lookup_runs, tame_fetchRegion. auto. }
  2:{ intros e w1 evs1 _ H1. now apply catch_post. }
  intros region w1 evs1 _ H1.
  eapply runs_weaken with (Q := handler_post dest A).
  2:{ intros evs o _ H. now apply handler_post_prefix. }
  cbn [template].
  apply runs_guarded with (Q1 := sendTokens_post env w1 receiver).
  { apply sendTokens_runs. }
  - intros result w2 evs2 _ (Hc & Hb & Hp & _ & Hdone).
    destruct (Hdone result eq_refl) as (Hone & Hs & _).
    assert (Hp2 : Forall (pays_only dest) evs2).
    { eapply Forall_impl; [|exact Hp]. intros [] H; cbn in *; auto.
      now destruct H as [-> _]. }
    rewrite Hs. cbn [andb].
    apply runs_guarded
      with (Q1 := fun evs _ => exists logs,
                      evs = EvInsert
                              (mkUserRequest ip region ua (Some receiver) true
                                 (if Js.truthy (pr_transactionHash result)
                                  then Some (pr_transactionHash result)
                                  else None)) :: logs
                      /\ Forall (fun ev => is_chain ev = false) logs).
    { apply insert_runs. }
    + intros [] w3 evs3 _ (logs & -> & Hl).
      destruct (JSONStringifyWithBigInt_ends (js_of_result result)) as [t Ht].
      unfold guarded at 1, lift. rewrite Ht.
      apply runs_ret. rewrite List.app_nil_r.
      apply handler_post_dispatched; [exact HA|lia|exact Hp2| |].
      * constructor; [reflexivity|exact Hl].
      * right. right. right. cbn [status].
        split; [reflexivity|]. split; [exact Hone|].
        apply Exists_cons_hd. eexists. split; reflexivity.
    + intros e w3 evs3 _ (logs & -> & Hl).
      eapply runs_weaken; [apply catch_runs|].
      intros evs o _ (r & -> & Hst & Hf).
      rewrite List.app_assoc. rewrite <- List.app_assoc.
      apply handler_post_dispatched; [exact HA|lia|exact Hp2| |intuition].
      apply Forall_app. split; [|exact Hf].
      constructor; [reflexivity|exact Hl].
  - intros e w2 evs2 _ (Hc & Hb & Hp & _ & _).
    assert (Hp2 : Forall (pays_only dest) evs2).
    { eapply Forall_impl; [|exact Hp]. intros [] H; cbn in *; auto.
      now destruct H as [-> _]. }
    eapply runs_weaken; [apply catch_runs|].
    intros evs o _ (r & -> & Hst & Hf).
    apply handler_post_dispatched; [exact HA|lia|exact Hp2|exact Hf|intuition].
Qed.

Lemma quiet_post (m : M Response) w :
  settles_at (fun s => s = 400 \/ s = 429 \/ s = 500)
    (fun ev => is_chain ev = false) m w ->
  runs_with (handler_post dest A) m w.
Proof.
  intros H. eapply runs_weaken; [apply quiet_runs, H|].
  intros evs o _ (r & -> & Hs & Hf). now apply handler_post_quiet.
Qed.

End HandlerFootprint.

Section ServeFootprint.

Variable env : Env.

Lemma serve_runs req w :
  String.eqb (method req) "OPTIONS" = false ->
  runs_with
    (handler_post (fun t => body req = BodyJson (Some t))
       (passes_checks env req w))
    (serve env req) w.
Proof.
  intros Hm. unfold serve. rewrite Hm.
  set (dest := fun t => body req = BodyJson (Some t)).
  set (A := passes_checks env req w).
  set (ip := requester_ip req).
  set (ua := requester_agent req).
  apply runs_guarded
    with (Q1 := fun evs _ => Forall (fun ev => is_chain ev = false) evs).
  { apply lookup_runs, tame_lift, read_receiver_ends. }
  2:{ intros e w1 evs1 _ H1. now apply catch_post. }
  intros recv w1 evs1 E1 H1.
  eapply runs_weaken with (Q := handler_post dest A).
  2:{ intros evs o _ H. now apply handler_post_prefix. }
  unfold lift in E1. injection E1 as Hbody <-. clear evs1 H1.
  assert (Hrecv : body req = BodyJson recv).
  { destruct (body req); cbn in Hbody; congruence. }
  clear Hbody.
  apply runs_guarded
    with (Q1 := fun evs _ => Forall (fun ev => is_chain ev = false) evs).
  { apply lookup_runs, tame_fetchFaucetConfig. reflexivity. }
  2:{ intros e w1 evs1 _ H1. now apply catch_post. }
  intros cfg w1 evs1 E2 H1.
  eapply runs_weaken with (Q := handler_post dest A).
  2:{ intros evs o _ H. now apply handler_post_prefix. }
  clear evs1 H1.
  destruct (Js.truthy ip) eqn:Hip; cbn [negb].
  2:{ destruct (error_body_text "IP address could not be determined")
        as [t Ht].
      apply quiet_post, settles_respond with (text := Some t); auto. }
  unfold guarded at 1. cbn [Date_now].
  apply runs_guarded
    with (Q1 := fun evs _ => Forall (fun ev => is_chain ev = false) evs).
  { apply lookup_runs, tame_getRequestCountByIp. auto. }
  2:{ intros e w2 evs1 _ H1. now apply catch_post. }
  intros ipCount w2 evs1 E3 H1.
  eapply runs_weaken with (Q := handler_post dest A).
  2:{ intros evs o _ H. now apply handler_post_prefix. }
  clear evs1 H1.
  apply runs_guarded
    with (Q1 := fun evs _ => Forall (fun ev => is_chain ev = false) evs).
  { apply lookup_runs, tame_getRequestCountByAddress. auto. }
  2:{ intros e w3 evs1 _ H1. now apply catch_post. }
  intros addrCount w3 evs1 E4 H1.
  eapply runs_weaken with (Q := handler_post dest A).
  2:{ intros evs o _ H. now apply handler_post_prefix. }
  clear evs1 H1.
  unfold serve_checked.
  destruct (Z.geb_spec ipCount (requests_limit cfg)) as [|Hipc];
    destruct (Z.geb_spec addrCount (requests_limit cfg)) as [|Haddrc];
    cbn [andb];
    try (apply quiet_post, settles_serve_rate_limited; now auto).
  destruct (invalid_receiver recv (prefix cfg)) eqn:Hinv.
  { apply quiet_post, settles_serve_invalid_address; now auto. }
  destruct recv as [receiver|]; [|discriminate].
  cbn [invalid_receiver] in Hinv. apply orb_false_elim in Hinv.
  destruct Hinv as [Ht Hp]. apply negb_false_iff in Ht, Hp.
  apply serve_dispatch_runs; [|exact Hrecv].
  exists cfg, receiver, ipCount, addrCount, w1, w2, w3. cbn [template] in E4.
  repeat split; assumption.
Qed.

End ServeFootprint.

(** ** Substrings *)

Lemma prefix_app_l (a b s : string) :
  String.prefix (a ++ b) s = true -> String.prefix a s = true.
Proof.
  revert s. induction a as [|c a IH]; intros s H; [now destruct s|].
  destruct s as [|d s]; cbn in *; [discriminate|].
  destruct (ascii_dec c d); [now apply IH|discriminate].
Qed.

Lemma includes_here (s sub : string) :
  String.prefix sub s = true -> Js.includes s sub = true.
Proof. intros H. destruct s; cbn in *; now rewrite H. Qed.

Lemma includes_later c (s sub : string) :
  Js.includes s sub = true -> Js.includes (String c s) sub = true.
Proof. intros H. cbn [Js.includes]. rewrite H. apply orb_true_r. Qed.

Lemma prefix_includes (a b s : string) :
  String.prefix (a ++ b) s = true -> Js.includes s b = true.
Proof.
  revert s. induction a as [|c a IH]; intros s H.
  - now apply includes_here.
  - destruct s as [|d s]; cbn in H; [discriminate|].
    destruct (ascii_dec c d); [|discriminate].
    apply includes_later, IH, H.
Qed.

Lemma includes_app_r (s a b : string) :
  Js.includes s (a ++ b) = true -> Js.includes s b = true.
Proof.
  induction s as [|c s IH]; intros H.
  - cbn [Js.includes] in H. rewrite orb_false_r in H.
    now apply prefix_includes in H.
  - cbn [Js.includes] in H. apply orb_true_iff in H. destruct H as [H|H].
    + now apply prefix_includes in H.
    + apply includes_later, IH, H.
Qed.

Lemma includes_app_l (s a b : string) :
  Js.includes s (a ++ b) = true -> Js.includes s a = true.
Proof.
  induction s as [|c s IH]; intros H.
  - cbn [Js.includes] in H. rewrite orb_false_r in H.
    apply includes_here. now apply prefix_app_l in H.
  - cbn [Js.includes] in H. apply orb_true_iff in H. destruct H as [H|H].
    + apply includes_here. now apply prefix_app_l in H.
    + apply includes_later, IH, H.
Qed.

Lemma isSequenceError_eq (m : string) :
  isSequenceError m = Js.includes m "sequence".
Proof.
  unfold isSequenceError.
  destruct (Js.includes m "sequence") eqn:E; [reflexivity|]. cbn [orb].
  destruct (Js.includes m "account sequence mismatch") eqn:E2.
  { apply (includes_app_r m "account " "sequence mismatch") in E2.
    apply (includes_app_l m "sequence" " mismatch") in E2. congruence. }
  destruct (Js.includes m "incorrect account sequence") eqn:E3.
  { apply (includes_app_r m "incorrect account " "sequence") in E3.
    congruence. }
  reflexivity.
Qed.

Lemma lacks_app c (a b : string) :
  lacks c (a ++ b) = lacks c a && lacks c b.
Proof.
  induction a as [|d a IH]; cbn; [reflexivity|].
  now rewrite IH, andb_assoc.
Qed.

Lemma lacks_prefix c (s sub : string) :
  lacks c s = true -> String.prefix (String c sub) s = false.
Proof.
  destruct s as [|d s]; cbn; [reflexivity|]. intros H.
  apply andb_true_iff in H. destruct H as [H _].
  destruct (ascii_dec c d) as [->|]; [|reflexivity].
  now rewrite Ascii.eqb_refl in H.
Qed.

Lemma lacks_includes c (s sub : string) :
  lacks c s = true -> Js.includes s (String c sub) = false.
Proof.
  induction s as [|d s IH]; intros H; [reflexivity|].
  cbn [Js.includes]. rewrite (lacks_prefix c _ sub H).
  cbn in H. apply andb_true_iff in H. now apply IH.
Qed.

(** A decimal numeral is made of digits and a sign. *)
Lemma numeral_char_differs (c a : ascii) :
  (nat_of_ascii c <? 45)%nat || (57 <? nat_of_ascii c)%nat = true ->
  (45 <= nat_of_ascii a <= 57)%nat ->
  negb (Ascii.eqb a c) = true.
Proof.
  intros Hc Hn. apply negb_true_iff, Ascii.eqb_neq. intros <-.
  apply orb_true_iff in Hc.
  destruct Hc as [H|H]; apply Nat.ltb_lt in H; lia.
Qed.

Lemma uint_lacks c (d : Decimal.uint) :
  (nat_of_ascii c <? 45)%nat || (57 <? nat_of_ascii c)%nat = true ->
  lacks c (NilEmpty.string_of_uint d) = true.
Proof.
  intros Hc.
  induction d; cbn [NilEmpty.string_of_uint lacks]; [reflexivity|..];
    rewrite IHd, andb_true_r; apply (numeral_char_differs c _ Hc); cbn; lia.
Qed.

Lemma toString_lacks c (n : Z) :
  (nat_of_ascii c <? 45)%nat || (57 <? nat_of_ascii c)%nat = true ->
  lacks c (Js.toString n) = true.
Proof.
  intros Hc. unfold Js.toString, NilZero.string_of_int.
  assert (Hu : forall d, lacks c (NilZero.string_of_uint d) = true).
  { intros d. unfold NilZero.string_of_uint.
    destruct d; try (now apply (uint_lacks c)).
    cbn [lacks]. rewrite andb_true_r.
    apply (numeral_char_differs c _ Hc); cbn; lia. }
  destruct (Z.to_int n) as [d|d]; [apply Hu|].
  cbn [lacks]. rewrite Hu, andb_true_r.
  apply (numeral_char_differs c _ Hc); cbn; lia.
Qed.

(** The message of the final check before signing does not contain
    [sequence] in lower case. *)
Lemma final_check_message_class (expected got : Z) :
  isSequenceError
    (Js.or_else
       ("Sequence changed right before signing: expected "
        ++ Js.toString expected ++ ", got " ++ Js.toString got
        ++ ". Retrying...")
       "Error")
  = false.
Proof.
  rewrite isSequenceError_eq.
  set (tail := Js.toString expected ++ ", got " ++ Js.toString got
               ++ ". Retrying...").
  assert (Ht : lacks "s" tail = true).
  { unfold tail. rewrite !lacks_app, !toString_lacks by reflexivity.
    reflexivity. }
  apply (lacks_includes "s" tail "equence") in Ht.
  cbn. exact Ht.
Qed.

(** ** Particular courses of a dispatch *)

Section DispatchCases.

Variable env : Env.

(** With a usable config, [sendTokens] is its retry loop, run after the
    config has been read. *)
Lemma sendTokens_usable receiver w cfg rest sender :
  Js.truthy (service_role_key env) = true ->
  config_reply env (calls w) = ConfigRows (cfg :: rest) ->
  Js.truthy (mnemonic cfg) = true ->
  12 <= Js.split_length " " (mnemonic cfg) ->
  validateMnemonic env (mnemonic cfg) = true ->
  Js.truthy (rpc_endpoint cfg) = true ->
  Js.truthy (cfg_denom cfg) = true ->
  Js.truthy (cfg_amount cfg) = true ->
  Js.truthy (prefix cfg) = true ->
  fromMnemonic env (mnemonic cfg) (prefix cfg) = RpcOk sender ->
  exists endpoint url,
    sendTokens env receiver w
    = try_catch
        (sendTokens_retry env 5 None endpoint
           (sendTokens_attempt env sender receiver
              [mkCoin (cfg_denom cfg) (cfg_amount cfg)] (cfg_memo cfg) url))
        (fun error =>
           bind (console_error "Error sending tokens:" (message error))
                (fun _ => raise error))
        (after_call env w EvFetchConfig).
Proof.
  intros Hk Hc Hm Hwords Hvalid Hrpc Hdenom Hamount Hprefix Hwallet.
  unfold sendTokens.
  rewrite (bind_done _ _ _ _ _ (fetchFaucetConfig_ok env w cfg rest Hk Hc)).
  rewrite Hm, Hvalid, Hrpc, Hdenom, Hamount, Hprefix, Hwallet.
  destruct (Z.ltb_spec (Js.split_length " " (mnemonic cfg)) 12); [lia|].
  cbn [negb orb of_rpc]. eexists _, _. reflexivity.
Qed.

(** The loop when every pass throws after exactly one broadcast. *)
Lemma retry_repeats endpoint (attempt : M ProcessedResult) :
  (forall k, connect_reply env k = RpcOk tt) ->
  (forall w, exists e w' evs,
      attempt w = (Raise e, w')
      /\ trace w' = (trace w ++ evs)%list
      /\ count_events is_connect evs = 0%nat
      /\ count_events is_broadcast evs = 1%nat) ->
  forall retries txError w,
  exists e w' evs,
    sendTokens_retry env retries txError endpoint attempt w = (Raise e, w')
    /\ trace w' = (trace w ++ evs)%list
    /\ count_events is_connect evs = retries
    /\ count_events is_broadcast evs = retries.
Proof.
  intros Hconnect Hatt.
  induction retries as [|n IH]; intros txError w.
  - eexists _, w, []. cbn. rewrite List.app_nil_r. repeat split.
  - cbn [sendTokens_retry].
    erewrite bind_done
      by (unfold connectWithSigner; apply rpc_call_ok, Hconnect).
    destruct (Hatt (after_call env w (EvConnect endpoint)))
      as (e & w1 & evs1 & E1 & Ht1 & Hc1 & Hb1).
    rewrite (try_catch_raise _ _ _ _ _ E1).
    set (msg := Js.or_else (message e) "Error").
    rewrite !bind_console_error.
    match goal with
    | |- context [bind ?m ?k ?w0] =>
        assert (Hs : exists ms, m w0 = (Done tt, later w0 ms))
          by (destruct (isSequenceError msg); eexists; reflexivity);
        destruct Hs as [ms Hs]; rewrite (bind_done m k w0 tt _ Hs)
    end.
    match goal with
    | |- context [sendTokens_retry env n (Some e) endpoint attempt ?w0] =>
        destruct (IH (Some e) w0) as (e' & w' & evs' & E' & Ht' & Hc' & Hb')
    end.
    exists e', w'.
    exists ([EvConnect endpoint] ++ evs1
            ++ [EvConsoleError "Transaction error:" msg;
                EvConsoleError "Raw transaction error response:" (message e)]
            ++ evs')%list.
    rewrite E'. cbn [trace later after_call console_error snd] in Ht'.
    rewrite Ht', Ht1. cbn [trace after_call].
    rewrite !count_events_app, Hc1, Hb1, Hc', Hb'.
    repeat split.
    now rewrite <- !List.app_assoc.
Qed.

End DispatchCases.

(** A node that accepts every broadcast and never tells its chain id,
    while the faucet account's sequence stands still. *)
Section ReportFails.

Variable env : Env.
Variable s : Z.

Hypothesis Haccount :
  forall k, exists a, account_reply env k = RpcOk a /\ sequence_of a = s.
Hypothesis Haccepted : forall k, exists tx, broadcast_reply env k = RpcOk tx.
Hypothesis Hchain : forall k, exists e, chainId_reply env k = RpcError e.

Lemma standstill_answers k : answers env k.
Proof. destruct (Haccount k) as (a & Ha & _). now exists a. Qed.

Lemma standstill_seen k : seen env k = s.
Proof. destruct (Haccount k) as (a & Ha & Hs). unfold seen. now rewrite Ha. Qed.

Lemma attempt_report_fails sender receiver coins memo url w :
  exists e w' evs,
    sendTokens_attempt env sender receiver coins memo url w = (Raise e, w')
    /\ trace w' = (trace w ++ evs)%list
    /\ count_events is_connect evs = 0%nat
    /\ count_events is_broadcast evs = 1%nat.
Proof.
  unfold sendTokens_attempt.
  destruct (waitForSequenceStable_latest env sender 0 10000 w
              (fun k => standstill_answers _) ltac:(lia))
    as (n & w1 & E1 & _).
  rewrite standstill_seen in E1.
  destruct (tame_waitForSequenceStable env
              (fun ev => is_account_read ev = true) (fun _ => eq_refl)
              sender 0 10000 w)
    as [_ (evs1 & rows1 & Ht1 & Hp1 & _)].
  rewrite E1 in Ht1. cbn [snd] in Ht1.
  destruct (account_read_quiet evs1 Hp1) as (Hc1 & Hb1 & _).
  rewrite (bind_done _ _ _ _ _ E1), bind_setTimeout.
  destruct (Haccount (calls w1)) as (a & Ha & Hs).
  erewrite bind_done by (unfold getAccount; apply rpc_call_ok; exact Ha).
  rewrite Hs, Z.eqb_refl. cbn [negb].
  set (w2 := after_call env (later w1 1000) (EvGetAccount sender)).
  destruct (Haccepted (calls w2)) as [tx Htx].
  erewrite bind_done by (unfold signAndBroadcast; apply rpc_call_ok; exact Htx).
  set (w3 := after_call env w2 (EvBroadcast sender receiver coins memo)).
  unfold sendTokens_report.
  destruct (tame_waitForSequenceUpdate env
              (fun ev => is_account_read ev = true) (fun _ => eq_refl)
              sender s 15000 w3)
    as [Hd (evs2 & rows2 & Ht2 & Hp2 & _)].
  destruct (account_read_quiet evs2 Hp2) as (Hc2 & Hb2 & _).
  destruct (waitForSequenceUpdate env sender s 15000 w3) as [[x|e|] w4] eqn:E4;
    cbn [fst snd] in Hd, Ht2; [| |contradiction].
  2:{ rewrite (bind_raise _ _ _ _ _ E4).
      exfalso.
      destruct (waitForSequenceUpdate_latest env sender s 15000 w3
                  (fun k => standstill_answers _)) as (n2 & w5 & E5 & _).
      congruence. }
  rewrite (bind_done _ _ _ _ _ E4).
  destruct (Hchain (calls w4)) as [e He].
  erewrite bind_raise by (unfold getChainId; apply rpc_call_error; exact He).
  exists e. eexists.
  exists (evs1 ++ [EvGetAccount sender;
                   EvBroadcast sender receiver coins memo]
          ++ evs2 ++ [EvChainId])%list.
  split; [reflexivity|]. cbn [trace after_call].
  rewrite Ht2. unfold w3, w2. cbn [trace after_call later].
  rewrite Ht1, <- !List.app_assoc, !count_events_app, Hc1, Hb1, Hc2, Hb2.
  repeat split.
Qed.

End ReportFails.

(** ** The requester's address *)

Lemma string_app_assoc (a b c : string) : (a ++ b) ++ c = a ++ b ++ c.
Proof. induction a as [|x a IH]; cbn; [reflexivity|]. now rewrite IH. Qed.

Lemma split_head_first (sep : ascii) (first rest : string) :
  lacks sep first = true ->
  Js.split_head sep (first ++ String sep rest) = first.
Proof.
  induction first as [|c first IH]; cbn; intros H.
  - now rewrite Ascii.eqb_refl.
  - apply andb_true_iff in H. destruct H as [Hc H].
    apply negb_true_iff in Hc. rewrite Hc. now rewrite IH.
Qed.

Lemma split_head_whole (sep : ascii) (s : string) :
  lacks sep s = true -> Js.split_head sep s = s.
Proof.
  induction s as [|c s IH]; cbn; intros H; [reflexivity|].
  apply andb_true_iff in H. destruct H as [Hc H].
  apply negb_true_iff in Hc. rewrite Hc. now rewrite IH.
Qed.

Lemma all_space_app (a b : string) :
  all_space (a ++ b) = all_space a && all_space b.
Proof.
  induction a as [|c a IH]; cbn; [reflexivity|].
  now rewrite IH, andb_assoc.
Qed.

Lemma all_space_lacks (c : ascii) (s : string) :
  Js.is_space c = false -> all_space s = true -> lacks c s = true.
Proof.
  intros Hc. induction s as [|d s IH]; cbn; intros H; [reflexivity|].
  apply andb_true_iff in H. destruct H as [Hd H]. rewrite (IH H), andb_true_r.
  apply negb_true_iff, Ascii.eqb_neq. intros ->. congruence.
Qed.

Lemma trimStart_pad (pad s : string) :
  all_space pad = true -> Js.trimStart (pad ++ s) = Js.trimStart s.
Proof.
  induction pad as [|c pad IH]; cbn; intros H; [reflexivity|].
  apply andb_true_iff in H. destruct H as [Hc H]. rewrite Hc. now apply IH.
Qed.

Lemma trimStart_all_space (pad : string) :
  all_space pad = true -> Js.trimStart pad = EmptyString.
Proof.
  induction pad as [|c pad IH]; cbn; intros H; [reflexivity|].
  apply andb_true_iff in H. destruct H as [Hc H]. rewrite Hc. now apply IH.
Qed.

Lemma trimStart_padded (s pad : string) :
  all_space pad = true ->
  Js.trimStart (s ++ pad)
  = if Js.truthy (Js.trimStart s) then Js.trimStart s ++ pad
    else EmptyString.
Proof.
  intros H. induction s as [|c s IH]; cbn.
  - now apply trimStart_all_space.
  - destruct (Js.is_space c); [exact IH|reflexivity].
Qed.

Lemma string_of_list_ascii_app (l1 l2 : list ascii) :
  string_of_list_ascii (l1 ++ l2)
  = string_of_list_ascii l1 ++ string_of_list_ascii l2.
Proof. induction l1 as [|c l1 IH]; cbn; [reflexivity|]. now rewrite IH. Qed.

Lemma list_ascii_of_string_app (a b : string) :
  list_ascii_of_string (a ++ b)
  = (list_ascii_of_string a ++ list_ascii_of_string b)%list.
Proof. induction a as [|c a IH]; cbn; [reflexivity|]. now rewrite IH. Qed.

Lemma reverse_app (a b : string) :
  Js.reverse (a ++ b) = Js.reverse b ++ Js.reverse a.
Proof.
  unfold Js.reverse.
  now rewrite list_ascii_of_string_app, List.rev_app_distr,
    string_of_list_ascii_app.
Qed.

Lemma all_space_reverse (s : string) :
  all_space (Js.reverse s) = all_space s.
Proof.
  induction s as [|c s IH]; [reflexivity|].
  change (String c s) with (String c EmptyString ++ s).
  rewrite reverse_app, !all_space_app, IH. cbn.
  now rewrite andb_true_r, andb_comm.
Qed.

(** White space around a text does not survive [trim]. *)
Lemma trim_padded (pad1 core pad2 : string) :
  all_space pad1 = true -> all_space pad2 = true ->
  Js.trim (pad1 ++ core ++ pad2) = Js.trim core.
Proof.
  intros H1 H2. unfold Js.trim.
  rewrite (trimStart_pad pad1 _ H1), (trimStart_padded core pad2 H2).
  destruct (Js.truthy (Js.trimStart core)) eqn:E.
  - rewrite reverse_app, trimStart_pad; [reflexivity|].
    now rewrite all_space_reverse.
  - destruct (Js.trimStart core); [reflexivity|discriminate].
Qed.

(** ** The web client *)

Section Keeps.

Variable R : Client.Page -> Client.Page -> Prop.
Hypothesis R_refl : forall p, R p p.
Hypothesis R_trans : forall p q r, R p q -> R q r -> R p r.

Lemma keeps_ret {A} (a : A) : ui_keeps R (Client.ret a).
Proof. intros p. apply R_refl. Qed.

Lemma keeps_throw {A} v : ui_keeps R (@Client.throw A v).
Proof. intros p. apply R_refl. Qed.

Lemma keeps_lift {A} (r : Client.Result A) : ui_keeps R (Client.lift r).
Proof. intros p. apply R_refl. Qed.

Lemma keeps_bind {A B} (m : Client.UI A) (k : A -> Client.UI B) :
  ui_keeps R m -> (forall a, ui_keeps R (k a)) -> ui_keeps R (Client.bind m k).
Proof.
  intros Hm Hk p. unfold Client.bind. specialize (Hm p).
  destruct (m p) as [[a|v] p1]; cbn [snd] in *; [|exact Hm].
  eapply R_trans; [exact Hm|apply Hk].
Qed.

Lemma keeps_try_catch {A} (m : Client.UI A) (h : JsValue -> Client.UI A) :
  ui_keeps R m -> (forall v, ui_keeps R (h v)) ->
  ui_keeps R (Client.try_catch m h).
Proof.
  intros Hm Hh p. unfold Client.try_catch. specialize (Hm p).
  destruct (m p) as [[a|v] p1]; cbn [snd] in *; [exact Hm|].
  eapply R_trans; [exact Hm|apply Hh].
Qed.

End Keeps.

Lemma ui_bind_returned {A B} (m : Client.UI A) (k : A -> Client.UI B) p a p' :
  m p = (Client.Returned a, p') -> Client.bind m k p = k a p'.
Proof. unfold Client.bind. now intros ->. Qed.

Lemma ui_bind_thrown {A B} (m : Client.UI A) (k : A -> Client.UI B) p v p' :
  m p = (Client.Thrown v, p') -> Client.bind m k p = (Client.Thrown v, p').
Proof. unfold Client.bind. now intros ->. Qed.

Lemma page_quiet_refl p : page_quiet p p.
Proof.
  repeat split. exists []. now rewrite List.app_nil_r.
Qed.

Lemma page_quiet_trans p q r : page_quiet p q -> page_quiet q r -> page_quiet p r.
Proof.
  intros (Hs & Ha & Hl & ts & Ht & Hf) (Hs' & Ha' & Hl' & ts' & Ht' & Hf').
  repeat split; try congruence.
  exists (ts ++ ts')%list. rewrite Ht', Ht, List.app_assoc.
  split; [reflexivity|]. now apply Forall_app.
Qed.

Lemma quiet_toast (t : Client.Toast) :
  Client.title t <> "Success! 🎉" -> ui_keeps page_quiet (Client.toast t).
Proof.
  intros Ht p. cbn. repeat split. exists [t]. auto.
Qed.

Lemma quiet_console_error label v :
  ui_keeps page_quiet (Client.console_error label v).
Proof.
  intros p. cbn. repeat split. exists []. now rewrite List.app_nil_r.
Qed.

Lemma quiet_setIsLoading b :
  ui_keeps page_quiet (Client.update (Client.setIsLoading b)).
Proof.
  intros p. cbn. repeat split. exists []. now rewrite List.app_nil_r.
Qed.

Ltac quiet_step :=
  first
    [ apply (keeps_bind page_quiet page_quiet_trans)
    | apply (keeps_ret page_quiet page_quiet_refl)
    | apply (keeps_throw page_quiet page_quiet_refl)
    | apply (keeps_lift page_quiet page_quiet_refl)
    | apply quiet_console_error
    | apply quiet_setIsLoading
    | apply quiet_toast; discriminate ].

Lemma quiet_isRateLimitErrorMessage message :
  ui_keeps page_quiet (Client.isRateLimitErrorMessage message).
Proof.
  unfold Client.isRateLimitErrorMessage.
  destruct (negb (Client.truthy message)); [quiet_step|].
  repeat (quiet_step; [quiet_step|]; intros []; [quiet_step|]).
  quiet_step.
Qed.

Lemma quiet_showRateLimitInfo message rateLimitType :
  ui_keeps page_quiet (Client.showRateLimitInfo message rateLimitType).
Proof.
  unfold Client.showRateLimitInfo.
  destruct (Client.is_string rateLimitType "ip");
    [|destruct (Client.is_string rateLimitType "address");
      [|destruct (Client.is_string rateLimitType "both");
        [|destruct (negb (Client.truthy rateLimitType))]]];
    (quiet_step; [quiet_step|]; intros _; quiet_step).
Qed.

Lemma quiet_handleSubmit_catch requestsLimit error :
  ui_keeps page_quiet (Client.handleSubmit_catch requestsLimit error).
Proof.
  unfold Client.handleSubmit_catch.
  quiet_step; [quiet_step|]. intros _.
  quiet_step.
  - quiet_step; [quiet_step|]. intros rateLimitType.
    destruct (Client.truthy rateLimitType); [quiet_step|].
    quiet_step; [quiet_step|]. intros st.
    destruct (Client.is_429 st); [quiet_step|].
    quiet_step; [quiet_step|]. intros message.
    destruct (Client.truthy message);
      [apply quiet_isRateLimitErrorMessage|quiet_step].
  - intros [|]; [|quiet_step].
    quiet_step; [quiet_step|]. intros limit.
    quiet_step; [quiet_step|]. intros rateLimitType.
    apply quiet_showRateLimitInfo.
Qed.

(** The [catch] clause of [handleSubmit] on what [sendTransaction] throws
    for a 429. *)
Lemma handleSubmit_catch_typed requestsLimit limit error t p :
  Client.truthy t = true ->
  Client.String_of requestsLimit = Client.Returned limit ->
  Client.handleSubmit_catch requestsLimit
    (JsObject [("error", error); ("success", JsBool false);
               ("rateLimitType", t)]) p
  = Client.showRateLimitInfo
      ("You have reached the " ++ limit
       ++ " requests per day limit. Please wait until tomorrow to request more test tokens.")
      t
      (Client.mkPage (Client.address p) (Client.isLoading p)
         (Client.requestsLimit p) (Client.toasts p) (Client.sent p)
         (Client.console p
          ++ [("Transaction error:",
               JsObject [("error", error); ("success", JsBool false);
                         ("rateLimitType", t)])])).
Proof.
  intros Ht Hl. unfold Client.handleSubmit_catch.
  rewrite (ui_bind_returned (Client.console_error _ _) _ p tt _ eq_refl).
  cbn [Client.get Client.field String.eqb Ascii.eqb Bool.eqb].
  unfold Client.bind, Client.lift, Client.ret. cbv beta iota.
  rewrite Ht, Hl. reflexivity.
Qed.

Lemma handleSubmit_catch_untyped requestsLimit message t p :
  Client.truthy t = false ->
  Js.truthy message = true ->
  rate_limit_phrase message = false ->
  Client.handleSubmit_catch requestsLimit
    (JsObject [("error", JsString message); ("success", JsBool false);
               ("rateLimitType", t)]) p
  = Client.toast
      (Client.mkToast "Request Failed"
         (Client.Text
            "Unable to process your request at the moment. Please try again later.")
         (Some "destructive"))
      (Client.mkPage (Client.address p) (Client.isLoading p)
         (Client.requestsLimit p) (Client.toasts p) (Client.sent p)
         (Client.console p
          ++ [("Transaction error:",
               JsObject [("error", JsString message);
                         ("success", JsBool false);
                         ("rateLimitType", t)])])).
Proof.
  intros Ht Hmsg Hphrase.
  unfold rate_limit_phrase in Hphrase.
  repeat match type of Hphrase with
         | _ || _ = false =>
             apply orb_false_elim in Hphrase;
             let H := fresh "Hp" in destruct Hphrase as [Hphrase H]
         end.
  unfold Client.handleSubmit_catch.
  rewrite (ui_bind_returned (Client.console_error _ _) _ p tt _ eq_refl).
  cbn [Client.get Client.field String.eqb Ascii.eqb Bool.eqb].
  repeat first
    [ progress unfold Client.bind, Client.lift, Client.ret,
        Client.isRateLimitErrorMessage
    | progress cbv beta iota
    | progress cbn [Client.truthy Client.includes Client.is_429 negb]
    | rewrite Ht | rewrite Hmsg | rewrite Hphrase | rewrite Hp2
    | rewrite Hp1 | rewrite Hp0 | rewrite Hp ].
  reflexivity.
Qed.

Section ClientFacts.

Variable net : nat -> Client.FetchReply.

Lemma getFaucetConfig_eq p :
  Client.getFaucetConfig net p
  = (match net (List.length (Client.sent p)) with
     | Client.Rejects reason => Client.Thrown (Client.error_object reason)
     | Client.Responds st text body =>
         if (200 <=? st) && (st <=? 299) then
           match body with
           | Client.Parses data => Client.Returned data
           | Client.Malformed reason =>
               Client.Thrown (Client.error_object reason)
           end
         else
           Client.Thrown
             (Client.error_object ("Failed to fetch config: " ++ text))
     end,
     page_after_call p Client.GetConfig).
Proof.
  unfold Client.getFaucetConfig, Client.bind, Client.fetch.
  destruct (net (List.length (Client.sent p))) as [reason|st text body];
    [reflexivity|].
  unfold Client.ok. cbn [Client.status Client.statusText].
  destruct ((200 <=? st) && (st <=? 299)); cbn [negb]; [|reflexivity].
  now destruct body.
Qed.

(** [sendTransaction] makes one request, and returns a body only from a
    response with a status from 200 to 299. *)
Lemma sendTransaction_eq receiver p :
  exists r,
    Client.sendTransaction net receiver p
    = (r, page_after_call p (transaction_call receiver))
    /\ forall data,
         r = Client.Returned data ->
         exists st text,
           net (List.length (Client.sent p))
           = Client.Responds st text (Client.Parses data)
           /\ 200 <= st <= 299.
Proof.
  unfold Client.sendTransaction, Client.bind, Client.fetch.
  destruct (net (List.length (Client.sent p))) as [reason|st text [data|reason]];
    cbn [Client.response_json Client.json Client.status Client.throw
         Client.ret Client.statusText].
  - eexists. split; [reflexivity|]. discriminate.
  - destruct (st =? 429) eqn:E429.
    { unfold Client.lift.
      destruct (Client.get data "error") as [e|v];
        [destruct (Client.get data "rateLimitType") as [t|v]|];
        eexists; (split; [reflexivity|]); discriminate. }
    unfold Client.ok. cbn [Client.status].
    destruct (Z.leb_spec 200 st), (Z.leb_spec st 299); cbn [andb negb];
      try (unfold Client.lift;
           destruct (Client.get data "error") as [e|v];
           [destruct (Client.get data "message") as [t|v]|];
           eexists; (split; [reflexivity|]); discriminate).
    eexists. split; [reflexivity|]. intros d [= <-].
    exists st, text. split; [reflexivity|lia].
  - eexists. split; [reflexivity|]. discriminate.
Qed.

Lemma sendTransaction_ok receiver p st text data :
  net (List.length (Client.sent p))
  = Client.Responds st text (Client.Parses data) ->
  200 <= st <= 299 ->
  Client.sendTransaction net receiver p
  = (Client.Returned data, page_after_call p (transaction_call receiver)).
Proof.
  intros E Hst.
  unfold Client.sendTransaction, Client.bind, Client.fetch. rewrite E.
  cbn [Client.response_json Client.json Client.status Client.ret].
  destruct (Z.eqb_spec st 429); [lia|].
  unfold Client.ok. cbn [Client.status].
  destruct (Z.leb_spec 200 st), (Z.leb_spec st 299); try lia. reflexivity.
Qed.

Lemma delivered_elim reply :
  delivered reply = true ->
  exists st text fields,
    reply = Client.Responds st text (Client.Parses (JsObject fields))
    /\ 200 <= st <= 299
    /\ shows_payment fields = true.
Proof.
  destruct reply as [reason|st text [[| | | | | | |fields]|reason]];
    cbn; try discriminate.
  intros H. apply andb_true_iff in H. destruct H as [H Hh].
  apply andb_true_iff in H. destruct H as [H1 H2].
  exists st, text, fields. repeat split; auto; lia.
Qed.

(** The test [!rawTxResult || !rawTxResult.transactionHash]. *)
Lemma missing_hash_eq (data : JsValue) p :
  (if negb (Client.truthy data) then Client.ret true
   else Client.bind (Client.lift (Client.get data "transactionHash"))
          (fun transactionHash =>
             Client.ret (negb (Client.truthy transactionHash)))) p
  = (Client.Returned
       (negb (match data with
              | JsObject fields =>
                  Client.truthy (Client.field "transactionHash" fields)
              | _ => false
              end)), p).
Proof.
  destruct data as [| |[|]|n|n|s|items|fields]; cbn; try reflexivity.
  - now destruct (n =? 0).
  - now destruct (n =? 0).
  - now destruct s.
Qed.

(** The part of the [try] block that shows the payment. *)
Lemma shows_payment_cases fields p1 :
  Client.truthy (Client.field "transactionHash" fields) = true ->
  let rest :=
    Client.bind (Client.lift (Client.get (JsObject fields) "transactionHash"))
      (fun transactionHash =>
       Client.bind (Client.lift (Client.get (JsObject fields) "height"))
         (fun height =>
          Client.bind (Client.lift (Client.optional_toString height))
            (fun _ =>
             Client.bind (Client.lift (Client.get (JsObject fields) "gasUsed"))
               (fun gasUsed =>
                Client.bind (Client.lift (Client.optional_toString gasUsed))
                  (fun _ =>
                   Client.bind
                     (Client.lift (Client.get (JsObject fields) "gasWanted"))
                     (fun gasWanted =>
                      Client.bind
                        (Client.lift (Client.optional_toString gasWanted))
                        (fun _ =>
                         Client.bind
                           (Client.lift
                              (Client.get (JsObject fields) "explorerTxUrl"))
                           (fun explorerTxUrl =>
                            Client.bind
                              (if Client.truthy explorerTxUrl
                               then Client.ret explorerTxUrl
                               else
                                 Client.bind
                                   (Client.lift
                                      (Client.String_of transactionHash))
                                   (fun hash =>
                                      Client.ret
                                        (JsString
                                           ("https://explorer.testnet.safrochain.com/safrochain/tx/"
                                            ++ hash))))
                              (fun href =>
                               Client.bind
                                 (Client.toast
                                    (Client.mkToast "Success! 🎉"
                                       (Client.ExplorerLink href) None))
                                 (fun _ =>
                                  Client.update
                                    (Client.setAddress EmptyString))))))))))) in
  if shows_payment fields
  then exists href,
         rest p1
         = (Client.Returned tt,
            Client.mkPage EmptyString (Client.isLoading p1)
              (Client.requestsLimit p1)
              (Client.toasts p1
               ++ [Client.mkToast "Success! 🎉" (Client.ExplorerLink href)
                     None])
              (Client.sent p1) (Client.console p1))
  else exists v, rest p1 = (Client.Thrown v, p1).
Proof.
  intros Hh rest. subst rest. unfold shows_payment, renders. rewrite Hh.
  cbn [andb Client.get].
  unfold Client.bind, Client.lift, Client.ret. cbv beta iota.
  destruct (Client.optional_toString (Client.field "height" fields));
    cbn [andb]; [|eexists; reflexivity].
  destruct (Client.optional_toString (Client.field "gasUsed" fields));
    cbn [andb]; [|eexists; reflexivity].
  destruct (Client.optional_toString (Client.field "gasWanted" fields));
    cbn [andb]; [|eexists; reflexivity].
  destruct (Client.truthy (Client.field "explorerTxUrl" fields));
    cbn [orb]; [eexists; reflexivity|].
  destruct (Client.String_of (Client.field "transactionHash" fields));
    eexists; reflexivity.
Qed.

(** What the [try] block of [handleSubmit] does after its request. *)
Lemma handleSubmit_try_cases a p :
  if delivered (net (List.length (Client.sent p)))
  then exists href,
         Client.handleSubmit_try net a p
         = (Client.Returned tt,
            Client.mkPage EmptyString (Client.isLoading p)
              (Client.requestsLimit p)
              (Client.toasts p
               ++ [Client.mkToast "Success! 🎉" (Client.ExplorerLink href)
                     None])
              (Client.sent p ++ [transaction_call a]) (Client.console p))
  else exists r p',
         Client.handleSubmit_try net a p = (r, p')
         /\ page_quiet (page_after_call p (transaction_call a)) p'.
Proof.
  destruct (delivered (net (List.length (Client.sent p)))) eqn:Ed.
  - destruct (delivered_elim _ Ed) as (st & text & fields & E & Hst & Hs).
    assert (Hh : Client.truthy (Client.field "transactionHash" fields) = true).
    { unfold shows_payment in Hs.
      destruct (Client.truthy (Client.field "transactionHash" fields));
        [reflexivity|discriminate]. }
    unfold Client.handleSubmit_try.
    rewrite (ui_bind_returned _ _ _ _ _
               (sendTransaction_ok a p st text (JsObject fields) E Hst)).
    rewrite (ui_bind_returned _ _ _ _ _ (missing_hash_eq (JsObject fields) _)).
    rewrite Hh. cbn [negb].
    pose proof (shows_payment_cases fields
                  (page_after_call p (transaction_call a)) Hh) as Hrest.
    cbv zeta in Hrest. rewrite Hs in Hrest. exact Hrest.
  - destruct (sendTransaction_eq a p) as (r & E & Hr).
    unfold Client.handleSubmit_try.
    destruct r as [data|v].
    2:{ rewrite (ui_bind_thrown _ _ _ _ _ E).
        eexists _, _. split; [reflexivity|apply page_quiet_refl]. }
    destruct (Hr data eq_refl) as (st & text & Ereply & Hst).
    rewrite Ereply in Ed.
    rewrite (ui_bind_returned _ _ _ _ _ E).
    rewrite (ui_bind_returned _ _ _ _ _ (missing_hash_eq data _)).
    destruct (match data with
              | JsObject fields =>
                  Client.truthy (Client.field "transactionHash" fields)
              | _ => false
              end) eqn:Hmissing; cbn [negb].
    + destruct data as [| | | | | | |fields]; try discriminate.
      cbn [delivered] in Ed.
      destruct (Z.leb_spec 200 st), (Z.leb_spec st 299); try lia.
      cbn [andb] in Ed.
      pose proof (shows_payment_cases fields
                    (page_after_call p (transaction_call a)) Hmissing) as Hrest.
      cbv zeta in Hrest. rewrite Ed in Hrest. destruct Hrest as [v ->].
      eexists _, _. split; [reflexivity|apply page_quiet_refl].
    + match goal with
      | |- exists r p', ?m ?p1 = _ /\ _ =>
          assert (Hm : ui_keeps page_quiet m);
          [|specialize (Hm p1); destruct (m p1) as [r p']; now exists r, p']
      end.
      quiet_step; [quiet_step|]. intros error.
      quiet_step; [quiet_step|]. intros _.
      quiet_step; [quiet_step|]. intros shown. quiet_step.
Qed.

(** What [handleSubmit] does with an address that has the prefix. *)
Lemma handleSubmit_cases p :
  Js.startsWith (Client.address p) "addr_safro" = true ->
  if delivered (net (List.length (Client.sent p)))
  then exists href,
         Client.handleSubmit net p
         = (Client.Returned tt,
            Client.mkPage EmptyString false (Client.requestsLimit p)
              (Client.toasts p
               ++ [Client.mkToast "Success! 🎉" (Client.ExplorerLink href)
                     None])
              (Client.sent p ++ [transaction_call (Client.address p)])
              (Client.console p))
  else exists r p',
         Client.handleSubmit net p = (r, p')
         /\ Client.isLoading p' = false
         /\ page_quiet
              (page_after_call p (transaction_call (Client.address p))) p'.
Proof.
  intros Hprefix. unfold Client.handleSubmit.
  rewrite (ui_bind_returned _ _ p tt (Client.setIsLoading true p) eq_refl).
  rewrite Hprefix. cbn [negb].
  unfold Client.finally, Client.try_catch.
  pose proof (handleSubmit_try_cases (Client.address p)
                (Client.setIsLoading true p)) as H.
  cbn [Client.sent Client.setIsLoading] in H.
  destruct (delivered (net (List.length (Client.sent p)))).
  - destruct H as [href ->]. exists href. reflexivity.
  - destruct H as (r & p1 & -> & Hq1).
    assert (Hq0 : page_quiet
                    (page_after_call p (transaction_call (Client.address p)))
                    p1).
    { destruct Hq1 as (Hs & Ha & Hl & ts & Ht & Hf).
      repeat split; auto. now exists ts. }
    destruct r as [[]|v].
    + eexists _, _. split; [reflexivity|]. split; [reflexivity|].
      destruct Hq0 as (Hs & Ha & Hl & ts & Ht & Hf).
      repeat split; auto. now exists ts.
    + pose proof (quiet_handleSubmit_catch (Client.requestsLimit p) v p1)
        as Hq2.
      destruct (Client.handleSubmit_catch (Client.requestsLimit p) v p1)
        as [r2 p2].
      cbn [snd] in Hq2.
      eexists _, _. split; [reflexivity|]. split; [reflexivity|].
      pose proof (page_quiet_trans _ _ _ Hq0 Hq2)
        as (Hs & Ha & Hl & ts & Ht & Hf).
      repeat split; auto. now exists ts.
Qed.

Lemma sendTransaction_429 receiver p text fields :
  net (List.length (Client.sent p))
  = Client.Responds 429 text (Client.Parses (JsObject fields)) ->
  Client.sendTransaction net receiver p
  = (Client.Thrown
       (JsObject
          [("error",
            Client.or_else (Client.field "error" fields)
              (JsString "Rate limit exceeded"));
           ("success", JsBool false);
           ("rateLimitType", Client.field "rateLimitType" fields)]),
     page_after_call p (transaction_call receiver)).
Proof.
  intros E. unfold Client.sendTransaction, Client.bind, Client.fetch.
  rewrite E. reflexivity.
Qed.

(** When the request throws, the [catch] clause and then the [finally]
    clause run. *)
Lemma handleSubmit_thrown p v p1 :
  Js.startsWith (Client.address p) "addr_safro" = true ->
  Client.sendTransaction net (Client.address p) (Client.setIsLoading true p)
  = (Client.Thrown v, p1) ->
  Client.handleSubmit net p
  = (fst (Client.handleSubmit_catch (Client.requestsLimit p) v p1),
     Client.setIsLoading false
       (snd (Client.handleSubmit_catch (Client.requestsLimit p) v p1))).
Proof.
  intros Hprefix E. unfold Client.handleSubmit.
  rewrite (ui_bind_returned _ _ p tt (Client.setIsLoading true p) eq_refl).
  rewrite Hprefix. cbn [negb].
  unfold Client.finally, Client.try_catch, Client.handleSubmit_try.
  rewrite (ui_bind_thrown _ _ _ _ _ E).
  now destruct (Client.handleSubmit_catch (Client.requestsLimit p) v p1).
Qed.

(** The requests [handleSubmit] sends. *)
Lemma handleSubmit_sends p :
  if Js.startsWith (Client.address p) "addr_safro"
  then Client.sent (snd (Client.handleSubmit net p))
       = (Client.sent p ++ [transaction_call (Client.address p)])%list
  else Client.sent (snd (Client.handleSubmit net p)) = Client.sent p.
Proof.
  destruct (Js.startsWith (Client.address p) "addr_safro") eqn:Hprefix.
  - pose proof (handleSubmit_cases p Hprefix) as H.
    destruct (delivered (net (List.length (Client.sent p)))).
    + destruct H as [href ->]. reflexivity.
    + destruct H as (r & p' & -> & _ & Hs & _). exact Hs.
  - unfold Client.handleSubmit.
    rewrite (ui_bind_returned _ _ p tt (Client.setIsLoading true p) eq_refl).
    rewrite Hprefix. reflexivity.
Qed.

End ClientFacts.

Lemma prefix_trans (a b c : string) :
  String.prefix a b = true -> String.prefix b c = true ->
  String.prefix a c = true.
Proof.
  revert b c. induction a as [|x a IH]; intros b c Hab Hbc.
  - now destruct c.
  - destruct b as [|y b]; cbn in Hab; [discriminate|].
    destruct (ascii_dec x y) as [->|]; [|discriminate].
    destruct c as [|z c]; cbn in Hbc |- *; [discriminate|].
    destruct (ascii_dec y z); [|discriminate]. now apply (IH b c).
Qed.

(** ** Serialization with and without the replacer *)

Section JsonMore.

Lemma bigints_as_strings_same :
  forall n v, (Json.depth v < n)%nat ->
    Json.has_bigint v = false -> Json.bigints_as_strings v = v.
Proof.
  induction n as [|n IH]; intros v Hd Hb; [lia|].
  destruct v as [| | | | |s|items|fields]; try reflexivity; try discriminate.
  - cbn [Json.has_bigint Json.bigints_as_strings] in *. f_equal.
    rewrite <- (List.map_id items) at 2. apply List.map_ext_in.
    intros x Hx. apply IH.
    + pose proof (depth_item x items Hx). cbn [Json.depth] in Hd. lia.
    + destruct (Json.has_bigint x) eqn:E; [|reflexivity].
      rewrite <- Hb. symmetry. apply existsb_exists. now exists x.
  - cbn [Json.has_bigint Json.bigints_as_strings] in *. f_equal.
    rewrite <- (List.map_id fields) at 2. apply List.map_ext_in.
    intros [k x] Hx. cbn [fst snd]. f_equal. apply IH.
    + pose proof (depth_field (k, x) fields Hx). cbn [Json.depth snd] in *. lia.
    + destruct (Json.has_bigint x) eqn:E; [|reflexivity].
      rewrite <- Hb. symmetry. apply existsb_exists. now exists (k, x).
Qed.

Lemma elements_plain (E : JsError) (f : JsValue -> Outcome (option string))
    (items : list JsValue) :
  (forall x, In x items ->
     if Json.has_bigint x then f x = Raise E else exists s, f x = Done s) ->
  if List.existsb Json.has_bigint items
  then Json.elements (List.map f items) = Raise E
  else exists ss, Json.elements (List.map f items) = Done ss.
Proof.
  induction items as [|x items IH]; intros H; cbn; [eauto|].
  specialize (IH (fun y Hy => H y (or_intror Hy))).
  pose proof (H x (or_introl eq_refl)) as Hx.
  destruct (Json.has_bigint x); cbn [orb].
  - now rewrite Hx.
  - destruct Hx as [s ->].
    destruct (List.existsb Json.has_bigint items).
    + now rewrite IH.
    + destruct IH as [ss ->]. eauto.
Qed.

Lemma members_plain (E : JsError) (f : JsValue -> Outcome (option string))
    (fields : list (string * JsValue)) :
  (forall kv, In kv fields ->
     if Json.has_bigint (snd kv) then f (snd kv) = Raise E
     else exists s, f (snd kv) = Done s) ->
  if List.existsb (fun kv => Json.has_bigint (snd kv)) fields
  then Json.members (List.map (fun kv => (fst kv, f (snd kv))) fields)
       = Raise E
  else exists ss,
         Json.members (List.map (fun kv => (fst kv, f (snd kv))) fields)
         = Done ss.
Proof.
  induction fields as [|[k x] fields IH]; intros H; cbn; [eauto|].
  specialize (IH (fun y Hy => H y (or_intror Hy))).
  pose proof (H (k, x) (or_introl eq_refl)) as Hx. cbn [snd] in Hx.
  destruct (Json.has_bigint x); cbn [orb].
  - now rewrite Hx.
  - destruct Hx as [s ->].
    destruct (List.existsb (fun kv => Json.has_bigint (snd kv)) fields).
    + now rewrite IH.
    + destruct IH as [ss ->]. eauto.
Qed.

(** Without a replacer the serializer throws exactly on the values that
    hold a bigint somewhere. *)
Lemma serialize_plain :
  forall fuel v,
    (Json.depth v < fuel)%nat ->
    if Json.has_bigint v
    then Json.SerializeJSONProperty fuel None v
         = Raise (Error "Do not know how to serialize a BigInt")
    else exists s, Json.SerializeJSONProperty fuel None v = Done s.
Proof.
  induction fuel as [|fuel IH]; intros v Hd; [lia|].
  destruct v as [| |[|]| | |s|items|fields];
    cbn [Json.has_bigint Json.SerializeJSONProperty]; eauto.
  - pose proof (elements_plain
                  (Error "Do not know how to serialize a BigInt")
                  (Json.SerializeJSONProperty fuel None) items) as H.
    destruct (List.existsb Json.has_bigint items).
    + rewrite H; [reflexivity|]. intros x Hx. apply IH.
      pose proof (depth_item x items Hx). cbn [Json.depth] in Hd. lia.
    + destruct H as [ss ->]; [|eauto]. intros x Hx. apply IH.
      pose proof (depth_item x items Hx). cbn [Json.depth] in Hd. lia.
  - pose proof (members_plain
                  (Error "Do not know how to serialize a BigInt")
                  (Json.SerializeJSONProperty fuel None) fields) as H.
    destruct (List.existsb (fun kv => Json.has_bigint (snd kv)) fields).
    + rewrite H; [reflexivity|]. intros kv Hkv. apply IH.
      pose proof (depth_field kv fields Hkv). cbn [Json.depth] in Hd. lia.
    + destruct H as [ss ->]; [|eauto]. intros kv Hkv. apply IH.
      pose proof (depth_field kv fields Hkv). cbn [Json.depth] in Hd. lia.
Qed.

End JsonMore.

(** ** What the answer does not depend on *)

(** The [catch] clause answers 500 with a body made from the error alone. *)
Lemma serve_catch_answer (e : JsError) :
  exists t,
    forall env ip region ua recv w,
      fst (serve_catch env ip region ua recv e w)
      = Done (mkResponse 500 (Some t)).
Proof.
  destruct (error_body_text (message e)) as [t Ht]. exists t.
  intros env ip region ua recv w.
  unfold serve_catch, bind, try_catch, console_error, lift, ret.
  pose proof (insert_ends env (mkUserRequest ip region ua recv false None) w)
    as Hd.
  destruct (insertUserRequest env _ w) as [[[]|e'|] w1]; cbn in Hd;
    try contradiction; rewrite Ht; reflexivity.
Qed.

Lemma serve_catch_blind (e : JsError) env env' ip ip' region region' ua ua'
    recv recv' w w' :
  fst (serve_catch env' ip' region' ua' recv' e w')
  = fst (serve_catch env ip region ua recv e w).
Proof.
  destruct (serve_catch_answer e) as [t Ht]. now rewrite !Ht.
Qed.

Section Sidelines.

Variable env : Env.
Variable inserts : nat -> InsertReply.
Variable regions : nat -> RegionReply.

Hypothesis Halike : forall k, insert_alike (inserts k) (insert_reply env k).

(** An insert ends alike in both deployments, whatever the record. *)
Lemma insert_outcome_alike r r' w :
  fst (insertUserRequest (with_sidelines env inserts regions) r' w)
  = fst (insertUserRequest env r w).
Proof.
  rewrite !insert_eq. cbn [insert_reply with_sidelines].
  destruct (Halike (calls w)) as [->|[Ha Hb]].
  - now destruct (insert_reply env (calls w)).
  - destruct (inserts (calls w)) as [e| |]; [now destruct (Ha e)| |];
      (destruct (insert_reply env (calls w)) as [e| |];
       [now destruct (Hb e)| |]); reflexivity.
Qed.

(** The same statement, and then handlers and continuations that answer
    alike. *)
Lemma guarded_alike {A} (m : M A) (h h' : JsError -> M Response)
    (k k' : A -> M Response) w :
  (forall e w1, fst (h' e w1) = fst (h e w1)) ->
  (forall a w1, fst (k' a w1) = fst (k a w1)) ->
  fst (guarded m h' k' w) = fst (guarded m h k w).
Proof.
  intros Hh Hk. unfold guarded. destruct (m w) as [[a|e|] w1]; auto.
Qed.

(** An insert, whatever the record, and then handlers and continuations
    that answer alike wherever they start. *)
Lemma guarded_insert_alike r r' (h h' : JsError -> M Response)
    (k k' : unit -> M Response) w :
  (forall e w1 w2, fst (h' e w1) = fst (h e w2)) ->
  (forall w1 w2, fst (k' tt w1) = fst (k tt w2)) ->
  fst (guarded (insertUserRequest (with_sidelines env inserts regions) r')
         h' k' w)
  = fst (guarded (insertUserRequest env r) h k w).
Proof.
  intros Hh Hk. unfold guarded.
  pose proof (insert_outcome_alike r r' w) as Ho.
  destruct (insertUserRequest (with_sidelines env inserts regions) r' w)
    as [o' w1'].
  destruct (insertUserRequest env r w) as [o w1].
  cbn [fst] in Ho. subst o'.
  destruct o as [[]|e|]; [apply Hk|apply Hh|reflexivity].
Qed.

Lemma respond_alike code payload (h h' : JsError -> M Response) w1 w2 :
  (forall e w1 w2, fst (h' e w1) = fst (h e w2)) ->
  fst (respond code payload h' w1) = fst (respond code payload h w2).
Proof.
  intros Hh. unfold respond, guarded, lift.
  destruct (JSON_stringify payload) as [text|e|];
    [reflexivity|apply Hh|reflexivity].
Qed.

Lemma fetchRegion_world ip w :
  exists region region' w1,
    fetchRegion (with_sidelines env inserts regions) ip w = (Done region', w1)
    /\ fetchRegion env ip w = (Done region, w1).
Proof.
  unfold fetchRegion.
  destruct (negb (Js.truthy ip) || String.eqb ip "127.0.0.1"
            || String.eqb ip "::1").
  { now exists None, None, w. }
  unfold bind, external. cbn [region_reply with_sidelines].
  change (after_call (with_sidelines env inserts regions) w (EvRegion ip))
    with (after_call env w (EvRegion ip)).
  assert (H : forall reply,
            exists region,
              match reply with
              | RegionFail => ret None
              | RegionJson country region city =>
                  if Js.truthy country
                  then ret (Some (Js.join ", "
                                    (List.filter Js.truthy
                                       [country; region; city])))
                  else ret None
              end (after_call env w (EvRegion ip))
              = (Done region, after_call env w (EvRegion ip))).
  { intros [|country region city]; [now exists None|].
    destruct (Js.truthy country); eexists; reflexivity. }
  destruct (H (regions (calls w))) as [region' ->].
  destruct (H (region_reply env (calls w))) as [region ->].
  now exists region, region', (after_call env w (EvRegion ip)).
Qed.

Lemma serve_dispatch_alike ip ua recv w :
  fst (serve_dispatch (with_sidelines env inserts regions) ip ua recv w)
  = fst (serve_dispatch env ip ua recv w).
Proof.
  unfold serve_dispatch.
  destruct (fetchRegion_world ip w) as (region & region' & w1 & E' & E).
  rewrite (guarded_done _ _ _ _ _ _ E'), (guarded_done _ _ _ _ _ _ E).
  change (sendTokens (with_sidelines env inserts regions))
    with (sendTokens env).
  apply guarded_alike; [intros; apply serve_catch_blind|].
  intros result w2.
  apply guarded_insert_alike; [intros; apply serve_catch_blind|].
  intros w3 w3'. unfold guarded, lift.
  destruct (JSONStringifyWithBigInt (js_of_result result)) as [text|e|];
    [reflexivity|apply serve_catch_blind|reflexivity].
Qed.

Lemma serve_alike req w :
  fst (serve (with_sidelines env inserts regions) req w)
  = fst (serve env req w).
Proof.
  unfold serve.
  destruct (String.eqb (method req) "OPTIONS"); [reflexivity|].
  apply guarded_alike; [intros; apply serve_catch_blind|].
  intros recv w0.
  change (fetchFaucetConfig (with_sidelines env inserts regions))
    with (fetchFaucetConfig env).
  apply guarded_alike; [intros; apply serve_catch_blind|].
  intros cfg w1.
  destruct (negb (Js.truthy (requester_ip req))).
  { apply respond_alike. intros. apply serve_catch_blind. }
  apply guarded_alike; [intros; apply serve_catch_blind|].
  intros t w2.
  change (getRequestCountByIp (with_sidelines env inserts regions))
    with (getRequestCountByIp env).
  apply guarded_alike; [intros; apply serve_catch_blind|].
  intros ipCount w3.
  change (getRequestCountByAddress (with_sidelines env inserts regions))
    with (getRequestCountByAddress env).
  apply guarded_alike; [intros; apply serve_catch_blind|].
  intros addrCount w4.
  unfold serve_checked.
  repeat match goal with
         | |- context [if ?c then _ else _] => destruct c
         end;
    first [ apply serve_dispatch_alike
          | apply guarded_insert_alike;
            [ intros; apply serve_catch_blind
            | intros; apply respond_alike; intros; apply serve_catch_blind ] ].
Qed.

End Sidelines.

(** ** Rows outside the window *)

Lemma filter_stale (f : AuditRow -> bool) (since : Z) (rows : list AuditRow) :
  (forall a, request_timestamp a < since -> f a = false) ->
  Forall (fun a => request_timestamp a < since) rows ->
  List.filter f rows = [].
Proof.
  intros Hf. induction 1 as [|a rows Ha _ IH]; cbn; [reflexivity|].
  now rewrite (Hf a Ha).
Qed.

Lemma matches_ip_stale ip since a :
  request_timestamp a < since -> matches_ip ip since a = false.
Proof.
  intros H. unfold matches_ip.
  destruct (Z.leb_spec since (request_timestamp a)); [lia|].
  apply andb_false_r.
Qed.

Lemma matches_address_stale address since a :
  request_timestamp a < since -> matches_address address since a = false.
Proof.
  intros H. unfold matches_address.
  destruct (Z.leb_spec since (request_timestamp a)); [lia|].
  apply andb_false_r.
Qed.

(** * Further properties of the edge function *)

(** X1.  [waitForSequenceStable] hands back what the chain told it last:
    when every account read answers and the budget is positive, it makes at
    least one read and returns the sequence of the last read it made,
    whether it leaves through the confirmation or through the timeout. *)
Theorem stabilizer_returns_latest_read (env : Env) (address : string)
    (expected maxWait : Z) (w : World) :
  (forall k, answers env (calls w + k)) ->
  0 < maxWait ->
  exists n w',
    waitForSequenceStable env address expected maxWait w
    = (Done (seen env (calls w + n)), w')
    /\ calls w' = (calls w + S n)%nat.
Proof. apply waitForSequenceStable_latest. Qed.

(** A sequence that settles on 7 after two reads. *)
Lemma stabilizer_returns_latest_read_witness :
  exists n w',
    waitForSequenceStable
      (example_env settling_accounts accepted table_answers)
      "addr_safro1faucet" 0 10000 (world_with [])
    = (Done (seen (example_env settling_accounts accepted table_answers)
               (calls (world_with []) + n)), w')
    /\ calls w' = (calls (world_with []) + S n)%nat.
Proof.
  apply (stabilizer_returns_latest_read
           (example_env settling_accounts accepted table_answers)
           "addr_safro1faucet" 0 10000 (world_with [])).
  - intros k. eexists. reflexivity.
  - lia.
Defined.

(** X2.  [waitForSequenceUpdate] always reads the account at least once,
    even with no time left, and returns the sequence of its last read; it
    comes back either because that sequence is above the previous one or
    because the budget is used up. *)
Theorem update_poller_returns_latest_read (env : Env) (address : string)
    (previous maxWait : Z) (w : World) :
  (forall k, answers env (calls w + k)) ->
  exists n w',
    waitForSequenceUpdate env address previous maxWait w
    = (Done (seen env (calls w + n)), w')
    /\ calls w' = (calls w + S n)%nat
    /\ (previous + 1 <= seen env (calls w + n)
        \/ maxWait <= now w' - now w).
Proof. apply waitForSequenceUpdate_latest. Qed.

(** The sequence stands at 7 and 7 was the sequence signed with: the
    poller gives up after 15 seconds. *)
Lemma update_poller_returns_latest_read_witness :
  exists n w',
    waitForSequenceUpdate
      (example_env steady_accounts accepted table_answers)
      "addr_safro1faucet" 7 15000 (world_with [])
    = (Done (seen (example_env steady_accounts accepted table_answers)
               (calls (world_with []) + n)), w')
    /\ calls w' = (calls (world_with []) + S n)%nat
    /\ (7 + 1 <= seen (example_env steady_accounts accepted table_answers)
                   (calls (world_with []) + n)
        \/ 15000 <= now w' - now (world_with [])).
Proof.
  apply (update_poller_returns_latest_read
           (example_env steady_accounts accepted table_answers)
           "addr_safro1faucet" 7 15000 (world_with [])).
  intros k. eexists. reflexivity.
Defined.

(** X3.  Whatever the config table, the wallet library and the chain node
    answer, [sendTokens] comes to an end having opened at most five clients
    and broadcast at most once per client. *)
Theorem sendTokens_bounded_attempts (env : Env) (receiver : string)
    (w : World) :
  exists o w' evs,
    sendTokens env receiver w = (o, w')
    /\ o <> Diverge
    /\ trace w' = (trace w ++ evs)%list
    /\ (count_events is_connect evs <= 5)%nat
    /\ (count_events is_broadcast evs <= count_events is_connect evs)%nat.
Proof.
  destruct (sendTokens_runs env receiver w)
    as [Hd (evs & Ht & Hc & Hb & _)].
  destruct (sendTokens env receiver w) as [o w'].
  exists o, w', evs. auto.
Qed.

(** X4.  Every broadcast [sendTokens] makes pays the receiver it was
    called with, from the address derived from the configured mnemonic,
    exactly one coin of the configured denomination and amount, with the
    configured memo. *)
Theorem sendTokens_pays_as_configured (env : Env) (receiver : string)
    (w : World) :
  exists evs,
    trace (snd (sendTokens env receiver w)) = (trace w ++ evs)%list
    /\ Forall (pays_as_configured env w receiver) evs.
Proof.
  destruct (sendTokens_runs env receiver w)
    as [_ (evs & Ht & _ & _ & Hp & _)].
  now exists evs.
Qed.

(** X5.  Every client [sendTokens] opens is opened on a URL that names a
    protocol: the configured endpoint itself when it starts with [http://]
    or [https://], and otherwise the endpoint with [https://] put in
    front. *)
Theorem sendTokens_connects_over_http (env : Env) (receiver : string)
    (w : World) :
  exists evs,
    trace (snd (sendTokens env receiver w)) = (trace w ++ evs)%list
    /\ Forall (fun ev =>
                 connects_as_configured env w ev
                 /\ forall endpoint,
                      ev = EvConnect endpoint ->
                      Js.startsWith endpoint "http://"
                      || Js.startsWith endpoint "https://" = true) evs.
Proof.
  destruct (sendTokens_runs env receiver w)
    as [_ (evs & Ht & _ & _ & _ & Hn & _)].
  exists evs. split; [exact Ht|].
  eapply Forall_impl; [|exact Hn].
  intros ev Hev. split; [exact Hev|].
  intros endpoint ->. cbn in Hev. destruct Hev as (cfg & rest & _ & ->).
  destruct (Js.startsWith (rpc_endpoint cfg) "http://") eqn:E1;
    cbn [orb]; [now rewrite E1|].
  destruct (Js.startsWith (rpc_endpoint cfg) "https://") eqn:E2;
    [now rewrite E2, orb_true_r|].
  apply orb_true_iff. right. unfold Js.startsWith. cbn.
  repeat (destruct (ascii_dec _ _); [|congruence]).
  now destruct (rpc_endpoint cfg).
Qed.

(** X6.  [sendTokens] returns a result only after a broadcast: a result
    says [success: true], names the receiver it was called with, and at least
    one broadcast was made on the way. *)
Theorem sendTokens_result_needs_broadcast (env : Env) (receiver : string)
    (w : World) (r : ProcessedResult) (w' : World) :
  sendTokens env receiver w = (Done r, w') ->
  exists evs,
    trace w' = (trace w ++ evs)%list
    /\ (1 <= count_events is_broadcast evs)%nat
    /\ pr_success r = true
    /\ pr_receiverAddress r = receiver.
Proof.
  intros E.
  destruct (sendTokens_runs env receiver w)
    as [_ (evs & Ht & _ & _ & _ & _ & Hdone)].
  rewrite E in Ht, Hdone. cbn [fst snd] in Ht, Hdone.
  exists evs. destruct (Hdone r eq_refl) as (? & ? & ?). auto.
Qed.

(** A quiescent account and a node that accepts the broadcast. *)
Lemma sendTokens_result_needs_broadcast_witness :
  exists r evs,
    fst (sendTokens (example_env steady_accounts accepted table_answers)
           "addr_safro1xyz" (world_with [])) = Done r
    /\ trace (snd (sendTokens
                     (example_env steady_accounts accepted table_answers)
                     "addr_safro1xyz" (world_with [])))
       = (trace (world_with []) ++ evs)%list
    /\ (1 <= count_events is_broadcast evs)%nat
    /\ pr_receiverAddress r = "addr_safro1xyz".
Proof.
  edestruct (sendTokens_result_needs_broadcast
               (example_env steady_accounts accepted table_answers)
               "addr_safro1xyz" (world_with []))
    as (evs & Ht & Hb & _ & Hr).
  - vm_compute. reflexivity.
  - eexists _, evs. split; [vm_compute; reflexivity|].
    split; [exact Ht|]. split; [exact Hb|exact Hr].
Defined.

(** X7.  The handler answers every request: whatever the outside world
    does, [serve] returns a response (no exception escapes it and no polling
    budget runs out) and its status is 200, 400, 429 or 500. *)
Theorem serve_always_answers (env : Env) (req : Request) (w : World) :
  exists r w',
    serve env req w = (Done r, w')
    /\ (status r = 200 \/ status r = 400 \/ status r = 429
        \/ status r = 500).
Proof.
  destruct (String.eqb (method req) "OPTIONS") eqn:Hm.
  { unfold serve. rewrite Hm. eexists _, _. split; [reflexivity|]. now left. }
  destruct (serve_runs env req w Hm) as [_ (evs & _ & r & E & Hs & _)].
  destruct (serve env req w) as [o w']. cbn [fst] in E. subst o.
  now exists r, w'.
Qed.

(** X8.  A request other than a preflight is answered 200 only after a
    transfer has been broadcast and a record with [success: true] has been
    handed to the audit table. *)
Theorem serve_success_needs_broadcast (env : Env) (req : Request)
    (w : World) (r : Response) (w' : World) :
  String.eqb (method req) "OPTIONS" = false ->
  serve env req w = (Done r, w') ->
  status r = 200 ->
  exists evs,
    trace w' = (trace w ++ evs)%list
    /\ (1 <= count_events is_broadcast evs)%nat
    /\ Exists logs_success evs.
Proof.
  intros Hm E H200.
  destruct (serve_runs env req w Hm)
    as [_ (evs & Ht & r' & E' & _ & Hok & _)].
  rewrite E in Ht, E'. cbn [fst snd] in Ht, E'. injection E' as <-.
  exists evs. destruct (Hok H200). auto.
Qed.

(** A first request for a well-formed address. *)
Lemma serve_success_needs_broadcast_witness :
  exists evs,
    trace (snd (serve (example_env steady_accounts accepted table_answers)
                  (example_request (Some "203.0.113.7") "addr_safro1xyz")
                  (world_with [])))
    = (trace (world_with []) ++ evs)%list
    /\ (1 <= count_events is_broadcast evs)%nat
    /\ Exists logs_success evs.
Proof.
  edestruct (serve_success_needs_broadcast
               (example_env steady_accounts accepted table_answers)
               (example_request (Some "203.0.113.7") "addr_safro1xyz")
               (world_with []))
    as (evs & Ht & H).
  - reflexivity.
  - vm_compute. reflexivity.
  - reflexivity.
  - exists evs. split; [exact Ht|exact H].
Defined.

(** X9.  The handler pays nobody but the address named in the request:
    every broadcast made while a request is served goes to the [receiver] of
    its body, and there are at most five of them. *)
Theorem serve_pays_only_the_requested_address (env : Env) (req : Request)
    (w : World) :
  exists evs,
    trace (snd (serve env req w)) = (trace w ++ evs)%list
    /\ (count_events is_broadcast evs <= 5)%nat
    /\ Forall (pays_only (fun to => body req = BodyJson (Some to))) evs.
Proof.
  destruct (String.eqb (method req) "OPTIONS") eqn:Hm.
  { unfold serve. rewrite Hm. exists []. cbn. rewrite List.app_nil_r.
    repeat split; auto. lia. }
  destruct (serve_runs env req w Hm)
    as [_ (evs & Ht & r & _ & _ & _ & Hb & Hp & _)].
  now exists evs.
Qed.

(** X10.  The handler calls the chain node only for a request that has
    passed every check: if a client is opened, an account read or a transfer
    broadcast while a request is served, then the request had a body with a
    receiver, the config could be read, the requester's address was known,
    both counts were taken and were below the limit, and the receiver was a
    non-empty string starting with the configured prefix. *)
Theorem serve_calls_chain_only_after_checks (env : Env) (req : Request)
    (w : World) :
  exists evs,
    trace (snd (serve env req w)) = (trace w ++ evs)%list
    /\ (Exists (fun ev => is_chain ev = true) evs -> passes_checks env req w).
Proof.
  destruct (String.eqb (method req) "OPTIONS") eqn:Hm.
  { unfold serve. rewrite Hm. exists []. cbn. rewrite List.app_nil_r.
    split; [reflexivity|]. intros H. inversion H. }
  destruct (serve_runs env req w Hm)
    as [_ (evs & Ht & r & _ & _ & _ & _ & _ & Ha)].
  now exists evs.
Qed.

(** X11.  With a config row that cannot be used (no mnemonic, a mnemonic
    of fewer than twelve words or one the wallet library rejects, or no
    endpoint, denomination, amount or prefix) [sendTokens] throws a
    configuration error right after reading the config: it logs the error and
    makes no call to the chain node. *)
Theorem sendTokens_rejects_unusable_config (env : Env) (receiver : string)
    (w : World) (cfg : FaucetConfig) (rest : list FaucetConfig) :
  Js.truthy (service_role_key env) = true ->
  config_reply env (calls w) = ConfigRows (cfg :: rest) ->
  Js.truthy (mnemonic cfg) = false
  \/ Js.split_length " " (mnemonic cfg) < 12
  \/ validateMnemonic env (mnemonic cfg) = false
  \/ Js.truthy (rpc_endpoint cfg) = false
  \/ Js.truthy (cfg_denom cfg) = false
  \/ Js.truthy (cfg_amount cfg) = false
  \/ Js.truthy (prefix cfg) = false ->
  exists e w',
    sendTokens env receiver w = (Raise e, w')
    /\ trace w'
       = (trace w
          ++ [EvFetchConfig;
              EvConsoleError "Error sending tokens:" (message e)])%list
    /\ (message e = "Invalid or missing MNEMONIC configuration"
        \/ message e
           = "Missing required configuration (rpc_endpoint, denom, amount, or prefix)").
Proof.
  intros Hk Hc Hbad. unfold sendTokens.
  rewrite (bind_done _ _ _ _ _ (fetchFaucetConfig_ok env w cfg rest Hk Hc)).
  destruct (negb (Js.truthy (mnemonic cfg))
            || (Js.split_length " " (mnemonic cfg) <? 12)
            || negb (validateMnemonic env (mnemonic cfg))) eqn:E1.
  { eexists _, _. split; [reflexivity|]. cbn. rewrite <- List.app_assoc.
    split; [reflexivity|]. now left. }
  destruct (negb (Js.truthy (rpc_endpoint cfg))
            || negb (Js.truthy (cfg_denom cfg))
            || negb (Js.truthy (cfg_amount cfg))
            || negb (Js.truthy (prefix cfg))) eqn:E2.
  { eexists _, _. split; [reflexivity|]. cbn. rewrite <- List.app_assoc.
    split; [reflexivity|]. now right. }
  exfalso.
  repeat match goal with
         | H : _ || _ = false |- _ =>
             apply orb_false_elim in H; destruct H
         | H : negb _ = false |- _ => apply negb_false_iff in H
         end.
  destruct (Z.ltb_spec (Js.split_length " " (mnemonic cfg)) 12);
    [discriminate|].
  intuition (congruence || lia).
Qed.

(** The config row has no denomination. *)
Lemma sendTokens_rejects_unusable_config_witness :
  exists e w',
    sendTokens env_without_denom "addr_safro1xyz" (world_with [])
    = (Raise e, w')
    /\ trace w'
       = (trace (world_with [])
          ++ [EvFetchConfig;
              EvConsoleError "Error sending tokens:" (message e)])%list
    /\ (message e = "Invalid or missing MNEMONIC configuration"
        \/ message e
           = "Missing required configuration (rpc_endpoint, denom, amount, or prefix)").
Proof.
  apply (sendTokens_rejects_unusable_config env_without_denom
           "addr_safro1xyz" (world_with []) config_without_denom []).
  - reflexivity.
  - reflexivity.
  - do 4 right. left. reflexivity.
Defined.

(** X12.  A failure after the broadcast makes the dispatcher pay again.
    With a usable config, a faucet account whose sequence stands still and a
    node that accepts every broadcast, if the chain id cannot be fetched then
    every one of the five passes broadcasts the transfer, and [sendTokens]
    ends by throwing: five transfers have been accepted and the caller is
    told of a failure. *)
Theorem failed_report_repeats_payout (env : Env) (receiver : string)
    (w : World) (cfg : FaucetConfig) (rest : list FaucetConfig)
    (sender : string) (s : Z) :
  Js.truthy (service_role_key env) = true ->
  config_reply env (calls w) = ConfigRows (cfg :: rest) ->
  Js.truthy (mnemonic cfg) = true ->
  12 <= Js.split_length " " (mnemonic cfg) ->
  validateMnemonic env (mnemonic cfg) = true ->
  Js.truthy (rpc_endpoint cfg) = true ->
  Js.truthy (cfg_denom cfg) = true ->
  Js.truthy (cfg_amount cfg) = true ->
  Js.truthy (prefix cfg) = true ->
  fromMnemonic env (mnemonic cfg) (prefix cfg) = RpcOk sender ->
  (forall k, connect_reply env k = RpcOk tt) ->
  (forall k, exists a, account_reply env k = RpcOk a /\ sequence_of a = s) ->
  (forall k, exists tx, broadcast_reply env k = RpcOk tx) ->
  (forall k, exists e, chainId_reply env k = RpcError e) ->
  exists e w' evs,
    sendTokens env receiver w = (Raise e, w')
    /\ trace w' = (trace w ++ evs)%list
    /\ count_events is_connect evs = 5%nat
    /\ count_events is_broadcast evs = 5%nat.
Proof.
  intros Hk Hc Hm Hwords Hvalid Hrpc Hdenom Hamount Hprefix Hwallet
         Hconnect Haccount Haccepted Hchain.
  destruct (sendTokens_usable env receiver w cfg rest sender Hk Hc Hm Hwords
              Hvalid Hrpc Hdenom Hamount Hprefix Hwallet)
    as (endpoint & url & ->).
  destruct (retry_repeats env endpoint
              (sendTokens_attempt env sender receiver
                 [mkCoin (cfg_denom cfg) (cfg_amount cfg)] (cfg_memo cfg) url)
              Hconnect
              (attempt_report_fails env s Haccount Haccepted Hchain sender
                 receiver _ _ url)
              5 None (after_call env w EvFetchConfig))
    as (e & w' & evs & E & Ht & Hcn & Hbr).
  rewrite (try_catch_raise _ _ _ _ _ E), bind_console_error.
  exists e. eexists.
  exists ([EvFetchConfig] ++ evs
          ++ [EvConsoleError "Error sending tokens:" (message e)])%list.
  split; [reflexivity|]. cbn [trace after_call] in Ht |- *.
  rewrite Ht, <- !List.app_assoc, !count_events_app, Hcn, Hbr.
  repeat split.
Qed.

Lemma failed_report_repeats_payout_witness :
  exists e w' evs,
    sendTokens mute_chain_env "addr_safro1xyz" (world_with []) = (Raise e, w')
    /\ trace w' = (trace (world_with []) ++ evs)%list
    /\ count_events is_connect evs = 5%nat
    /\ count_events is_broadcast evs = 5%nat.
Proof.
  apply (failed_report_repeats_payout mute_chain_env "addr_safro1xyz"
           (world_with []) example_config [] "addr_safro1faucet" 7);
    first [ reflexivity
          | apply Z.leb_le; reflexivity
          | intros k; reflexivity
          | intros k; eexists; split; reflexivity
          | intros k; eexists; reflexivity ].
Defined.

(** X13.  A sequence change caught by the final check before signing is
    not treated as a sequence conflict.  When the account read that follows
    the stabilizer differs from the stabilized value, the pass ends without a
    broadcast, and, the message of its error spelling "Sequence" with a
    capital, the loop goes into its next pass after the short pause of one
    second rather than after five. *)
Theorem final_check_mismatch_backs_off_one_second (env : Env)
    (sender receiver : string) (coins : list Coin) (memo url endpoint : string)
    (n : nat) (txError : option JsError) (w : World) (s : Z) (w1 : World)
    (a : option Z) :
  connect_reply env (calls w) = RpcOk tt ->
  waitForSequenceStable env sender 0 10000
    (after_call env w (EvConnect endpoint)) = (Done s, w1) ->
  account_reply env (calls w1) = RpcOk a ->
  sequence_of a <> s ->
  exists e w2,
    sendTokens_retry env (S n) txError endpoint
      (sendTokens_attempt env sender receiver coins memo url) w
    = sendTokens_retry env n (Some e) endpoint
        (sendTokens_attempt env sender receiver coins memo url) w2
    /\ trace w2
       = (trace w1
          ++ [EvGetAccount sender;
              EvConsoleError "Transaction error:" (message e);
              EvConsoleError "Raw transaction error response:" (message e)])%list
    /\ now w2 = now w1 + 1000 + Z.of_N (latency env (calls w1)) + 1000.
Proof.
  intros Hconnect E1 Ha Hne. cbn [sendTokens_retry].
  erewrite bind_done
    by (unfold connectWithSigner; apply rpc_call_ok, Hconnect).
  unfold sendTokens_attempt at 1.
  unfold try_catch at 1.
  rewrite (bind_done _ _ _ _ _ E1), bind_setTimeout.
  erewrite bind_done by (unfold getAccount; apply rpc_call_ok; exact Ha).
  destruct (Z.eqb_spec (sequence_of a) s) as [|_]; [contradiction|].
  cbn [negb raise].
  rewrite !bind_console_error. cbn [message].
  rewrite final_check_message_class.
  rewrite bind_setTimeout.
  eexists _, _. split; [reflexivity|].
  cbn [trace now calls later after_call message Js.or_else Js.truthy append].
  rewrite <- !List.app_assoc. split; reflexivity.
Qed.

(** The account moves from 7 to 8 between the confirmation read and the
    final check. *)
Lemma final_check_mismatch_backs_off_one_second_witness :
  exists e w2,
    sendTokens_retry
      (example_env late_bump_accounts accepted table_answers) 5 None
      "https://rpc.example.org"
      (sendTokens_attempt
         (example_env late_bump_accounts accepted table_answers)
         "addr_safro1faucet" "addr_safro1xyz" [mkCoin "usaf" "250000000"]
         "faucet" "https://explorer.example.org/tx/")
      (world_with [])
    = sendTokens_retry
        (example_env late_bump_accounts accepted table_answers) 4 (Some e)
        "https://rpc.example.org"
        (sendTokens_attempt
           (example_env late_bump_accounts accepted table_answers)
           "addr_safro1faucet" "addr_safro1xyz" [mkCoin "usaf" "250000000"]
           "faucet" "https://explorer.example.org/tx/")
        w2
    /\ count_events is_broadcast (trace w2) = 0%nat.
Proof.
  edestruct (final_check_mismatch_backs_off_one_second
               (example_env late_bump_accounts accepted table_answers)
               "addr_safro1faucet" "addr_safro1xyz"
               [mkCoin "usaf" "250000000"] "faucet"
               "https://explorer.example.org/tx/" "https://rpc.example.org"
               4 None (world_with []))
    as (e & w2 & E & Ht & _).
  - reflexivity.
  - vm_compute. reflexivity.
  - reflexivity.
  - vm_compute. discriminate.
  - exists e, w2. split; [exact E|]. rewrite Ht. reflexivity.
Defined.

(** X14.  Whether an error counts as a sequence conflict depends on one
    thing only: its message containing [sequence], in lower case.  The two
    longer phrases the test also looks for contain that word, so they never
    change the answer. *)
Theorem isSequenceError_is_includes_sequence (m : string) :
  isSequenceError m = Js.includes m "sequence".
Proof. apply isSequenceError_eq. Qed.

(** X15.  The replacer of [JSONStringifyWithBigInt] changes nothing but
    bigints.  On a value that holds no bigint it gives exactly the text of
    [JSON.stringify]; on a value that holds one, anywhere, [JSON.stringify]
    throws "Do not know how to serialize a BigInt" while
    [JSONStringifyWithBigInt] returns a text. *)
Theorem bigint_replacer_only_touches_bigints (obj : JsValue) :
  if Json.has_bigint obj
  then JSON_stringify obj
       = Raise (Error "Do not know how to serialize a BigInt")
       /\ exists text, JSONStringifyWithBigInt obj = Done text
  else JSONStringifyWithBigInt obj = JSON_stringify obj.
Proof.
  pose proof (serialize_plain (S (Json.depth obj)) obj ltac:(lia)) as H.
  destruct (Json.has_bigint obj) eqn:E.
  - split; [exact H|]. apply JSONStringifyWithBigInt_ends.
  - rewrite JSONStringifyWithBigInt_plain.
    now rewrite (bigints_as_strings_same (S (Json.depth obj))) by (lia || auto).
Qed.



(** * Properties of the web client *)

(** X17.  [getRequestsLimit] never throws and never yields a falsy limit.
    It makes one request for the config and returns either 3 or the
    [requests_limit_per_day] of the object a response with a status from 200
    to 299 carried; a rejected request, another status, a body that is not
    JSON or not an object, and a limit that is missing, 0 or otherwise falsy
    all give 3. *)
Theorem getRequestsLimit_never_throws (net : nat -> Client.FetchReply)
    (p : Client.Page) :
  exists v p',
    Client.getRequestsLimit net p = (Client.Returned v, p')
    /\ Client.truthy v = true
    /\ Client.sent p' = (Client.sent p ++ [Client.GetConfig])%list
    /\ (v = JsNumber 3
        \/ exists st text fields,
             net (List.length (Client.sent p))
             = Client.Responds st text (Client.Parses (JsObject fields))
             /\ 200 <= st <= 299
             /\ v = Client.field "requests_limit_per_day" fields).
Proof.
  unfold Client.getRequestsLimit, Client.try_catch.
  unfold Client.bind at 1. rewrite getFaucetConfig_eq.
  destruct (net (List.length (Client.sent p)))
    as [reason|st text [data|reason]] eqn:E.
  - eexists _, _. split; [reflexivity|]. cbn. auto.
  - destruct (Z.leb_spec 200 st), (Z.leb_spec st 299); cbn [andb];
      try (eexists _, _; split; [reflexivity|]; cbn; now auto).
    destruct data as [| |b|n|n|s|items|fields];
      try (eexists _, _; split; [reflexivity|]; cbn; now auto).
    cbn [Client.bind Client.ret Client.lift Client.get].
    unfold Client.or_else.
    destruct (Client.truthy (Client.field "requests_limit_per_day" fields))
      eqn:Ht; eexists _, _; (split; [reflexivity|]).
    + split; [exact Ht|]. split; [reflexivity|]. right.
      exists st, text, fields. repeat split; auto.
    + cbn. auto.
  - destruct (Z.leb_spec 200 st), (Z.leb_spec st 299); cbn [andb];
      eexists _, _; (split; [reflexivity|]); cbn; auto.
Qed.



(** X19.  [handleSubmit] never leaves the form spinning and sends at most
    one request.  Whatever the server answers, and also when the handler ends
    by throwing, the form is not loading afterwards, the limit shown is
    unchanged, and the requests sent are the ones sent before, followed at
    most by one transaction request for the address typed in.  For an address
    that does not start with [addr_safro] nothing is sent at all: the form
    shows "Invalid address" and keeps the address. *)
Theorem handleSubmit_never_stuck_loading (net : nat -> Client.FetchReply)
    (p : Client.Page) :
  let r := fst (Client.handleSubmit net p) in
  let p' := snd (Client.handleSubmit net p) in
  Client.isLoading p' = false
  /\ Client.requestsLimit p' = Client.requestsLimit p
  /\ (if Js.startsWith (Client.address p) "addr_safro"
      then Client.sent p'
           = (Client.sent p ++ [transaction_call (Client.address p)])%list
      else Client.sent p' = Client.sent p
           /\ r = Client.Returned tt
           /\ Client.address p' = Client.address p
           /\ Client.toasts p'
              = (Client.toasts p
                 ++ [Client.mkToast "Invalid address"
                       (Client.Text "Address must start with 'addr_safro'")
                       (Some "destructive")])%list).
Proof.
  intros r p'. subst r p'.
  destruct (Js.startsWith (Client.address p) "addr_safro") eqn:Hprefix.
  - pose proof (handleSubmit_cases net p Hprefix) as H.
    destruct (delivered (net (List.length (Client.sent p)))).
    + destruct H as [href ->]. cbn. auto.
    + destruct H as (r & p' & -> & Hl & Hs & _ & Hlimit & _). cbn [fst snd].
      repeat split; assumption.
  - unfold Client.handleSubmit.
    rewrite (ui_bind_returned _ _ p tt (Client.setIsLoading true p) eq_refl).
    rewrite Hprefix. cbn. repeat split.
Qed.

(** X20.  The form is cleared exactly when a payment can be shown.  For an
    address with the prefix: if the response has a status from 200 to 299
    and its body is an object with a truthy [transactionHash] whose
    [height], [gasUsed] and [gasWanted] can be turned into text and which
    has a truthy [explorerTxUrl] or a hash that can be put into the
    explorer link, [handleSubmit] shows the success toast and empties the
    address field; in every other case (a rejected request, any other
    status, a body without a hash, a field that cannot be turned into text)
    the address stays as typed and no success toast is shown. *)
Theorem handleSubmit_clears_form_only_on_success
    (net : nat -> Client.FetchReply) (p : Client.Page) :
  Js.startsWith (Client.address p) "addr_safro" = true ->
  let p' := snd (Client.handleSubmit net p) in
  if delivered (net (List.length (Client.sent p)))
  then Client.address p' = EmptyString
       /\ exists href,
            Client.toasts p'
            = (Client.toasts p
               ++ [Client.mkToast "Success! 🎉" (Client.ExplorerLink href)
                     None])%list
  else Client.address p' = Client.address p
       /\ exists ts,
            Client.toasts p' = (Client.toasts p ++ ts)%list
            /\ Forall (fun t => Client.title t <> "Success! 🎉") ts.
Proof.
  intros Hprefix p'. subst p'.
  pose proof (handleSubmit_cases net p Hprefix) as H.
  destruct (delivered (net (List.length (Client.sent p)))).
  - destruct H as [href ->]. cbn. split; [reflexivity|]. now exists href.
  - destruct H as (r & p' & -> & _ & _ & Ha & _ & ts & Ht & Hf). cbn [snd].
    split; [exact Ha|]. now exists ts.
Qed.

(** The server answers 500 with an error body: the address stays. *)
Lemma handleSubmit_clears_form_only_on_success_witness :
  Client.address
    (snd (Client.handleSubmit
            (server_says 500 "Internal Server Error"
               (JsObject [("error", JsString "Transaction failed");
                          ("success", JsBool false)]))
            (fresh_page "addr_safro1xyz")))
  = "addr_safro1xyz".
Proof.
  exact (proj1 (handleSubmit_clears_form_only_on_success
                  (server_says 500 "Internal Server Error"
                     (JsObject [("error", JsString "Transaction failed");
                                ("success", JsBool false)]))
                  (fresh_page "addr_safro1xyz") eq_refl)).
Defined.

(** X21.  A 429 that names its reason is shown as a rate limit.  When the
    server answers 429 with an object whose [rateLimitType] is truthy, and
    the limit the form holds can be put into the message, [handleSubmit]
    shows one toast, "Daily Limit Reached", whose text follows the reason
    ([ip]: the network, [address]: the wallet, [both]: both); the address
    stays in the form and the form stops loading. *)
Theorem handleSubmit_shows_rate_limit_reason
    (net : nat -> Client.FetchReply) (p : Client.Page) (text : string)
    (fields : list (string * JsValue)) (limit : string) :
  Js.startsWith (Client.address p) "addr_safro" = true ->
  net (List.length (Client.sent p))
  = Client.Responds 429 text (Client.Parses (JsObject fields)) ->
  Client.truthy (Client.field "rateLimitType" fields) = true ->
  Client.String_of (Client.requestsLimit p) = Client.Returned limit ->
  exists description additionalInfo p',
    Client.handleSubmit net p = (Client.Returned tt, p')
    /\ Client.toasts p'
       = (Client.toasts p
          ++ [Client.mkToast "Daily Limit Reached"
                (Client.RateLimitCard description additionalInfo) None])%list
    /\ Client.address p' = Client.address p
    /\ Client.isLoading p' = false
    /\ (Client.field "rateLimitType" fields = JsString "ip" ->
        description = "Your network has reached today's faucet limit.")
    /\ (Client.field "rateLimitType" fields = JsString "address" ->
        description = "This wallet has reached today's faucet limit.")
    /\ (Client.field "rateLimitType" fields = JsString "both" ->
        description
        = "Both your network and wallet have reached today's limit.").
Proof.
  intros Hprefix Hreply Htype Hlimit.
  rewrite (handleSubmit_thrown net p _ _ Hprefix
             (sendTransaction_429 net (Client.address p)
                (Client.setIsLoading true p) text fields Hreply)).
  rewrite (handleSubmit_catch_typed _ limit _ _ _ Htype Hlimit).
  unfold Client.showRateLimitInfo.
  destruct (Client.is_string (Client.field "rateLimitType" fields) "ip")
    eqn:Eip;
    [|destruct (Client.is_string (Client.field "rateLimitType" fields)
                 "address") eqn:Eaddr;
      [|destruct (Client.is_string (Client.field "rateLimitType" fields)
                   "both") eqn:Eboth;
        [|rewrite Htype; cbn [negb]]]];
    eexists _, _, _; (split; [reflexivity|]);
    cbn [Client.toasts Client.address Client.isLoading Client.setIsLoading
         Client.bind Client.toast Client.update snd fst page_after_call];
    repeat split; intros Hf; rewrite Hf in *; cbn in *; congruence.
Qed.

(** The network has used up its quota. *)
Lemma handleSubmit_shows_rate_limit_reason_witness :
  exists description additionalInfo p',
    Client.handleSubmit
      (server_says 429 "Too Many Requests" (rate_limit_body
         "Your IP address has reached the maximum of " 3 "ip"))
      (fresh_page "addr_safro1xyz")
    = (Client.Returned tt, p')
    /\ Client.toasts p'
       = [Client.mkToast "Daily Limit Reached"
            (Client.RateLimitCard description additionalInfo) None]
    /\ description = "Your network has reached today's faucet limit.".
Proof.
  edestruct (handleSubmit_shows_rate_limit_reason
               (server_says 429 "Too Many Requests" (rate_limit_body
                  "Your IP address has reached the maximum of " 3 "ip"))
               (fresh_page "addr_safro1xyz"))
    as (d & i & p' & E & Ht & _ & _ & Hip & _).
  - reflexivity.
  - reflexivity.
  - reflexivity.
  - reflexivity.
  - exists d, i, p'. split; [exact E|]. split; [exact Ht|].
    apply Hip. reflexivity.
Defined.

(** X22.  The status 429 alone is not enough for the form.  What
    [sendTransaction] throws carries no status, so a 429 whose body gives no
    [rateLimitType] and whose [error] is a text with none of the phrases the
    form knows ("429", "Rate limit", "daily limit", "Too Many Requests",
    "per 24h") is shown as "Request Failed", not as a rate limit. *)
Theorem handleSubmit_needs_more_than_status_429
    (net : nat -> Client.FetchReply) (p : Client.Page) (text : string)
    (fields : list (string * JsValue)) (message : string) :
  Js.startsWith (Client.address p) "addr_safro" = true ->
  net (List.length (Client.sent p))
  = Client.Responds 429 text (Client.Parses (JsObject fields)) ->
  Client.truthy (Client.field "rateLimitType" fields) = false ->
  Client.field "error" fields = JsString message ->
  Js.truthy message = true ->
  rate_limit_phrase message = false ->
  exists p',
    Client.handleSubmit net p = (Client.Returned tt, p')
    /\ Client.toasts p'
       = (Client.toasts p
          ++ [Client.mkToast "Request Failed"
                (Client.Text
                   "Unable to process your request at the moment. Please try again later.")
                (Some "destructive")])%list
    /\ Client.address p' = Client.address p
    /\ Client.isLoading p' = false.
Proof.
  intros Hprefix Hreply Htype Herror Hmsg Hphrase.
  rewrite (handleSubmit_thrown net p _ _ Hprefix
             (sendTransaction_429 net (Client.address p)
                (Client.setIsLoading true p) text fields Hreply)).
  rewrite Herror. unfold Client.or_else. cbn [Client.truthy]. rewrite Hmsg.
  rewrite (handleSubmit_catch_untyped _ _ _ _ Htype Hmsg Hphrase).
  eexists. split; [reflexivity|]. cbn. repeat split.
Qed.

Lemma handleSubmit_needs_more_than_status_429_witness :
  exists p',
    Client.handleSubmit
      (server_says 429 "Too Many Requests"
         (JsObject [("error", JsString "Slow down")]))
      (fresh_page "addr_safro1xyz")
    = (Client.Returned tt, p')
    /\ Client.toasts p'
       = [Client.mkToast "Request Failed"
            (Client.Text
               "Unable to process your request at the moment. Please try again later.")
            (Some "destructive")].
Proof.
  edestruct (handleSubmit_needs_more_than_status_429
               (server_says 429 "Too Many Requests"
                  (JsObject [("error", JsString "Slow down")]))
               (fresh_page "addr_safro1xyz") "Too Many Requests"
               [("error", JsString "Slow down")] "Slow down")
    as (p' & E & Ht & _).
  - reflexivity.
  - reflexivity.
  - reflexivity.
  - reflexivity.
  - reflexivity.
  - reflexivity.
  - exists p'. split; [exact E|exact Ht].
Defined.

(** X23.  The form knows every rate-limit message of the edge function.
    The [error] text of each of the three 429 bodies [serve] sends starts
    with "Rate limit", so [isRateLimitErrorMessage] says yes to it, for every
    limit and whatever the reason. *)
Theorem server_rate_limit_texts_are_recognised (text : string) (limit : Z)
    (kind : string) (p : Client.Page) :
  exists message,
    Client.get (rate_limit_body text limit kind) "error"
    = Client.Returned (JsString message)
    /\ Client.isRateLimitErrorMessage (JsString message) p
       = (Client.Returned true, p).
Proof.
  eexists. split; [reflexivity|].
  unfold Client.isRateLimitErrorMessage.
  cbn [Client.truthy Js.truthy append negb].
  cbn [Client.bind Client.lift Client.includes Client.ret].
  match goal with
  | |- context [Js.includes ?m "429"] => destruct (Js.includes m "429")
  end; [reflexivity|].
  cbn [Client.bind Client.lift Client.includes Client.ret].
  match goal with
  | |- context [Js.includes ?m "Rate limit"] =>
      assert (H : Js.includes m "Rate limit" = true)
        by (apply includes_here;
            apply (prefix_app_l "Rate limit" " exceeded. ");
            cbn; repeat (destruct (ascii_dec _ _); [|congruence]);
            match goal with
            | |- String.prefix EmptyString ?s = true => now destruct s
            end);
      rewrite H
  end.
  reflexivity.
Qed.

(** X24.  The form's prefix check is at least as strict as the server's,
    as long as the configured prefix is a beginning of [addr_safro]: the
    address of every request [handleSubmit] sends is one the edge function's
    prefix validation accepts. *)
Theorem form_addresses_pass_server_prefix_check
    (net : nat -> Client.FetchReply) (p : Client.Page) (PREFIX : string) :
  Js.startsWith "addr_safro" PREFIX = true ->
  Client.sent (snd (Client.handleSubmit net p)) = Client.sent p
  \/ (Client.sent (snd (Client.handleSubmit net p))
      = (Client.sent p ++ [transaction_call (Client.address p)])%list
      /\ invalid_receiver (Some (Client.address p)) PREFIX = false).
Proof.
  intros Hserver.
  pose proof (handleSubmit_sends net p) as H.
  destruct (Js.startsWith (Client.address p) "addr_safro") eqn:Hprefix.
  - right. split; [exact H|].
    unfold invalid_receiver, Js.startsWith in *.
    rewrite (prefix_trans _ _ _ Hserver Hprefix).
    destruct (Client.address p); [discriminate|reflexivity].
  - left. exact H.
Qed.

Lemma form_addresses_pass_server_prefix_check_witness :
  Client.sent (snd (Client.handleSubmit server_down
                      (fresh_page "addr_safro1xyz")))
  = Client.sent (fresh_page "addr_safro1xyz")
  \/ (Client.sent (snd (Client.handleSubmit server_down
                          (fresh_page "addr_safro1xyz")))
      = (Client.sent (fresh_page "addr_safro1xyz")
         ++ [transaction_call (Client.address (fresh_page "addr_safro1xyz"))])%list
      /\ invalid_receiver
           (Some (Client.address (fresh_page "addr_safro1xyz")))
           (prefix example_config) = false).
Proof.
  apply (form_addresses_pass_server_prefix_check server_down
           (fresh_page "addr_safro1xyz") (prefix example_config)).
  reflexivity.
Defined.

(** X25.  The geolocation service cannot change the answer.  Whatever
    ipinfo.io answers, and also when it fails, the response [serve] gives to
    a request is the same: the region only goes into the audit record. *)
Theorem geolocation_never_changes_the_answer (env : Env)
    (regions : nat -> RegionReply) (req : Request) (w : World) :
  fst (serve (with_regions env regions) req w) = fst (serve env req w).
Proof.
  apply serve_alike. intros k. now left.
Qed.

(** X26.  A failing audit log cannot change the answer.  As long as no
    insert throws, the response [serve] gives is the same whether the table
    takes the rows or answers every insert with an error status: insert
    errors are logged, not raised. *)
Theorem audit_log_health_never_changes_the_answer (env : Env)
    (inserts : nat -> InsertReply) (req : Request) (w : World) :
  (forall k, insert_answers (inserts k)) ->
  (forall k, insert_answers (insert_reply env k)) ->
  fst (serve (with_inserts env inserts) req w) = fst (serve env req w).
Proof.
  intros Ha Hb. apply serve_alike. intros k. right. split; auto.
Qed.

(** The table refuses every row: the request is still paid and answered
    as before. *)
Lemma audit_log_health_never_changes_the_answer_witness :
  fst (serve (with_inserts
                (example_env steady_accounts accepted table_answers)
                (fun _ => InsertNotOk "permission denied"))
         (example_request (Some "203.0.113.7") "addr_safro1xyz")
         (world_with []))
  = fst (serve (example_env steady_accounts accepted table_answers)
           (example_request (Some "203.0.113.7") "addr_safro1xyz")
           (world_with [])).
Proof.
  apply (audit_log_health_never_changes_the_answer
           (example_env steady_accounts accepted table_answers)
           (fun _ => InsertNotOk "permission denied")
           (example_request (Some "203.0.113.7") "addr_safro1xyz")
           (world_with [])).
  - intros k e. discriminate.
  - intros k e. discriminate.
Defined.

(** X27.  Of an [x-forwarded-for] header only the first entry counts, and
    white space around it does not: the address [serve] keys its quota on is
    the same for a header that pads the first entry with white space and
    appends further entries as for the bare entry. *)
Theorem forwarded_address_is_first_entry_trimmed (req : Request)
    (pad1 core pad2 rest : string) :
  all_space pad1 = true ->
  all_space pad2 = true ->
  lacks "," core = true ->
  requester_ip (with_forwarded req (pad1 ++ core ++ pad2 ++ "," ++ rest))
  = requester_ip (with_forwarded req core).
Proof.
  intros H1 H2 Hc. unfold requester_ip, with_forwarded.
  cbn [x_forwarded_for x_real_ip].
  replace (pad1 ++ core ++ pad2 ++ "," ++ rest)
    with ((pad1 ++ core ++ pad2) ++ String "," rest)
    by (now rewrite !string_app_assoc).
  rewrite split_head_first.
  - now rewrite (split_head_whole _ core Hc), trim_padded.
  - rewrite !lacks_app, Hc.
    now rewrite !(all_space_lacks ",") by (reflexivity || assumption).
Qed.

Lemma forwarded_address_is_first_entry_trimmed_witness :
  requester_ip
    (with_forwarded (example_request None "addr_safro1xyz")
       (" " ++ "203.0.113.7" ++ "  " ++ "," ++ " 10.0.0.1"))
  = requester_ip
      (with_forwarded (example_request None "addr_safro1xyz") "203.0.113.7").
Proof.
  apply (forwarded_address_is_first_entry_trimmed
           (example_request None "addr_safro1xyz") " " "203.0.113.7" "  "
           " 10.0.0.1"); reflexivity.
Defined.
